(** * onward: typed task-graph orchestration

    A shallow embedding of the [onward] package:
    - [onward/errors.py]   : the exception classes,
    - [onward/executor.py] : operation descriptors and the three executors,
    - [onward/__init__.py] : registration ([operation]), [Plan.__init__] and
      the orchestrator loop [Plan.start_or_resume],
    together with a transcription of the part of CPython's
    [graphlib.TopologicalSorter] that [Plan] drives. *)

From Stdlib Require Import ZArith Lia Sorted.
From stdpp Require Import base option strings list gmap.

Open Scope string_scope.
Open Scope list_scope.

(** ** Python classes and values *)

(** The classes that can appear in an annotation.  [StateType] is any class
    for which [issubclass(c, State)] holds; its second component is the
    class attribute [__onward_plan__] (set by [PlanMeta.__new__] on
    [Plan.State], inherited by subclasses, absent on [State] itself).
    [PlanType] is any class for which [issubclass(c, Plan)] holds.

    Only classes are annotations here.  On an annotation that is not a
    class, such as [Optional[ParseFile]], [issubclass] raises TypeError, and
    a string annotation that does not resolve makes [get_type_hints] raise
    NameError; either way [operation] ends before anything is registered.
    What is said below of a registration that fails is said of functions
    annotated with classes. *)
Inductive pytype :=
| NoneType
| PlanType (cls_name : string)
| StateType (cls_name : string) (onward_plan : option string)
| OtherType (cls_name : string).

#[export] Instance pytype_eq_dec : EqDecision pytype.
Proof. solve_decision. Defined.

Definition pytype_encode (t : pytype) : string + (string + (string * option string + unit)) :=
  match t with
  | PlanType p => inl p
  | OtherType c => inr (inl c)
  | StateType s o => inr (inr (inl (s, o)))
  | NoneType => inr (inr (inr tt))
  end.

Definition pytype_decode (x : string + (string + (string * option string + unit))) : pytype :=
  match x with
  | inl p => PlanType p
  | inr (inl c) => OtherType c
  | inr (inr (inl (s, o))) => StateType s o
  | inr (inr (inr _)) => NoneType
  end.

#[export] Instance pytype_countable : Countable pytype.
Proof.
  refine (inj_countable' pytype_encode pytype_decode _).
  intros []; reflexivity.
Defined.

(** [issubclass(c, State)] and [issubclass(c, Plan)]. *)
Definition issubclass_State (c : pytype) : bool :=
  match c with StateType _ _ => true | _ => false end.

Definition issubclass_Plan (c : pytype) : bool :=
  match c with PlanType _ => true | _ => false end.

(** [c is type(None)]. *)
Definition is_NoneType (c : pytype) : bool :=
  match c with NoneType => true | _ => false end.

(** A runtime value: [None], or an object with its class, the other classes
    of its MRO, and a payload. *)
Inductive pyvalue :=
| PyNone
| PyObj (cls : pytype) (bases : list pytype) (data : string).

#[export] Instance pyvalue_eq_dec : EqDecision pyvalue.
Proof. solve_decision. Defined.

Definition type_of (v : pyvalue) : pytype :=
  match v with PyNone => NoneType | PyObj c _ _ => c end.

Definition mro (v : pyvalue) : list pytype :=
  match v with PyNone => [NoneType] | PyObj c bs _ => c :: bs end.

Definition isinstance (v : pyvalue) (c : pytype) : bool :=
  bool_decide (c ∈ mro v).

Definition is_None (v : pyvalue) : bool :=
  match v with PyNone => true | _ => false end.

(** The key of a node: [type[State] | str]. *)
Inductive OutputKey :=
| ByType (t : pytype)
| ByName (n : string).

#[export] Instance OutputKey_eq_dec : EqDecision OutputKey.
Proof. solve_decision. Defined.

#[export] Instance OutputKey_countable : Countable OutputKey.
Proof.
  refine (inj_countable'
            (fun k => match k with ByType t => inl t | ByName n => inr n end)
            (fun x => match x with inl t => ByType t | inr n => ByName n end) _).
  intros []; reflexivity.
Defined.

(** [isinstance(key, str)]. *)
Definition is_str (k : OutputKey) : bool :=
  match k with ByName _ => true | ByType _ => false end.

(** ** Exceptions ([onward/errors.py] and the builtins the code can hit) *)

Inductive SignatureFault :=
| NoTypedReturn
| IncorrectTypedReturn (declared : pytype)
| NoArguements
| UntypedArguements (missing_arguements : list string)
| InvalidArguementType (dep_name : string) (dep_state : pytype).

Inductive ProviderFault :=
| SameState (other_op : string)
| SameFunctionName (other_op : string).

Inductive exn :=
| InvalidOperationSignatureError (func : string) (why : SignatureFault)
| TooManyProvidersError (func : string) (why : ProviderFault)
| AsyncNotSupported
| InvalidOperationReturnError (op_name : string)
| NotRunningError
| KeyError
| ValueError (msg : string)
| CycleError
| AttributeError
| IndexError
| StopIteration
| TimeoutError
| RuntimeError
| UserException (msg : string).

Inductive result (A : Type) :=
| Ok (a : A)
| Raise (e : exn).
Arguments Ok {A} a.
Arguments Raise {A} e.

#[export] Instance result_bind : MBind result :=
  fun A B f m => match m with Ok a => f a | Raise e => Raise e end.
#[export] Instance result_ret : MRet result := fun A a => Ok a.

Definition is_Ok {A} (r : result A) : bool :=
  match r with Ok _ => true | Raise _ => false end.

(** Computations that read and write a state [S] and may raise.  The state
    after a raise is kept: Python does not roll mutations back. *)
Definition M (S A : Type) : Type := S -> result A * S.

#[export] Instance M_ret {S} : MRet (M S) := fun A a s => (Ok a, s).
#[export] Instance M_bind {S} : MBind (M S) :=
  fun A B f m s =>
    match m s with
    | (Ok a, s') => f a s'
    | (Raise e, s') => (Raise e, s')
    end.

Definition raise {S A} (e : exn) : M S A := fun s => (Raise e, s).
Definition get {S} : M S S := fun s => (Ok s, s).
Definition put {S} (s : S) : M S unit := fun _ => (Ok tt, s).
Definition modify {S} (f : S -> S) : M S unit := fun s => (Ok tt, f s).
Definition lift {S A} (r : result A) : M S A := fun s => (r, s).

(** [for x in xs: body(x)] *)
Fixpoint for_each {S A} (xs : list A) (body : A -> M S unit) : M S unit :=
  match xs with
  | [] => mret tt
  | x :: xs' => body x ≫= fun _ => for_each xs' body
  end.

(** ** Insertion-ordered dictionaries *)

Section dict.
Context {K V : Type} `{EqDecision K}.

Fixpoint dict_get (d : list (K * V)) (k : K) : option V :=
  match d with
  | [] => None
  | (k', v) :: d' => if decide (k' = k) then Some v else dict_get d' k
  end.

(** [k in d] *)
Definition dict_contains (d : list (K * V)) (k : K) : bool :=
  match dict_get d k with Some _ => true | None => false end.

(** [d[k]] *)
Definition dict_getitem (d : list (K * V)) (k : K) : result V :=
  match dict_get d k with Some v => Ok v | None => Raise KeyError end.

(** [d[k] = v]: an existing key keeps its position, a new one goes last. *)
Fixpoint dict_set (d : list (K * V)) (k : K) (v : V) : list (K * V) :=
  match d with
  | [] => [(k, v)]
  | (k', v') :: d' =>
      if decide (k' = k) then (k', v) :: d' else (k', v') :: dict_set d' k v
  end.

(** [d.pop(k)] with the popped value dropped. *)
Fixpoint dict_pop (d : list (K * V)) (k : K) : list (K * V) :=
  match d with
  | [] => []
  | (k', v) :: d' => if decide (k' = k) then d' else (k', v) :: dict_pop d' k
  end.

(** [del d[k]] *)
Definition dict_del (d : list (K * V)) (k : K) : result (list (K * V)) :=
  match dict_get d k with Some _ => Ok (dict_pop d k) | None => Raise KeyError end.

Definition dict_keys (d : list (K * V)) : list K := d.*1.
Definition dict_values (d : list (K * V)) : list V := d.*2.
End dict.

(** [l.pop()]: the last element and the list without it. *)
Fixpoint list_pop {A} (l : list A) : option (A * list A) :=
  match l with
  | [] => None
  | x :: l' =>
      match list_pop l' with
      | None => Some (x, [])
      | Some (y, r) => Some (y, x :: r)
      end
  end.

Section Onward.
(** Everything a user function may read or change besides its arguments. *)
Context {W : Type}.

(** ** Functions as [operation] sees them *)

(** [inspect.Parameter.kind]: where a parameter stands in the [def]. *)
Inductive param_kind :=
| POSITIONAL_ONLY
| POSITIONAL_OR_KEYWORD
| VAR_POSITIONAL
| KEYWORD_ONLY
| VAR_KEYWORD.

#[export] Instance param_kind_eq_dec : EqDecision param_kind.
Proof. solve_decision. Defined.

Record pyfunc := {
  __name__ : string;
  (** declared parameters, in order, each with its annotation if any *)
  parameters : list (string * option pytype);
  (** the kind of the parameter of each name: before [/], plain, [*args],
      after [*], [**kwargs] *)
  kind : string -> param_kind;
  (** the annotation after [->], if any; [-> None] is [Some NoneType] *)
  return_annotation : option pytype;
  (** names of the local variables of the body that are not parameters *)
  local_variables : list string;
  (** [asyncio.iscoroutinefunction(func)] *)
  iscoroutinefunction : bool;
  (** calling the function with keyword arguments *)
  __call__ : list (string * pyvalue) -> M W pyvalue
}.

(** The parameters of one kind, in the order of the [def]. *)
Definition of_kind (k : param_kind) (func : pyfunc)
  : list (string * option pytype) :=
  filter (fun p => kind func p.1 = k) (parameters func).

(** The order of the parameters in the code object: positional ones
    (positional-only first), keyword-only ones, [*args], [**kwargs]. *)
Definition code_order (func : pyfunc) : list (string * option pytype) :=
  of_kind POSITIONAL_ONLY func ++ of_kind POSITIONAL_OR_KEYWORD func
  ++ of_kind KEYWORD_ONLY func ++ of_kind VAR_POSITIONAL func
  ++ of_kind VAR_KEYWORD func.

(** The order in which CPython (3.11) stores the annotations in
    [__annotations__]: those of the positional-or-keyword parameters, then
    those of the positional-only ones, of [*args], of the keyword-only
    parameters and of [**kwargs]. *)
Definition annotation_order (func : pyfunc) : list (string * option pytype) :=
  of_kind POSITIONAL_OR_KEYWORD func ++ of_kind POSITIONAL_ONLY func
  ++ of_kind VAR_POSITIONAL func ++ of_kind KEYWORD_ONLY func
  ++ of_kind VAR_KEYWORD func.

(** [func.__code__.co_varnames]: the parameters, then the other locals. *)
Definition co_varnames (func : pyfunc) : list string :=
  (code_order func).*1 ++ local_variables func.

(** [typing.get_type_hints(func)]: the annotated parameters in the order
    of [__annotations__], then ["return"] when the return type is
    declared. *)
Definition get_type_hints (func : pyfunc) : list (string * pytype) :=
  omap (fun p => match p.2 with Some t => Some (p.1, t) | None => None end)
       (annotation_order func)
  ++ match return_annotation func with
     | Some t => [("return", t)]
     | None => []
     end.

(** ** Operation descriptors ([executor.py], lines 22-90) *)

Record Operation := {
  function : pyfunc;
  dependencies : list pytype;
  provides : pytype;
  hint_map : list (pytype * string)
}.

Inductive OperationType :=
| SyncOperation (self : Operation)
| AsyncOperation (self : Operation).

Definition fields (op : OperationType) : Operation :=
  match op with SyncOperation o => o | AsyncOperation o => o end.

Definition name (self : Operation) : string := __name__ (function self).

Definition id (self : Operation) : OutputKey :=
  if negb (is_NoneType (provides self)) then ByType (provides self)
  else ByName (name self).

Definition op_name (op : OperationType) : string := name (fields op).
Definition op_id (op : OperationType) : OutputKey := id (fields op).

(** ** Registration ([__init__.py], [operation], lines 169-230) *)

(** The class-level [__onward_operations__] of one Plan class. *)
Definition Registry : Type := list (OutputKey * OperationType).

(** [__onward_operations__] of a Plan class given by name; a class that
    has not registered anything yet has the empty dict that
    [PlanMeta.__new__] gave it. *)
Definition onward_operations (plans : gmap string Registry) (plan : string)
  : Registry :=
  default [] (plans !! plan).

(** Lines 196-201: the loop over the remaining hints. *)
Fixpoint collect_depends (func : pyfunc) (hints : list (string * pytype))
    (depends : list pytype) (hint_map : list (pytype * string))
  : result (list pytype * list (pytype * string)) :=
  match hints with
  | [] => Ok (depends, hint_map)
  | (dep_name, dep_state) :: hints' =>
      if negb (issubclass_State dep_state) && negb (issubclass_Plan dep_state)
      then Raise (InvalidOperationSignatureError (__name__ func)
                    (InvalidArguementType dep_name dep_state))
      else collect_depends func hints' (depends ++ [dep_state])
             (dict_set hint_map dep_state dep_name)
  end.

(** Lines 203-207: the Plan class owning the operation. *)
Definition plan_of_first_arg (first_arg : pytype) : result string :=
  if issubclass_State first_arg then
    match first_arg with
    | StateType _ (Some plan) => Ok plan
    | _ => Raise AttributeError
    end
  else
    match first_arg with
    | PlanType plan => Ok plan
    | _ => Raise AttributeError
    end.

(** Lines 170-212: validation and construction of the descriptor. *)
Definition make_operation (func : pyfunc) : result (string * OperationType) :=
  let hints := get_type_hints func in
  provides ← match dict_get hints "return" with
              | None =>
                  Raise (InvalidOperationSignatureError (__name__ func) NoTypedReturn)
              | Some r =>
                  if negb (issubclass_State r) && negb (is_NoneType r)
                  then Raise (InvalidOperationSignatureError (__name__ func)
                                (IncorrectTypedReturn r))
                  else Ok r
              end;
  let hints := dict_pop hints "return" in
  let arguement_names := co_varnames func in
  if bool_decide (length arguement_names = 0) then
    Raise (InvalidOperationSignatureError (__name__ func) NoArguements)
  else if negb (forallb (fun name => dict_contains hints name) arguement_names) then
    Raise (InvalidOperationSignatureError (__name__ func)
             (UntypedArguements
                (filter (fun name => dict_contains hints name = false)
                   arguement_names)))
  else
    '(depends, hint_map) ← collect_depends func hints [] [];
    first_arg ← match depends with
                 | first_arg :: _ => Ok first_arg
                 | [] => Raise IndexError
                 end;
    plan ← plan_of_first_arg first_arg;
    let self := {| function := func; dependencies := depends;
                   provides := provides; hint_map := hint_map |} in
    Ok (plan, if iscoroutinefunction func then AsyncOperation self
              else SyncOperation self).

(** Lines 214-228: conflict detection and insertion. *)
Definition insert_operation (func : pyfunc) (plan : string)
    (operation : OperationType) (plans : gmap string Registry)
  : result (gmap string Registry) :=
  let registry := onward_operations plans plan in
  let provides := provides (fields operation) in
  if dict_contains registry (ByType provides)
     || dict_contains registry (ByName (op_name operation))
  then
    other_op ← dict_getitem registry (op_id operation);
    if dict_contains registry (ByType provides)
    then Raise (TooManyProvidersError (__name__ func) (SameState (op_name other_op)))
    else Raise (TooManyProvidersError (__name__ func)
                  (SameFunctionName (op_name other_op)))
  else
    Ok (<[plan := dict_set registry (op_id operation) operation]> plans).

(** The decorator.  The function itself is returned unchanged, so the
    result is the updated table of registries. *)
Definition operation (func : pyfunc) (plans : gmap string Registry)
  : result (gmap string Registry) :=
  '(plan, op) ← make_operation func;
  insert_operation func plan op plans.

(** ** Invocation wrappers ([executor.py], lines 29-45 and 63-79) *)

(** [{self.hint_map[type(arg)]: arg for arg in args}] *)
Fixpoint bind_by_type (hint_map : list (pytype * string)) (args : list pyvalue)
    (kwargs : list (string * pyvalue)) : result (list (string * pyvalue)) :=
  match args with
  | [] => Ok kwargs
  | arg :: args' =>
      slot ← dict_getitem hint_map (type_of arg);
      bind_by_type hint_map args' (dict_set kwargs slot arg)
  end.

Definition SyncOperation_operation_wrapper (self : Operation)
    (kwargs : list (string * pyvalue)) : M W (pyvalue * OutputKey) :=
  state_value ← __call__ (function self) kwargs;
  if negb (is_NoneType (provides self)) then
    if negb (isinstance state_value (provides self)) then
      raise (InvalidOperationReturnError (name self))
    else if is_None state_value then
      raise (InvalidOperationReturnError (name self))
    else mret (state_value, id self)
  else mret (state_value, id self).

(** The same body after [await self.function(...)]; suspension points
    are not observable in this model. *)
Definition AsyncOperation_operation_wrapper (self : Operation)
    (kwargs : list (string * pyvalue)) : M W (pyvalue * OutputKey) :=
  state_value ← __call__ (function self) kwargs;
  if negb (is_NoneType (provides self)) then
    if negb (isinstance state_value (provides self)) then
      raise (InvalidOperationReturnError (name self))
    else if is_None state_value then
      raise (InvalidOperationReturnError (name self))
    else mret (state_value, id self)
  else mret (state_value, id self).

(** [functools.partial(self._operation_wrapper, **kwargs)] *)
Record partial := { func : Operation; keywords : list (string * pyvalue) }.

(** The coroutine object made by calling [AsyncOperation._operation_wrapper]. *)
Record coroutine := { cr_self : Operation; cr_kwargs : list (string * pyvalue) }.

Definition SyncOperation_call (self : Operation) (args : list pyvalue)
  : result partial :=
  kwargs ← bind_by_type (hint_map self) args [];
  Ok {| func := self; keywords := kwargs |}.

Definition AsyncOperation_call (self : Operation) (args : list pyvalue)
  : result coroutine :=
  kwargs ← bind_by_type (hint_map self) args [];
  Ok {| cr_self := self; cr_kwargs := kwargs |}.

(** Calling the partial object. *)
Definition call_partial (p : partial) : M W (pyvalue * OutputKey) :=
  SyncOperation_operation_wrapper (func p) (keywords p).

(** ** Executors ([executor.py], lines 94-245) *)

(** The abstract base class.  [X] is the executor object together with
    whatever part of the environment its methods touch. *)
Class Executor (X : Type) := {
  running : X -> bool;
  add_operations : list (partial * OutputKey) -> M X unit;
  add_async_operations : list (coroutine * OutputKey) -> M X unit;
  join_next : option nat -> M X (pyvalue * OutputKey);
  close : M X unit
}.

(** [Executor.add_async_operations], inherited unless overridden. *)
Definition Executor_add_async_operations {X}
    (operations : list (coroutine * OutputKey)) : M X unit :=
  raise AsyncNotSupported.

(** *** SynchronousExecutor *)

Record SynchronousExecutor := { schedule : list partial }.

Definition SynchronousExecutor_running (self : SynchronousExecutor) : bool :=
  bool_decide (0 < length (schedule self)).

Definition SynchronousExecutor_add_operations
    (operations : list (partial * OutputKey)) : M (SynchronousExecutor * W) unit :=
  modify (fun x => ({| schedule := schedule x.1 ++ operations.*1 |}, x.2)).

Definition SynchronousExecutor_join_next (timeout : option nat)
  : M (SynchronousExecutor * W) (pyvalue * OutputKey) :=
  fun x =>
    if negb (SynchronousExecutor_running x.1) then (Raise NotRunningError, x)
    else
      match list_pop (schedule x.1) with
      | None => (Raise IndexError, x)
      | Some (p, rest) =>
          let r := call_partial p x.2 in
          (r.1, ({| schedule := rest |}, r.2))
      end.

Definition SynchronousExecutor_close : M (SynchronousExecutor * W) unit :=
  modify (fun x => ({| schedule := [] |}, x.2)).

#[export] Instance SynchronousExecutor_Executor
  : Executor (SynchronousExecutor * W) := {
  running x := SynchronousExecutor_running x.1;
  add_operations := SynchronousExecutor_add_operations;
  add_async_operations := Executor_add_async_operations;
  join_next := SynchronousExecutor_join_next;
  close := SynchronousExecutor_close
}.

(** *** ThreadedExecutor

    The worker threads are outside the model: a [Future] carries the
    instant at which its call finishes and what it then yields, both
    chosen by the pool.  The second component of the state is the clock.

    [as_completed] collects the futures in a set, so those already
    finished when it is called come out in an order that depends on where
    the futures lie in memory.  That order is the pool's choice as well:
    [finished_order now fs] is the position, among the futures of [fs]
    finished at [now], of the one that comes out first. *)

Record Future := {
  done_at : nat;
  future_result : result (pyvalue * OutputKey)
}.

Record ThreadPoolExecutor := {
  submit : partial -> Future;
  finished_order : nat -> list Future -> nat
}.

Record ThreadedExecutor := {
  pool : ThreadPoolExecutor;
  futures : list Future
}.

(** Position and value of the element that finishes first. *)
Fixpoint first_completed {A} (when : A -> nat) (fs : list A) : option (nat * A) :=
  match fs with
  | [] => None
  | f :: fs' =>
      match first_completed when fs' with
      | None => Some (0, f)
      | Some (i, g) => if bool_decide (when g < when f) then Some (S i, g)
                       else Some (0, f)
      end
  end.

(** The elements already finished at [now], with their positions. *)
Definition finished {A} (when : A -> nat) (now : nat) (fs : list A)
  : list (nat * A) :=
  filter (fun p => when p.2 <= now) (imap pair fs).

(** What a wait for the next completion at [now] gives: one of the elements
    already finished, the one at position [order] among them (the first of
    them when there is no such position), when there is one; else the
    element that finishes first. *)
Definition next_completed {A} (when : A -> nat) (order now : nat)
    (fs : list A) : option (nat * A) :=
  match finished when now fs with
  | [] => first_completed when fs
  | d :: ds => Some (default d ((d :: ds) !! order))
  end.

(** [next(concurrent.futures.as_completed(fs, timeout=timeout))] at
    instant [now]: the result and the instant at which the call returns.
    A future that is already finished is yielded before the timeout is
    looked at. *)
Definition next_as_completed (order : nat) (fs : list Future)
    (timeout : option nat) (now : nat) : result (nat * Future) * nat :=
  match next_completed done_at order now fs with
  | None => (Raise StopIteration, now)
  | Some (i, f) =>
      match timeout with
      | Some t =>
          if bool_decide (now + t < done_at f) then (Raise TimeoutError, now + t)
          else (Ok (i, f), now `max` done_at f)
      | None => (Ok (i, f), now `max` done_at f)
      end
  end.

Definition ThreadedExecutor_running (self : ThreadedExecutor) : bool :=
  bool_decide (0 < length (futures self)).

Definition ThreadedExecutor_add_operations
    (operations : list (partial * OutputKey)) : M (ThreadedExecutor * nat) unit :=
  for_each operations (fun operation =>
    modify (fun x =>
      ({| pool := pool x.1;
          futures := futures x.1 ++ [submit (pool x.1) operation.1] |}, x.2))).

Definition ThreadedExecutor_join_next (timeout : option nat)
  : M (ThreadedExecutor * nat) (pyvalue * OutputKey) :=
  fun x =>
    if negb (ThreadedExecutor_running x.1) then (Raise NotRunningError, x)
    else
      match next_as_completed (finished_order (pool x.1) x.2 (futures x.1))
              (futures x.1) timeout x.2 with
      | (Raise e, now) => (Raise e, (x.1, now))
      | (Ok (i, next_future), now) =>
          (future_result next_future,
           ({| pool := pool x.1; futures := delete i (futures x.1) |}, now))
      end.

Definition ThreadedExecutor_close : M (ThreadedExecutor * nat) unit :=
  modify (fun x => ({| pool := pool x.1; futures := [] |}, x.2)).

#[export] Instance ThreadedExecutor_Executor
  : Executor (ThreadedExecutor * nat) := {
  running x := ThreadedExecutor_running x.1;
  add_operations := ThreadedExecutor_add_operations;
  add_async_operations := Executor_add_async_operations;
  join_next := ThreadedExecutor_join_next;
  close := ThreadedExecutor_close
}.

(** *** AsyncioExecutor

    The event loop is outside the model as well: a [Task] carries the
    instant at which it finishes and what it yields.  [asyncio.as_completed]
    collects the tasks in a set too, and the loop runs the callbacks of
    those already done in the order of that set: [done_order now ts] is the
    position, among the tasks of [ts] done at [now], of the one whose
    result comes first. *)

Record Task := {
  task_done_at : nat;
  task_result : result (pyvalue * OutputKey)
}.

(** What is handed to [loop.create_task]. *)
Inductive awaitable :=
| to_thread (operation : partial)
| async_wrap (operation : partial)
| native (operation : coroutine).

Record AbstractEventLoop := {
  is_closed : bool;
  create_task : awaitable -> Task;
  done_order : nat -> list Task -> nat
}.

Record AsyncioExecutor := {
  tasks : list (OutputKey * Task);
  loop : AbstractEventLoop;
  thread_sync : bool
}.

Definition AsyncioExecutor_running (self : AsyncioExecutor) : bool :=
  bool_decide (0 < length (tasks self)) || is_closed (loop self).

(** [self.tasks[key] = self.loop.create_task(a)]; a closed loop refuses
    new tasks. *)
Definition set_task (key : OutputKey) (a : awaitable)
  : M (AsyncioExecutor * nat) unit :=
  fun x =>
    if is_closed (loop x.1) then (Raise RuntimeError, x)
    else (Ok tt,
          ({| tasks := dict_set (tasks x.1) key (create_task (loop x.1) a);
              loop := loop x.1; thread_sync := thread_sync x.1 |}, x.2)).

Definition AsyncioExecutor_add_operations
    (operations : list (partial * OutputKey)) : M (AsyncioExecutor * nat) unit :=
  fun x =>
    if thread_sync x.1 then
      for_each operations
        (fun operation => set_task operation.2 (to_thread operation.1)) x
    else
      for_each operations
        (fun operation => set_task operation.2 (async_wrap operation.1)) x.

Definition AsyncioExecutor_add_async_operations
    (operations : list (coroutine * OutputKey)) : M (AsyncioExecutor * nat) unit :=
  for_each operations
    (fun operation => set_task operation.2 (native operation.1)).

(** Lines 230-237.  [timeout] is not passed on to [asyncio.as_completed]. *)
Definition AsyncioExecutor_join_next (timeout : option nat)
  : M (AsyncioExecutor * nat) (pyvalue * OutputKey) :=
  fun x =>
    if negb (AsyncioExecutor_running x.1) then (Raise NotRunningError, x)
    else
      match next_completed task_done_at
              (done_order (loop x.1) x.2 (dict_values (tasks x.1))) x.2
              (dict_values (tasks x.1)) with
      | None => (Raise StopIteration, x)
      | Some (_, next_task) =>
          if is_closed (loop x.1) then (Raise RuntimeError, x)
          else
            let now := x.2 `max` task_done_at next_task in
            match task_result next_task with
            | Raise e => (Raise e, (x.1, now))
            | Ok return_value =>
                match dict_del (tasks x.1) return_value.2 with
                | Raise e => (Raise e, (x.1, now))
                | Ok tasks' =>
                    (Ok return_value,
                     ({| tasks := tasks'; loop := loop x.1;
                         thread_sync := thread_sync x.1 |}, now))
                end
            end
      end.

Definition AsyncioExecutor_close : M (AsyncioExecutor * nat) unit :=
  modify (fun x => ({| tasks := []; loop := loop x.1;
                       thread_sync := thread_sync x.1 |}, x.2)).

#[export] Instance AsyncioExecutor_Executor
  : Executor (AsyncioExecutor * nat) := {
  running x := AsyncioExecutor_running x.1;
  add_operations := AsyncioExecutor_add_operations;
  add_async_operations := AsyncioExecutor_add_async_operations;
  join_next := AsyncioExecutor_join_next;
  close := AsyncioExecutor_close
}.

(** ** [graphlib.TopologicalSorter]

    The methods [Plan] calls, after CPython's [Lib/graphlib.py]
    (3.9 to 3.13).  [_node2info] is a dict, so it keeps insertion order. *)

Definition _NODE_OUT : Z := -1.
Definition _NODE_DONE : Z := -2.

Record _NodeInfo := {
  node : OutputKey;
  npredecessors : Z;
  successors : list OutputKey
}.

Record TopologicalSorter := {
  _node2info : list (OutputKey * _NodeInfo);
  _ready_nodes : option (list OutputKey);
  _npassedout : nat;
  _nfinished : nat
}.

Definition TopologicalSorter_new : TopologicalSorter :=
  {| _node2info := []; _ready_nodes := None; _npassedout := 0; _nfinished := 0 |}.

Definition set_node2info (n2i : list (OutputKey * _NodeInfo))
    (self : TopologicalSorter) : TopologicalSorter :=
  {| _node2info := n2i; _ready_nodes := _ready_nodes self;
     _npassedout := _npassedout self; _nfinished := _nfinished self |}.

Definition set_npredecessors (n : Z) (i : _NodeInfo) : _NodeInfo :=
  {| node := node i; npredecessors := n; successors := successors i |}.

Definition append_successor (s : OutputKey) (i : _NodeInfo) : _NodeInfo :=
  {| node := node i; npredecessors := npredecessors i;
     successors := successors i ++ [s] |}.

(** [_get_nodeinfo(node)] followed by an in-place update of the record. *)
Definition update_nodeinfo (node : OutputKey) (f : _NodeInfo -> _NodeInfo)
    (n2i : list (OutputKey * _NodeInfo)) : list (OutputKey * _NodeInfo) :=
  match dict_get n2i node with
  | Some result => dict_set n2i node (f result)
  | None =>
      dict_set n2i node
        (f {| node := node; npredecessors := 0; successors := [] |})
  end.

Definition TopologicalSorter_add (node : OutputKey)
    (predecessors : list OutputKey) : M TopologicalSorter unit :=
  fun self =>
    match _ready_nodes self with
    | Some _ =>
        (Raise (ValueError "Nodes cannot be added after a call to prepare()"),
         self)
    | None =>
        let n2i :=
          update_nodeinfo node
            (fun i => set_npredecessors
                        (npredecessors i + Z.of_nat (length predecessors)) i)
            (_node2info self) in
        let n2i :=
          foldl (fun n2i pred => update_nodeinfo pred (append_successor node) n2i)
            n2i predecessors in
        (Ok tt, set_node2info n2i self)
    end.

(** Whether every predecessor of [n] is in [removed]. *)
Definition predecessors_in (n2i : list (OutputKey * _NodeInfo))
    (removed : list OutputKey) (n : OutputKey) : bool :=
  forallb (fun e => bool_decide (n ∉ successors e.2)
                    || bool_decide (e.1 ∈ removed)) n2i.

(** Repeated removal of the nodes that have no predecessor left. *)
Fixpoint eliminate (fuel : nat) (n2i : list (OutputKey * _NodeInfo))
    (removed : list OutputKey) : list OutputKey :=
  match fuel with
  | 0 => removed
  | S fuel' =>
      eliminate fuel' n2i
        (removed ++
           filter (fun n => (n ∉ removed) ∧ (predecessors_in n2i removed n = true))
             (dict_keys n2i))
  end.

(** [self._find_cycle() is not None].  CPython searches depth-first and
    returns one cycle; [prepare] only tests whether there is one, which
    is decided here by elimination: the graph has a cycle exactly when
    some node is never removed. *)
Definition _find_cycle (self : TopologicalSorter) : bool :=
  let n2i := _node2info self in
  negb (forallb (fun n => bool_decide (n ∈ eliminate (length n2i) n2i []))
          (dict_keys n2i)).

Definition TopologicalSorter_prepare : M TopologicalSorter unit :=
  fun self =>
    match _ready_nodes self with
    | Some _ => (Raise (ValueError "cannot prepare() more than once"), self)
    | None =>
        let self' :=
          {| _node2info := _node2info self;
             _ready_nodes :=
               Some (map node
                       (filter (fun i => npredecessors i = 0%Z)
                          (dict_values (_node2info self))));
             _npassedout := _npassedout self;
             _nfinished := _nfinished self |} in
        if _find_cycle self' then (Raise CycleError, self') else (Ok tt, self')
    end.

(** [n2i[node].npredecessors = n] *)
Definition assign_npredecessors (n : Z) (node : OutputKey)
  : M TopologicalSorter unit :=
  fun self =>
    match dict_get (_node2info self) node with
    | None => (Raise KeyError, self)
    | Some i =>
        (Ok tt, set_node2info
                  (dict_set (_node2info self) node (set_npredecessors n i)) self)
    end.

Definition TopologicalSorter_get_ready : M TopologicalSorter (list OutputKey) :=
  fun self =>
    match _ready_nodes self with
    | None => (Raise (ValueError "prepare() must be called first"), self)
    | Some ready =>
        let result := ready in
        match for_each result (assign_npredecessors _NODE_OUT) self with
        | (Raise e, self') => (Raise e, self')
        | (Ok _, self') =>
            (Ok result,
             {| _node2info := _node2info self';
                _ready_nodes := Some [];
                _npassedout := _npassedout self' + length result;
                _nfinished := _nfinished self' |})
        end
    end.

Definition TopologicalSorter_is_active : M TopologicalSorter bool :=
  fun self =>
    match _ready_nodes self with
    | None => (Raise (ValueError "prepare() must be called first"), self)
    | Some ready =>
        (Ok (bool_decide (_nfinished self < _npassedout self)
             || bool_decide (ready ≠ [])), self)
    end.

(** One turn of the loop over [nodeinfo.successors] in [done]. *)
Definition release (successor : OutputKey) : M TopologicalSorter unit :=
  fun self =>
    match dict_get (_node2info self) successor with
    | None => (Raise KeyError, self)
    | Some successor_info =>
        let n := (npredecessors successor_info - 1)%Z in
        (Ok tt,
         {| _node2info :=
              dict_set (_node2info self) successor
                (set_npredecessors n successor_info);
            _ready_nodes :=
              if bool_decide (n = 0%Z)
              then (fun r => r ++ [successor]) <$> _ready_nodes self
              else _ready_nodes self;
            _npassedout := _npassedout self;
            _nfinished := _nfinished self |})
    end.

(** [done(node)] for a single node, as [start_or_resume] calls it. *)
Definition TopologicalSorter_done (node : OutputKey) : M TopologicalSorter unit :=
  fun self =>
    match _ready_nodes self with
    | None => (Raise (ValueError "prepare() must be called first"), self)
    | Some _ =>
        match dict_get (_node2info self) node with
        | None => (Raise (ValueError "node was not added using add()"), self)
        | Some nodeinfo =>
            let stat := npredecessors nodeinfo in
            if bool_decide (stat ≠ _NODE_OUT) then
              if bool_decide (0 <= stat)%Z then
                (Raise (ValueError "node was not passed out (still not ready)"),
                 self)
              else if bool_decide (stat = _NODE_DONE) then
                (Raise (ValueError "node was already marked done"), self)
              else (Raise (UserException "AssertionError"), self)
            else
              (_ ← assign_npredecessors _NODE_DONE node;
               _ ← for_each (successors nodeinfo) release;
               modify (fun self =>
                 {| _node2info := _node2info self;
                    _ready_nodes := _ready_nodes self;
                    _npassedout := _npassedout self;
                    _nfinished := _nfinished self + 1 |})) self
        end
    end.

(** ** Plan ([__init__.py], lines 36-145) *)

Section Plan.
Context {X : Type} `{!Executor X}.

(** The class attributes that [PlanMeta.__new__] puts in the namespace
    of every Plan class; all instances of the class share them. *)
Record PlanClass := {
  __onward_operations__ : Registry;
  __onward_states__ : gmap OutputKey pyvalue;
  __onward_executor__ : X;
  __onward_operation_graph__ : TopologicalSorter
}.

(** Lines 50-53. *)
Definition PlanMeta_new (executor : X) : PlanClass :=
  {| __onward_operations__ := [];
     __onward_states__ := ∅;
     __onward_executor__ := executor;
     __onward_operation_graph__ := TopologicalSorter_new |}.

Definition on_graph {A} (m : M TopologicalSorter A) : M PlanClass A :=
  fun cls =>
    let r := m (__onward_operation_graph__ cls) in
    (r.1, {| __onward_operations__ := __onward_operations__ cls;
             __onward_states__ := __onward_states__ cls;
             __onward_executor__ := __onward_executor__ cls;
             __onward_operation_graph__ := r.2 |}).

Definition on_executor {A} (m : M X A) : M PlanClass A :=
  fun cls =>
    let r := m (__onward_executor__ cls) in
    (r.1, {| __onward_operations__ := __onward_operations__ cls;
             __onward_states__ := __onward_states__ cls;
             __onward_executor__ := r.2;
             __onward_operation_graph__ := __onward_operation_graph__ cls |}).

(** [self.__onward_states__[next_state] = next_result] *)
Definition set_state (next_state : OutputKey) (next_result : pyvalue)
  : M PlanClass unit :=
  modify (fun cls =>
    {| __onward_operations__ := __onward_operations__ cls;
       __onward_states__ := <[next_state := next_result]> (__onward_states__ cls);
       __onward_executor__ := __onward_executor__ cls;
       __onward_operation_graph__ := __onward_operation_graph__ cls |}).

(** [(dep for dep in operation.dependencies if issubclass(dep, State))] *)
Definition state_dependencies (operation : OperationType) : list OutputKey :=
  ByType <$> filter (fun dep => issubclass_State dep = true)
               (dependencies (fields operation)).

(** [Plan.__init__], lines 86-95; the settings part of the constructor
    is outside the model. *)
Definition Plan_init : M PlanClass unit :=
  fun cls =>
    (_ ← for_each (__onward_operations__ cls)
           (fun item =>
              on_graph (TopologicalSorter_add item.1 (state_dependencies item.2)));
     on_graph TopologicalSorter_prepare) cls.

Definition next_operation_group : M PlanClass (list OutputKey) :=
  on_graph TopologicalSorter_get_ready.

Definition get_state_value (cls : PlanClass) (state_type : pytype)
  : option pyvalue :=
  __onward_states__ cls !! ByType state_type.

Definition plan_active : M PlanClass bool :=
  on_graph TopologicalSorter_is_active.

(** What the loop does, for the record. *)
Inductive event :=
| Ready (nodes : list OutputKey)
| Dispatch (operation : OperationType)
| Recorded (next_state : OutputKey) (next_result : pyvalue)
| Done (next_state : OutputKey).

Record Run := { plan : PlanClass; events : list event }.

Definition on_plan {A} (m : M PlanClass A) : M Run A :=
  fun r =>
    let o := m (plan r) in
    (o.1, {| plan := o.2; events := events r |}).

Definition emit (es : list event) : M Run unit :=
  modify (fun r => {| plan := plan r; events := events r ++ es |}).

(** Lines 128-135. *)
Fixpoint resolve_args (states : gmap OutputKey pyvalue) (self : pyvalue)
    (dependencies : list pytype) : result (list pyvalue) :=
  match dependencies with
  | [] => Ok []
  | req_state :: rest =>
      arg ← (if issubclass_State req_state then
               match states !! ByType req_state with
               | Some v => Ok v
               | None => Raise KeyError
               end
             else Ok self);
      args ← resolve_args states self rest;
      Ok (arg :: args)
  end.

(** Lines 126-140: the loop over the ready nodes. *)
Fixpoint build_partials (cls : PlanClass) (self : pyvalue)
    (nodes : list OutputKey)
    (sync_partials : list (partial * OutputKey))
    (async_partials : list (coroutine * OutputKey))
  : result (list (partial * OutputKey) * list (coroutine * OutputKey)) :=
  match nodes with
  | [] => Ok (sync_partials, async_partials)
  | state :: nodes' =>
      operation ← dict_getitem (__onward_operations__ cls) state;
      args ← resolve_args (__onward_states__ cls) self
               (dependencies (fields operation));
      match operation with
      | AsyncOperation o =>
          c ← AsyncOperation_call o args;
          build_partials cls self nodes' sync_partials
            (async_partials ++ [(c, id o)])
      | SyncOperation o =>
          p ← SyncOperation_call o args;
          build_partials cls self nodes'
            (sync_partials ++ [(p, id o)]) async_partials
      end
  end.

(** Lines 112-121: nothing is ready, so wait for a completion. *)
Definition join_and_record : M Run unit :=
  '(next_result, next_state) ← on_plan (on_executor (join_next None));
  _ ← (if negb (is_str next_state) then
         if is_None next_result then
           r ← get;
           operation ← lift (dict_getitem (__onward_operations__ (plan r))
                               next_state);
           raise (InvalidOperationReturnError (op_name operation))
         else
           _ ← on_plan (set_state next_state next_result);
           emit [Recorded next_state next_result]
       else mret tt);
  _ ← on_plan (on_graph (TopologicalSorter_done next_state));
  emit [Done next_state].

(** Lines 123-145: hand the ready nodes to the executor. *)
Definition dispatch (self : pyvalue) (nodes : list OutputKey) : M Run unit :=
  r ← get;
  '(sync_partials, async_partials) ←
    lift (build_partials (plan r) self nodes [] []);
  _ ← emit ((fun p => Dispatch (SyncOperation (func p.1))) <$> sync_partials);
  _ ← on_plan (on_executor (add_operations sync_partials));
  if bool_decide (async_partials ≠ []) then
    _ ← emit ((fun c => Dispatch (AsyncOperation (cr_self c.1)))
                <$> async_partials);
    on_plan (on_executor (add_async_operations async_partials))
  else mret tt.

(** One turn of the [while] loop. *)
Definition loop_body (self : pyvalue) : M Run unit :=
  nodes ← on_plan next_operation_group;
  _ ← emit [Ready nodes];
  if bool_decide (nodes = []) then join_and_record
  else dispatch self nodes.

Inductive loop_exit := Completed | OutOfFuel.

(** [Plan.start_or_resume]; [fuel] bounds the number of turns. *)
Fixpoint start_or_resume (fuel : nat) (self : pyvalue) : M Run loop_exit :=
  match fuel with
  | 0 => mret OutOfFuel
  | S fuel' =>
      active ← on_plan plan_active;
      if active : bool then
        _ ← loop_body self;
        start_or_resume fuel' self
      else mret Completed
  end.
End Plan.

End Onward.

(** * Definitions used by the statements *)

Section Statements.
Context {W : Type}.

(** The results of [n] successive calls of [join_next] on the serial
    executor, and the state they leave. *)
Fixpoint join_all (n : nat) (x : @SynchronousExecutor W * W)
  : list (result (pyvalue * OutputKey)) * (SynchronousExecutor * W) :=
  match n with
  | 0 => ([], x)
  | S n' =>
      let r := SynchronousExecutor_join_next None x in
      let rs := join_all n' r.2 in
      (r.1 :: rs.1, rs.2)
  end.

(** Calling the partial objects of [ps] one after the other, first to last. *)
Fixpoint call_in_order (ps : list (@partial W)) (w : W)
  : list (result (pyvalue * OutputKey)) * W :=
  match ps with
  | [] => ([], w)
  | p :: ps' =>
      let r := call_partial p w in
      let rs := call_in_order ps' r.2 in
      (r.1 :: rs.1, rs.2)
  end.

End Statements.

Section RegistrationStatements.
Context {W : Type}.

(** What Python guarantees of every [def]: the names of its variables are
    pairwise distinct, and none of them is the keyword [return]. *)
Definition well_formed (func : @pyfunc W) : Prop :=
  NoDup (co_varnames func) /\ "return" ∉ co_varnames func.

(** What Python's grammar guarantees besides: the parameters are declared
    in the order of their kinds. *)
Definition grammatical (func : @pyfunc W) : Prop :=
  parameters func
  = of_kind POSITIONAL_ONLY func ++ of_kind POSITIONAL_OR_KEYWORD func
    ++ of_kind VAR_POSITIONAL func ++ of_kind KEYWORD_ONLY func
    ++ of_kind VAR_KEYWORD func.

(** The annotated parameters among [params], in order. *)
Definition annotated (params : list (string * option pytype))
  : list (string * pytype) :=
  omap (fun p => match p.2 with Some t => Some (p.1, t) | None => None end) params.

(** The five conditions under which the specification has registration
    fail with InvalidSignature. *)
Definition invalid_signature (func : @pyfunc W) : Prop :=
  return_annotation func = None
  \/ (exists t, return_annotation func = Some t
                /\ issubclass_State t = false /\ is_NoneType t = false)
  \/ parameters func = []
  \/ (exists n, (n, None) ∈ parameters func)
  \/ (exists n t, (n, Some t) ∈ parameters func
                  /\ issubclass_State t = false /\ issubclass_Plan t = false).

End RegistrationStatements.

Section RunStatements.
Context {W X : Type} `{!@Executor W X}.

Definition graph_of (r : @Run W X) : TopologicalSorter :=
  __onward_operation_graph__ (plan r).

Definition set_graph (g : TopologicalSorter) (r : @Run W X) : Run :=
  {| plan := {| __onward_operations__ := __onward_operations__ (plan r);
                __onward_states__ := __onward_states__ (plan r);
                __onward_executor__ := __onward_executor__ (plan r);
                __onward_operation_graph__ := g |};
     events := events r |}.

Definition set_executor (x : X) (r : @Run W X) : Run :=
  {| plan := {| __onward_operations__ := __onward_operations__ (plan r);
                __onward_states__ := __onward_states__ (plan r);
                __onward_executor__ := x;
                __onward_operation_graph__ := __onward_operation_graph__ (plan r) |};
     events := events r |}.

Definition set_states (s : gmap OutputKey pyvalue) (r : @Run W X) : Run :=
  {| plan := {| __onward_operations__ := __onward_operations__ (plan r);
                __onward_states__ := s;
                __onward_executor__ := __onward_executor__ (plan r);
                __onward_operation_graph__ := __onward_operation_graph__ (plan r) |};
     events := events r |}.

Definition add_events (es : list (@event W)) (r : @Run W X) : Run :=
  {| plan := plan r; events := events r ++ es |}.

(** The value recorded last for [k] in a trace, if any. *)
Fixpoint last_recorded (tr : list (@event W)) (k : OutputKey) : option pyvalue :=
  match tr with
  | [] => None
  | e :: tr' =>
      match last_recorded tr' k with
      | Some v => Some v
      | None =>
          match e with
          | Recorded k' v => if decide (k' = k) then Some v else None
          | _ => None
          end
      end
  end.

(** The node keys that the ready computation returned, in order. *)
Fixpoint surfaced (tr : list (@event W)) : list OutputKey :=
  match tr with
  | [] => []
  | Ready nodes :: tr' => nodes ++ surfaced tr'
  | _ :: tr' => surfaced tr'
  end.

(** The result mapping holds, for every key, the value recorded last in the
    trace, or what it held before the trace began. *)
Definition states_follow_trace (before : gmap OutputKey pyvalue)
    (r : @Run W X) : Prop :=
  forall k, __onward_states__ (plan r) !! k
            = match last_recorded (events r) k with
              | Some v => Some v
              | None => before !! k
              end.

End RunStatements.

(** ** Reading the sorter's bookkeeping *)

Definition occurrences (n : OutputKey) (l : list OutputKey) : nat :=
  length (filter (fun s => s = n) l).

(** How many times [n] is a successor of the node [i], unless [i] is done. *)
Definition contribution (n : OutputKey) (i : _NodeInfo) : nat :=
  if bool_decide (npredecessors i = _NODE_DONE) then 0
  else occurrences n (successors i).

Definition weigh (f : _NodeInfo -> nat) (n2i : list (OutputKey * _NodeInfo)) : nat :=
  sum_list (f <$> dict_values n2i).

(** The number of edges into [n] whose source is not done yet. *)
Definition pending (n2i : list (OutputKey * _NodeInfo)) (n : OutputKey) : nat :=
  weigh (contribution n) n2i.

Definition passed_out (i : _NodeInfo) : nat :=
  if bool_decide (npredecessors i = _NODE_OUT) then 1 else 0.

Definition has_edge (n2i : list (OutputKey * _NodeInfo)) (p s : OutputKey) : Prop :=
  exists i, dict_get n2i p = Some i /\ s ∈ successors i.

(** The graph is well formed, and [npredecessors] of a node that was not
    passed out yet counts its predecessors that are not done, edge by
    edge; a node that was passed out has none left.  While the graph is
    being built, [extra] edges into [target] are counted ahead of their
    insertion. *)
Definition graph_inv_ahead (target : OutputKey) (extra : nat)
    (n2i : list (OutputKey * _NodeInfo)) : Prop :=
  NoDup (dict_keys n2i)
  /\ (forall k i, dict_get n2i k = Some i -> node i = k)
  /\ (forall k i s, dict_get n2i k = Some i -> s ∈ successors i ->
                    s ∈ dict_keys n2i)
  /\ (forall k i, dict_get n2i k = Some i ->
        npredecessors i
        = Z.of_nat (pending n2i k + if decide (k = target) then extra else 0)
        \/ (pending n2i k = 0
            /\ (npredecessors i = _NODE_OUT \/ npredecessors i = _NODE_DONE))).

Definition graph_inv (n2i : list (OutputKey * _NodeInfo)) : Prop :=
  graph_inv_ahead (ByName "") 0 n2i.

(** The same with [ahead k] edges into each [k] counted ahead of the
    moment their source is accounted as done: the state inside the loop of
    [done]. *)
Definition graph_inv_with (ahead : OutputKey -> nat)
    (n2i : list (OutputKey * _NodeInfo)) : Prop :=
  NoDup (dict_keys n2i)
  /\ (forall k i, dict_get n2i k = Some i -> node i = k)
  /\ (forall k i s, dict_get n2i k = Some i -> s ∈ successors i ->
                    s ∈ dict_keys n2i)
  /\ (forall k i, dict_get n2i k = Some i ->
        npredecessors i = Z.of_nat (pending n2i k + ahead k)
        \/ (pending n2i k = 0 /\ ahead k = 0
            /\ (npredecessors i = _NODE_OUT \/ npredecessors i = _NODE_DONE))).

(** [_ready_nodes] lists, once each, the nodes whose count is zero. *)
Definition ready_inv (g : TopologicalSorter) : Prop :=
  exists ready,
    _ready_nodes g = Some ready
    /\ NoDup ready
    /\ forall n, n ∈ ready
                 <-> exists i, dict_get (_node2info g) n = Some i
                               /\ npredecessors i = 0%Z.

Definition sorter_inv (g : TopologicalSorter) : Prop :=
  graph_inv (_node2info g)
  /\ ready_inv g
  /\ _npassedout g = _nfinished g + weigh passed_out (_node2info g).

Definition same_edges (n2i n2i' : list (OutputKey * _NodeInfo)) : Prop :=
  dict_keys n2i = dict_keys n2i'
  /\ forall k, successors <$> dict_get n2i k = successors <$> dict_get n2i' k.

(** The record [_get_nodeinfo] creates for a node it has not seen. *)
Definition fresh_nodeinfo (n : OutputKey) : _NodeInfo :=
  {| node := n; npredecessors := 0; successors := [] |}.

(** The state of the graph while [add] calls are still being made: no
    node was passed out. *)
Definition building (target : OutputKey) (extra : nat)
    (n2i : list (OutputKey * _NodeInfo)) : Prop :=
  graph_inv_ahead target extra n2i
  /\ forall k i, dict_get n2i k = Some i -> (0 <= npredecessors i)%Z.

(** What [add(node, *predecessors)] does to [_node2info]. *)
Definition add_node2info (n : OutputKey) (predecessors : list OutputKey)
    (n2i : list (OutputKey * _NodeInfo)) : list (OutputKey * _NodeInfo) :=
  foldl (fun n2i pred => update_nodeinfo pred (append_successor n) n2i)
    (update_nodeinfo n
       (fun i => set_npredecessors
                   (npredecessors i + Z.of_nat (length predecessors)) i)
       n2i)
    predecessors.

Section BuildStatements.
Context {W : Type}.

(** What the loop of [Plan.__init__] does to [_node2info]. *)
Definition build_graph (registry : @Registry W)
    (n2i : list (OutputKey * _NodeInfo)) : list (OutputKey * _NodeInfo) :=
  foldl (fun n2i item => add_node2info item.1 (state_dependencies item.2) n2i)
    n2i registry.

End BuildStatements.

Section ClassStatements.
Context {W X : Type}.

(** The class with another graph in [__onward_operation_graph__]. *)
Definition with_graph (g : TopologicalSorter) (cls : @PlanClass W X) : PlanClass :=
  {| __onward_operations__ := __onward_operations__ cls;
     __onward_states__ := __onward_states__ cls;
     __onward_executor__ := __onward_executor__ cls;
     __onward_operation_graph__ := g |}.

(** What [prepare] leaves in the sorter, cycle or not. *)
Definition prepared (g : TopologicalSorter) : TopologicalSorter :=
  {| _node2info := _node2info g;
     _ready_nodes :=
       Some (map node (filter (fun i => npredecessors i = 0%Z)
                         (dict_values (_node2info g))));
     _npassedout := _npassedout g;
     _nfinished := _nfinished g |}.

End ClassStatements.

(** Where a node stands: 0 while it waits, [_NODE_OUT] once passed out,
    [_NODE_DONE] once done. *)
Definition status (n2i : list (OutputKey * _NodeInfo)) (k : OutputKey) : option Z :=
  (fun i => Z.min 0 (npredecessors i)) <$> dict_get n2i k.

Section RunInvariants.
Context {W X : Type} `{!@Executor W X}.

(** Every state-type dependency of [operation] was marked done, and had
    its value recorded, in the course of [tr]. *)
Definition dependencies_done (tr : list (@event W))
    (operation : @OperationType W) : Prop :=
  forall d, d ∈ dependencies (fields operation) ->
            issubclass_State d = true ->
            Done (ByType d) ∈ tr /\ exists v, Recorded (ByType d) v ∈ tr.

(** Whatever was dispatched had its dependencies done before. *)
Definition happens_before (tr : list (@event W)) : Prop :=
  forall before operation after,
    tr = before ++ Dispatch operation :: after ->
    dependencies_done before operation.

(** The graph [n2i0] has the edges that [registry] asks for. *)
Definition edges_of (registry : @Registry W)
    (n2i0 : list (OutputKey * _NodeInfo)) : Prop :=
  forall k op d, dict_get registry k = Some op ->
                 d ∈ dependencies (fields op) ->
                 issubclass_State d = true ->
                 has_edge n2i0 (ByType d) k.

(** What holds of the run between two turns of the loop. *)
Definition run_inv (registry : @Registry W)
    (n2i0 : list (OutputKey * _NodeInfo)) (r : @Run W X) : Prop :=
  sorter_inv (graph_of r)
  /\ same_edges n2i0 (_node2info (graph_of r))
  /\ __onward_operations__ (plan r) = registry
  /\ (forall k, status (_node2info (graph_of r)) k = Some _NODE_DONE ->
                Done k ∈ events r)
  /\ (forall k, Done k ∈ events r -> is_str k = false ->
                exists v, Recorded k v ∈ events r)
  /\ (forall k, k ∈ surfaced (events r)
                <-> exists z, status (_node2info (graph_of r)) k = Some z
                              /\ (z < 0)%Z)
  /\ NoDup (surfaced (events r))
  /\ happens_before (events r).

End RunInvariants.

Section AcyclicStatements.
Context {W : Type}.

(** The dependency graph of a registry has no cycle: its nodes can be
    ranked so that every state-type dependency of a descriptor ranks below
    the descriptor's key. *)
Definition acyclic (registry : @Registry W) : Prop :=
  exists rank : OutputKey -> nat,
    forall s op p, (s, op) ∈ registry -> p ∈ state_dependencies op ->
                   rank p < rank s.

End AcyclicStatements.

Section JoinStatements.
Context {W : Type}.

(** The results of [n] successive calls of [join_next] on the threaded
    executor, without timeout, and the state they leave. *)
Fixpoint ThreadedExecutor_join_all (n : nat) (x : @ThreadedExecutor W * nat)
  : list (result (pyvalue * OutputKey)) * (ThreadedExecutor * nat) :=
  match n with
  | 0 => ([], x)
  | S n' =>
      let r := ThreadedExecutor_join_next None x in
      let rs := ThreadedExecutor_join_all n' r.2 in
      (r.1 :: rs.1, rs.2)
  end.

(** Every task that ends well returns the key it is filed under, as the
    wrappers of the operations do. *)
Definition tasks_keyed (ts : list (OutputKey * Task)) : Prop :=
  forall k t v, (k, t) ∈ ts -> task_result t = Ok v -> v.2 = k.

(** The executor after [n] calls of [join_next], whatever they gave. *)
Fixpoint AsyncioExecutor_after (n : nat) (timeout : option nat)
    (x : @AsyncioExecutor W * nat) : AsyncioExecutor * nat :=
  match n with
  | 0 => x
  | S n' => AsyncioExecutor_after n' timeout (AsyncioExecutor_join_next timeout x).2
  end.

End JoinStatements.

(** ** How much of the run is left *)

(** A node that waits has two steps before it: to be passed out and to be
    marked done; a node that is out has one. *)
Definition cost (z : option Z) : nat :=
  if decide (z = Some 0%Z) then 2
  else if decide (z = Some _NODE_OUT) then 1 else 0.

Definition remaining (n2i : list (OutputKey * _NodeInfo)) : nat :=
  sum_list ((fun k => cost (status n2i k)) <$> dict_keys n2i).

(** The position of the first [k] in [l]; the length of [l] when there is
    none. *)
Fixpoint index_of (k : OutputKey) (l : list OutputKey) : nat :=
  match l with
  | [] => 0
  | x :: l' => if decide (x = k) then 0 else S (index_of k l')
  end.

Section DispatchStatements.
Context {W : Type}.

(** No async operation was handed to the executor in the course of [tr]. *)
Definition no_async_dispatch (tr : list (@event W)) : Prop :=
  forall o, Dispatch (AsyncOperation o) ∉ tr.

End DispatchStatements.

Section DispatchedStatements.
Context {W : Type}.

(** The operations handed to the executor in the course of [tr], in
    order. *)
Fixpoint dispatched (tr : list (@event W)) : list (@OperationType W) :=
  match tr with
  | [] => []
  | Dispatch operation :: tr' => operation :: dispatched tr'
  | _ :: tr' => dispatched tr'
  end.

(** [not isinstance(operation, AsyncOperation)] *)
Definition is_sync (operation : @OperationType W) : bool :=
  match operation with SyncOperation _ => true | AsyncOperation _ => false end.

End DispatchedStatements.

Section DispatchedInvariant.
Context {W X : Type} `{!@Executor W X}.

(** Between two turns, the operations dispatched so far are those of the
    nodes returned so far, each of which has one. *)
Definition dispatched_inv (registry : @Registry W) (r : @Run W X) : Prop :=
  __onward_operations__ (plan r) = registry
  /\ dispatched (events r) ≡ₚ omap (dict_get registry) (surfaced (events r))
  /\ forall k, k ∈ surfaced (events r) -> is_Some (dict_get registry k).

End DispatchedInvariant.

Section DecorateStatements.
Context {W : Type}.

(** The decorators of a module, applied from top to bottom. *)
Fixpoint decorate_all (funcs : list (@pyfunc W)) (plans : gmap string Registry)
  : result (gmap string Registry) :=
  match funcs with
  | [] => Ok plans
  | func :: funcs' => operation func plans ≫= decorate_all funcs'
  end.

(** The registry of [plan] is in order: no key twice; every operation
    under its own id; a type key is a state class; and the first dependency
    of every operation leads to [plan]. *)
Definition registry_keyed (plan : string) (registry : @Registry W) : Prop :=
  NoDup (dict_keys registry)
  /\ forall k op, (k, op) ∈ registry ->
       k = op_id op
       /\ (forall t, k = ByType t -> issubclass_State t = true)
       /\ exists first rest,
            dependencies (fields op) = first :: rest
            /\ plan_of_first_arg first = Ok plan.

End DecorateStatements.

Section ScheduleStatements.
Context {W : Type}.

(** On the serial executor, what is scheduled is what was passed out and
    is not finished. *)
Definition schedule_inv (r : @Run W (@SynchronousExecutor W * W)) : Prop :=
  length (schedule (__onward_executor__ (plan r)).1) + _nfinished (graph_of r)
  = _npassedout (graph_of r).

End ScheduleStatements.

(** * Example programs *)

(** The world of the examples is the log the operations of [main.py] print
    to (or the [tracker] list of [tests/test_order.py]). *)
Definition Log : Type := list string.

Definition AddUsers : pytype := PlanType "AddUsers".
Definition AddUsers_State : pytype := StateType "State" (Some "AddUsers").
Definition ParseFile : pytype := StateType "ParseFile" (Some "AddUsers").
Definition UploadResults : pytype := StateType "UploadResults" (Some "AddUsers").

Definition new (cls : pytype) (data : string) : pyvalue :=
  PyObj cls [AddUsers_State; StateType "State" None] data.

(** A function that prints its name and returns [out]. *)
Definition def (fname : string) (params : list (string * option pytype))
    (ret : option pytype) (locals : list string) (out : result pyvalue)
  : @pyfunc Log :=
  {| __name__ := fname; parameters := params;
     kind := fun _ => POSITIONAL_OR_KEYWORD; return_annotation := ret;
     local_variables := locals; iscoroutinefunction := false;
     __call__ := fun _ log => (out, log ++ [fname]) |}.

(** [main.py], lines 34-40 and 42-44. *)
Definition read_file : pyfunc :=
  def "read_file" [("plan", Some AddUsers)] (Some ParseFile) []
    (Ok (new ParseFile "percentage=.213")).

Definition log_file : pyfunc :=
  def "log_file" [("t", Some ParseFile)] (Some NoneType) [] (Ok PyNone).

(** [log_file] with [return t] as its last line: the annotation still says
    [None]. *)
Definition log_file_returning : pyfunc :=
  def "log_file" [("t", Some ParseFile)] (Some NoneType) []
    (Ok (new ParseFile "percentage=.213")).

Definition descriptor (func : @pyfunc Log) : Operation :=
  match make_operation func with
  | Ok (_, op) => fields op
  | Raise _ =>
      {| function := func; dependencies := []; provides := NoneType;
         hint_map := [] |}
  end.

(** A pool and a loop whose units all take ten ticks and yield what the
    call would yield on an empty log. *)
Definition slow_pool : @ThreadPoolExecutor Log :=
  {| submit := fun p => {| done_at := 10;
                           future_result := (call_partial p []).1 |};
     finished_order := fun _ _ => 0 |}.

Definition slow_loop (closed : bool) : @AbstractEventLoop Log :=
  {| is_closed := closed;
     create_task := fun a =>
       {| task_done_at := 10;
          task_result :=
            match a with
            | to_thread p | async_wrap p => (call_partial p []).1
            | native c =>
                (AsyncOperation_operation_wrapper (cr_self c) (cr_kwargs c) []).1
            end |};
     done_order := fun _ _ => 0 |}.

Definition read_file_partial : @partial Log :=
  {| func := descriptor read_file; keywords := [] |}.

Definition log_file_partial : @partial Log :=
  {| func := descriptor log_file; keywords := [] |}.

(** A threaded and a cooperative executor at instant 0, each with
    [read_file] submitted and nothing else. *)
Definition threaded_busy : @ThreadedExecutor Log * nat :=
  (ThreadedExecutor_add_operations [(read_file_partial, ByType ParseFile)]
     ({| pool := slow_pool; futures := [] |}, 0)).2.

Definition asyncio_busy : @AsyncioExecutor Log * nat :=
  (AsyncioExecutor_add_operations [(read_file_partial, ByType ParseFile)]
     ({| tasks := []; loop := slow_loop false; thread_sync := false |}, 0)).2.

(** A cooperative executor with nothing submitted whose loop was closed. *)
Definition asyncio_closed : @AsyncioExecutor Log * nat :=
  ({| tasks := []; loop := slow_loop true; thread_sync := false |}, 0).

(** [read_file] with its result held in a local variable first:
    [parsed = ParseFile(...); return parsed]. *)
Definition read_file_with_local : pyfunc :=
  def "read_file" [("plan", Some AddUsers)] (Some ParseFile) ["parsed"]
    (Ok (new ParseFile "percentage=.213")).

(** [main.py], lines 60-62. *)
Definition save_details : pyfunc :=
  def "save_details"
    [("results", Some ParseFile); ("uploaded", Some UploadResults);
     ("plan", Some AddUsers)]
    (Some NoneType) [] (Ok PyNone).

(** The registries once [read_file] and [log_file] are decorated. *)
Definition plans_of_main : gmap string (@Registry Log) :=
  match operation read_file ∅ ≫= operation log_file with
  | Ok plans => plans
  | Raise _ => ∅
  end.

(** The class [AddUsers] of [main.py] once [read_file] and [log_file] are
    decorated, with the default executor and no instance made yet. *)
Definition AddUsers_class : @PlanClass Log (@SynchronousExecutor Log * Log) :=
  {| __onward_operations__ := onward_operations plans_of_main "AddUsers";
     __onward_states__ := ∅;
     __onward_executor__ := ({| schedule := [] |}, []);
     __onward_operation_graph__ := TopologicalSorter_new |}.

(** The instance that is passed to the operations asking for the plan. *)
Definition AddUsers_instance : pyvalue := PyObj AddUsers [PlanType "Plan"] "plan".

(** The first instance of [AddUsers] and ten turns of its loop. *)
Definition AddUsers_run
  : result loop_exit * @Run Log (@SynchronousExecutor Log * Log) :=
  start_or_resume 10 AddUsers_instance
    {| plan := (Plan_init AddUsers_class).2; events := [] |}.

(** A second function called [log_file], this one returning a state that
    no operation provides yet. *)
Definition log_file_uploading : pyfunc :=
  def "log_file" [("plan", Some AddUsers)] (Some UploadResults) []
    (Ok (new UploadResults "uploaded")).

(** An instance of a subclass of [AddUsers]. *)
Definition BetaUsers_instance : pyvalue :=
  PyObj (PlanType "BetaUsers") [AddUsers; PlanType "Plan"] "plan".

(** An operation that raises, and a cooperative executor at instant 0 with
    it and [log_file] submitted. *)
Definition crash : pyfunc :=
  def "crash" [("plan", Some AddUsers)] (Some ParseFile) []
    (Raise (UserException "boom")).

Definition crash_partial : @partial Log :=
  {| func := descriptor crash; keywords := [("plan", AddUsers_instance)] |}.

Definition asyncio_crashed : @AsyncioExecutor Log * nat :=
  (AsyncioExecutor_add_operations
     [(crash_partial, ByType ParseFile); (log_file_partial, ByName "log_file")]
     ({| tasks := []; loop := slow_loop false; thread_sync := false |}, 0)).2.

(** The same executor on a loop that puts the second of the tasks already
    done first. *)
Definition asyncio_crashed_reordered : @AsyncioExecutor Log * nat :=
  ({| tasks := tasks asyncio_crashed.1;
      loop := {| is_closed := false;
                 create_task := create_task (slow_loop false);
                 done_order := fun _ _ => 1 |};
      thread_sync := false |}, 0).

(** Two operations that wait for each other's result, and their class. *)
Definition upload : pyfunc :=
  def "upload" [("parsed", Some ParseFile)] (Some UploadResults) []
    (Ok (new UploadResults "uploaded")).

Definition reparse : pyfunc :=
  def "reparse" [("uploaded", Some UploadResults)] (Some ParseFile) []
    (Ok (new ParseFile "percentage=.213")).

Definition Circular_class : @PlanClass Log (@SynchronousExecutor Log * Log) :=
  {| __onward_operations__ :=
       onward_operations
         (match operation upload ∅ ≫= operation reparse with
          | Ok plans => plans
          | Raise _ => ∅
          end) "AddUsers";
     __onward_states__ := ∅;
     __onward_executor__ := ({| schedule := [] |}, []);
     __onward_operation_graph__ := TopologicalSorter_new |}.

(** [AddUsers] with [read_file] and [save_details] decorated: nothing
    provides the [UploadResults] that [save_details] asks for. *)
Definition Unprovided_class : @PlanClass Log (@SynchronousExecutor Log * Log) :=
  {| __onward_operations__ :=
       onward_operations
         (match operation read_file ∅ ≫= operation save_details with
          | Ok plans => plans
          | Raise _ => ∅
          end) "AddUsers";
     __onward_states__ := ∅;
     __onward_executor__ := ({| schedule := [] |}, []);
     __onward_operation_graph__ := TopologicalSorter_new |}.

(** [async def fetch(plan: AddUsers) -> ParseFile], and [AddUsers] with
    [fetch] and [log_file] decorated, on the default executor. *)
Definition fetch : pyfunc :=
  {| __name__ := "fetch"; parameters := [("plan", Some AddUsers)];
     kind := fun _ => POSITIONAL_OR_KEYWORD;
     return_annotation := Some ParseFile; local_variables := [];
     iscoroutinefunction := true;
     __call__ := fun _ log => (Ok (new ParseFile "fetched"), log ++ ["fetch"]) |}.

Definition Fetching_class : @PlanClass Log (@SynchronousExecutor Log * Log) :=
  {| __onward_operations__ :=
       onward_operations
         (match operation fetch ∅ ≫= operation log_file with
          | Ok plans => plans
          | Raise _ => ∅
          end) "AddUsers";
     __onward_states__ := ∅;
     __onward_executor__ := ({| schedule := [] |}, []);
     __onward_operation_graph__ := TopologicalSorter_new |}.

(** [def compare(old: ParseFile, new: ParseFile, plan: AddUsers) -> None] *)
Definition compare : pyfunc :=
  def "compare"
    [("old", Some ParseFile); ("new", Some ParseFile); ("plan", Some AddUsers)]
    (Some NoneType) [] (Ok PyNone).

(** [def compare(old: ParseFile, /, new: ParseFile, plan: AddUsers) -> None].
    Called with keyword arguments only, as the wrappers call it, a function
    with a positional-only parameter raises TypeError before its body
    runs. *)
Definition compare_positional_only : @pyfunc Log :=
  {| __name__ := "compare";
     parameters := [("old", Some ParseFile); ("new", Some ParseFile);
                    ("plan", Some AddUsers)];
     kind := fun n => if String.eqb n "old" then POSITIONAL_ONLY
                      else POSITIONAL_OR_KEYWORD;
     return_annotation := Some NoneType; local_variables := [];
     iscoroutinefunction := false;
     __call__ := fun _ log => (Raise (UserException "TypeError"), log) |}.

(** [def audit(entry: Invoice, /, plan: AddUsers) -> None], where [Invoice]
    is a state type of another Plan class, [Billing]; and the same function
    declared without the [/]. *)
Definition Invoice : pytype := StateType "Invoice" (Some "Billing").

Definition audit : @pyfunc Log :=
  {| __name__ := "audit";
     parameters := [("entry", Some Invoice); ("plan", Some AddUsers)];
     kind := fun n => if String.eqb n "entry" then POSITIONAL_ONLY
                      else POSITIONAL_OR_KEYWORD;
     return_annotation := Some NoneType; local_variables := [];
     iscoroutinefunction := false;
     __call__ := fun _ log => (Raise (UserException "TypeError"), log) |}.

Definition audit_plain : pyfunc :=
  def "audit" [("entry", Some Invoice); ("plan", Some AddUsers)]
    (Some NoneType) [] (Ok PyNone).

(** * Properties *)

Section WrapperProperties.
Context {W : Type}.
Implicit Types (self : @Operation W) (kwargs : list (string * pyvalue)) (w : W).

(** ** The invocation wrapper *)

Lemma isinstance_None (c : pytype) : isinstance PyNone c = true -> c = NoneType.
Proof.
  unfold isinstance. intros H%bool_decide_eq_true.
  simpl in H. by apply list_elem_of_singleton in H.
Qed.

Lemma id_cases self :
  id self = if is_NoneType (provides self) then ByName (name self)
            else ByType (provides self).
Proof. unfold id. by destruct (is_NoneType (provides self)). Qed.

(** C4 (amended).  Both flavours of the wrapper compute the same thing.  An
    exception of the underlying function propagates.  When the declared
    output is "none" the wrapper returns whatever the function returned,
    unchecked, paired with the operation's name.  Otherwise a value that is
    not an instance of the declared output type (an absent value included)
    fails with InvalidOperationReturnError, and an instance is returned
    paired with the declared output type. *)
Theorem operation_wrapper_result self kwargs w :
  AsyncOperation_operation_wrapper self kwargs w
  = SyncOperation_operation_wrapper self kwargs w
  /\ SyncOperation_operation_wrapper self kwargs w
     = (match (__call__ (function self) kwargs w).1 with
        | Raise e => Raise e
        | Ok state_value =>
            if is_NoneType (provides self)
            then Ok (state_value, ByName (name self))
            else if isinstance state_value (provides self)
                 then Ok (state_value, ByType (provides self))
                 else Raise (InvalidOperationReturnError (name self))
        end, (__call__ (function self) kwargs w).2)
  /\ (is_NoneType (provides self) = false ->
      (__call__ (function self) kwargs w).1 = Ok PyNone ->
      (SyncOperation_operation_wrapper self kwargs w).1
      = Raise (InvalidOperationReturnError (name self))).
Proof.
  assert (Hspec : SyncOperation_operation_wrapper self kwargs w
     = (match (__call__ (function self) kwargs w).1 with
        | Raise e => Raise e
        | Ok state_value =>
            if is_NoneType (provides self)
            then Ok (state_value, ByName (name self))
            else if isinstance state_value (provides self)
                 then Ok (state_value, ByType (provides self))
                 else Raise (InvalidOperationReturnError (name self))
        end, (__call__ (function self) kwargs w).2)).
  { unfold SyncOperation_operation_wrapper, mbind, M_bind.
    destruct (__call__ (function self) kwargs w) as [[v|e] w']; simpl; [|done].
    rewrite id_cases.
    destruct (is_NoneType (provides self)) eqn:Hn; simpl; [done|].
    destruct (isinstance v (provides self)) eqn:Hi; simpl; [|done].
    destruct v; simpl; [|done].
    apply isinstance_None in Hi. rewrite Hi in Hn. done. }
  split; [reflexivity|]. split; [exact Hspec|].
  intros Hn Hcall. rewrite Hspec, Hcall, Hn. simpl.
  destruct (isinstance PyNone (provides self)) eqn:Hi; [|done].
  apply isinstance_None in Hi. rewrite Hi in Hn. done.
Qed.

End WrapperProperties.

(** C4, as stated, fails: [log_file_returning] declares no output, yet its
    wrapper hands back the object the function returned. *)
Lemma operation_wrapper_none_counterexample :
  provides (descriptor log_file_returning) = NoneType
  /\ (SyncOperation_operation_wrapper (descriptor log_file_returning) [] []).1
     = Ok (new ParseFile "percentage=.213", ByName "log_file")
  /\ (SyncOperation_operation_wrapper (descriptor log_file_returning) [] []).1
     <> Ok (PyNone, ByName "log_file").
Proof. repeat split; try reflexivity. discriminate. Qed.

Lemma operation_wrapper_result_witness :
  (SyncOperation_operation_wrapper
     (descriptor (def "read_file" [("plan", Some AddUsers)] (Some ParseFile) []
                    (Ok PyNone))) [] []).1
  = Raise (InvalidOperationReturnError "read_file").
Proof.
  apply (operation_wrapper_result
           (descriptor (def "read_file" [("plan", Some AddUsers)]
                          (Some ParseFile) [] (Ok PyNone))) [] []);
    reflexivity.
Defined.

(** ** Executors *)

Section Completion.
Context {A : Type} (when : A -> nat).

Lemma first_completed_None (fs : list A) :
  first_completed when fs = None -> fs = [].
Proof.
  destruct fs as [|f fs]; [done|]. simpl.
  destruct (first_completed when fs) as [[j g]|]; [|done].
  by case_bool_decide.
Qed.

Lemma first_completed_Some (fs : list A) i f :
  first_completed when fs = Some (i, f) ->
  fs !! i = Some f /\ Forall (fun g => when f <= when g) fs.
Proof.
  revert i f. induction fs as [|f0 fs IH]; intros i f; [done|]. simpl.
  destruct (first_completed when fs) as [[j g]|] eqn:Hfs.
  - destruct (IH j g eq_refl) as [Hj Hall].
    case_bool_decide as Hlt; intros [= <- <-].
    + split; [done|]. constructor; [lia|done].
    + split; [done|]. constructor; [done|].
      eapply Forall_impl; [exact Hall|]. simpl. intros; lia.
  - apply first_completed_None in Hfs as ->. intros [= <- <-].
    split; [done|]. by repeat constructor.
Qed.

Lemma first_completed_pending (fs : list A) i f now :
  first_completed when fs = Some (i, f) -> now < when f ->
  Forall (fun g => now < when g) fs.
Proof.
  intros [_ Hall]%first_completed_Some Hlt.
  eapply Forall_impl; [exact Hall|]. simpl. intros; lia.
Qed.

Lemma finished_elem now (fs : list A) i f :
  (i, f) ∈ finished when now fs <-> fs !! i = Some f /\ when f <= now.
Proof.
  unfold finished. rewrite list_elem_of_filter, elem_of_lookup_imap. simpl.
  split.
  - by intros [Hle (j & g & [= -> ->] & Hl)].
  - intros [Hl Hle]. split; [done|]. by exists i, f.
Qed.

Lemma finished_nil now (fs : list A) :
  Forall (fun g => now < when g) fs -> finished when now fs = [].
Proof.
  intros Hall. apply elem_of_nil_inv. intros [i f] [Hl Hle]%finished_elem.
  rewrite Forall_forall in Hall. apply list_elem_of_lookup_2 in Hl.
  specialize (Hall f Hl). simpl in Hall. lia.
Qed.

(** With nothing finished yet, the wait ends with the first completion. *)
Lemma next_completed_first order now (fs : list A) :
  Forall (fun g => now < when g) fs ->
  next_completed when order now fs = first_completed when fs.
Proof. intros Hall. unfold next_completed. by rewrite finished_nil. Qed.

Lemma next_completed_cases order now (fs : list A) :
  next_completed when order now fs = first_completed when fs
  \/ exists i f, next_completed when order now fs = Some (i, f)
                 /\ fs !! i = Some f /\ when f <= now.
Proof.
  unfold next_completed.
  destruct (finished when now fs) as [|d ds] eqn:Hfin; [by left|]. right.
  assert (Hc : default d ((d :: ds) !! order) ∈ finished when now fs).
  { rewrite Hfin. destruct ((d :: ds) !! order) as [c|] eqn:Hl; simpl.
    - by eapply list_elem_of_lookup_2.
    - left. }
  destruct (default d ((d :: ds) !! order)) as [i f].
  apply finished_elem in Hc. by exists i, f.
Qed.

Lemma next_completed_Some order now (fs : list A) i f :
  next_completed when order now fs = Some (i, f) -> fs !! i = Some f.
Proof.
  destruct (next_completed_cases order now fs) as [->|(j & g & -> & Hl & _)].
  - by intros [? _]%first_completed_Some.
  - by intros [= <- <-].
Qed.

End Completion.

Section ExecutorProperties.
Context {W : Type}.

Lemma list_pop_snoc {A} (l : list A) (x : A) : list_pop (l ++ [x]) = Some (x, l).
Proof.
  induction l as [|y l IH]; simpl; [done|]. by rewrite IH.
Qed.

Lemma SynchronousExecutor_join_next_snoc timeout (s : list (@partial W))
    (p : partial) (w : W) :
  SynchronousExecutor_join_next timeout ({| schedule := s ++ [p] |}, w)
  = ((call_partial p w).1, ({| schedule := s |}, (call_partial p w).2)).
Proof.
  unfold SynchronousExecutor_join_next, SynchronousExecutor_running. simpl.
  rewrite bool_decide_eq_true_2 by (rewrite length_app; simpl; lia).
  simpl. by rewrite list_pop_snoc.
Qed.

Lemma join_all_schedule (s : list (@partial W)) (w : W) :
  join_all (length s) ({| schedule := s |}, w)
  = ((call_in_order (reverse s) w).1,
     ({| schedule := [] |}, (call_in_order (reverse s) w).2)).
Proof.
  revert w. induction s as [|p s IH] using rev_ind; intros w; [done|].
  rewrite length_app, Nat.add_1_r, reverse_snoc. simpl.
  rewrite SynchronousExecutor_join_next_snoc. simpl.
  by rewrite IH.
Qed.

(** C6.  The serial executor keeps its units in a stack: [add_operations]
    pushes the batch, in order, on top of what is already scheduled; every
    [join_next] pops the unit submitted last, calls it there and then and
    returns what the call returned; joining everything runs the units in
    the reverse of their submission order, and so do three units submitted
    as one batch. *)
Theorem SynchronousExecutor_lifo :
  (forall (operations : list (@partial W * OutputKey)) s w,
      SynchronousExecutor_add_operations operations ({| schedule := s |}, w)
      = (Ok tt, ({| schedule := s ++ operations.*1 |}, w)))
  /\ (forall timeout s (p : @partial W) w,
      SynchronousExecutor_join_next timeout ({| schedule := s ++ [p] |}, w)
      = ((call_partial p w).1, ({| schedule := s |}, (call_partial p w).2)))
  /\ (forall (s : list (@partial W)) w,
      join_all (length s) ({| schedule := s |}, w)
      = ((call_in_order (reverse s) w).1,
         ({| schedule := [] |}, (call_in_order (reverse s) w).2)))
  /\ (forall (p1 p2 p3 : @partial W) k1 k2 k3 w,
      join_all 3
        (SynchronousExecutor_add_operations [(p1, k1); (p2, k2); (p3, k3)]
           ({| schedule := [] |}, w)).2
      = ((call_in_order [p3; p2; p1] w).1,
         ({| schedule := [] |}, (call_in_order [p3; p2; p1] w).2))).
Proof.
  split; [done|]. split; [apply SynchronousExecutor_join_next_snoc|].
  split; [apply join_all_schedule|].
  intros. apply (join_all_schedule [p1; p2; p3]).
Qed.

(** C5 (amended).  With nothing in flight, [join_next] of the serial and of
    the threaded executor raises NotRunningError and leaves the executor as
    it was; the cooperative executor does so as long as its loop is not
    closed. *)
Theorem join_next_not_running :
  (forall timeout (x : @SynchronousExecutor W * W),
      schedule x.1 = [] ->
      SynchronousExecutor_join_next timeout x = (Raise NotRunningError, x))
  /\ (forall timeout (x : @ThreadedExecutor W * nat),
      futures x.1 = [] ->
      ThreadedExecutor_join_next timeout x = (Raise NotRunningError, x))
  /\ (forall timeout (x : @AsyncioExecutor W * nat),
      tasks x.1 = [] -> is_closed (loop x.1) = false ->
      AsyncioExecutor_join_next timeout x = (Raise NotRunningError, x)).
Proof.
  repeat split.
  - intros timeout x Hs. unfold SynchronousExecutor_join_next,
      SynchronousExecutor_running. by rewrite Hs.
  - intros timeout x Hf. unfold ThreadedExecutor_join_next,
      ThreadedExecutor_running. by rewrite Hf.
  - intros timeout x Ht Hc. unfold AsyncioExecutor_join_next,
      AsyncioExecutor_running. by rewrite Ht, Hc.
Qed.

(** The cooperative executor never looks at [timeout]. *)
Lemma AsyncioExecutor_join_next_timeout timeout (x : @AsyncioExecutor W * nat) :
  AsyncioExecutor_join_next timeout x = AsyncioExecutor_join_next None x.
Proof. reflexivity. Qed.

(** The threaded executor does: when the first future to finish is later
    than the window, TimeoutError comes out and the futures stay. *)
Lemma ThreadedExecutor_join_next_expiry t (x : @ThreadedExecutor W * nat) i f :
  first_completed done_at (futures x.1) = Some (i, f) ->
  x.2 + t < done_at f ->
  ThreadedExecutor_join_next (Some t) x = (Raise TimeoutError, (x.1, x.2 + t)).
Proof.
  intros Hf Hlt. unfold ThreadedExecutor_join_next, ThreadedExecutor_running.
  rewrite bool_decide_eq_true_2
    by (destruct (futures x.1); [done | simpl; lia]).
  simpl. unfold next_as_completed.
  rewrite next_completed_first, Hf
    by (apply (first_completed_pending _ _ i f); [done|lia]).
  by rewrite bool_decide_eq_true_2.
Qed.

End ExecutorProperties.

Lemma join_next_not_running_witness :
  SynchronousExecutor_join_next None (({| schedule := [] |}, []) : _ * Log)
  = (Raise NotRunningError, ({| schedule := [] |}, []))
  /\ ThreadedExecutor_join_next None ({| pool := slow_pool; futures := [] |}, 0)
     = (Raise NotRunningError, ({| pool := slow_pool; futures := [] |}, 0))
  /\ AsyncioExecutor_join_next None
       ({| tasks := []; loop := slow_loop false; thread_sync := false |}, 0)
     = (Raise NotRunningError,
        ({| tasks := []; loop := slow_loop false; thread_sync := false |}, 0)).
Proof.
  split; [|split].
  - apply (proj1 join_next_not_running). reflexivity.
  - apply (proj1 (proj2 join_next_not_running)). reflexivity.
  - apply (proj2 (proj2 join_next_not_running)); reflexivity.
Defined.

(** C5, as stated, fails for the cooperative executor: its [running] is
    also true when the loop is closed, so with no task and a closed loop
    [join_next] passes the guard and ends in StopIteration. *)
Lemma join_next_closed_loop_counterexample :
  tasks asyncio_closed.1 = []
  /\ (AsyncioExecutor_join_next None asyncio_closed).1 = Raise StopIteration
  /\ (AsyncioExecutor_join_next None asyncio_closed).1 <> Raise NotRunningError.
Proof. repeat split; try reflexivity. discriminate. Qed.

(** C7 fails on the code: [read_file] needs ten ticks, the caller allows
    one; the cooperative executor waits the ten ticks, returns the result
    and drops the task, where the threaded executor raises TimeoutError
    after one tick and keeps its future. *)
Theorem AsyncioExecutor_join_next_ignores_timeout :
  AsyncioExecutor_join_next (Some 1) asyncio_busy
  = (Ok (new ParseFile "percentage=.213", ByType ParseFile),
     ({| tasks := []; loop := slow_loop false; thread_sync := false |}, 10))
  /\ ThreadedExecutor_join_next (Some 1) threaded_busy
     = (Raise TimeoutError, (threaded_busy.1, 1)).
Proof. split; reflexivity. Qed.

(** ** Registration *)

Section DictFacts.
Context {K V : Type} `{EqDecision K}.
Implicit Types (d : list (K * V)) (k : K) (v : V).

Lemma dict_get_Some_elem d k v : dict_get d k = Some v -> (k, v) ∈ d.
Proof.
  induction d as [|[k' v'] d IH]; simpl; [done|].
  case_decide; intros Hg.
  - simplify_eq. apply list_elem_of_here.
  - apply list_elem_of_further. auto.
Qed.

Lemma dict_get_None_keys d k : dict_get d k = None <-> k ∉ dict_keys d.
Proof.
  unfold dict_keys. induction d as [|[k' v'] d IH]; simpl.
  - split; [intros _; apply not_elem_of_nil | done].
  - rewrite not_elem_of_cons. case_decide; subst.
    + split; [done|]. intros [? _]. congruence.
    + rewrite IH. split; [intros; split; [congruence|done]|]. by intros [_ ?].
Qed.

Lemma dict_contains_keys d k : dict_contains d k = true <-> k ∈ dict_keys d.
Proof.
  unfold dict_contains. destruct (dict_get d k) eqn:Hg.
  - split; [intros _|done]. apply dict_get_Some_elem in Hg.
    unfold dict_keys. apply list_elem_of_fmap. by exists (k, v).
  - apply dict_get_None_keys in Hg. split; [done|]. intros. contradiction.
Qed.

Lemma dict_get_app d1 d2 k :
  dict_get (d1 ++ d2) k
  = match dict_get d1 k with Some v => Some v | None => dict_get d2 k end.
Proof.
  induction d1 as [|[k' v'] d1 IH]; simpl; [done|]. by case_decide.
Qed.

Lemma dict_pop_notin d k : k ∉ dict_keys d -> dict_pop d k = d.
Proof.
  unfold dict_keys. induction d as [|[k' v'] d IH]; simpl; [done|].
  rewrite not_elem_of_cons. intros [Hne Hd]. case_decide; [congruence|].
  by rewrite IH.
Qed.

Lemma dict_pop_app_last d k v : k ∉ dict_keys d -> dict_pop (d ++ [(k, v)]) k = d.
Proof.
  unfold dict_keys. induction d as [|[k' v'] d IH]; simpl.
  - intros _. by case_decide.
  - rewrite not_elem_of_cons. intros [Hne Hd]. case_decide; [congruence|].
    by rewrite IH.
Qed.

Lemma dict_get_set d k v k' :
  dict_get (dict_set d k v) k' = if decide (k = k') then Some v else dict_get d k'.
Proof.
  induction d as [|[k0 v0] d IH]; simpl.
  - by repeat case_decide.
  - repeat (case_decide; simpl; subst); congruence.
Qed.

Lemma dict_keys_set_in d k v : k ∈ dict_keys d -> dict_keys (dict_set d k v) = dict_keys d.
Proof.
  unfold dict_keys. induction d as [|[k0 v0] d IH]; simpl.
  - intros H'. by apply elem_of_nil in H'.
  - intros Hin. case_decide; simpl; [done|]. f_equal. apply IH.
    apply elem_of_cons in Hin as [?|?]; [congruence|done].
Qed.

Lemma dict_keys_set_notin d k v :
  k ∉ dict_keys d -> dict_set d k v = d ++ [(k, v)].
Proof.
  unfold dict_keys. induction d as [|[k0 v0] d IH]; simpl; [done|].
  rewrite not_elem_of_cons. intros [Hne Hd]. case_decide; [congruence|].
  by rewrite IH.
Qed.
End DictFacts.

Section RegistrationProperties.
Context {W : Type}.
Implicit Types (func : @pyfunc W) (params : list (string * option pytype)).

Lemma annotated_keys params n :
  n ∈ dict_keys (annotated params) -> n ∈ params.*1.
Proof.
  unfold dict_keys, annotated. intros Hin.
  apply list_elem_of_fmap in Hin as [[n' t] [-> Hin]].
  apply list_elem_of_omap in Hin as [[m a] [Hin Hsome]].
  destruct a; simpl in Hsome; simplify_eq.
  apply list_elem_of_fmap. by exists (n', Some t).
Qed.

Lemma all_annotated params :
  NoDup params.*1 ->
  (forall n, n ∈ params.*1 -> n ∈ dict_keys (annotated params)) ->
  params = (fun e => (e.1, Some e.2)) <$> annotated params.
Proof.
  induction params as [|[n a] ps IH]; simpl; [done|].
  intros Hnd Hall. apply NoDup_cons in Hnd as [Hn Hnd].
  destruct a as [t|]; simpl.
  - f_equal. apply IH; [done|]. intros m Hm.
    specialize (Hall m (list_elem_of_further _ _ _ Hm)).
    unfold annotated in Hall. simpl in Hall. unfold dict_keys in *.
    simpl in Hall. apply elem_of_cons in Hall as [->|]; [done|done].
  - exfalso. apply Hn. apply annotated_keys. apply Hall. apply list_elem_of_here.
Qed.

Lemma of_kind_elem k func p :
  p ∈ of_kind k func <-> p ∈ parameters func /\ kind func p.1 = k.
Proof. unfold of_kind. rewrite list_elem_of_filter. tauto. Qed.

Lemma annotation_order_elem func p :
  p ∈ annotation_order func <-> p ∈ parameters func.
Proof.
  unfold annotation_order. rewrite !elem_of_app, !of_kind_elem.
  split; [tauto|]. intros Hp. destruct (kind func p.1); auto 10.
Qed.

(** The annotations and the variable names list the same parameters. *)
Lemma annotation_code_Permutation func :
  annotation_order func ≡ₚ code_order func.
Proof.
  unfold annotation_order, code_order.
  rewrite (Permutation_app_swap_app (of_kind POSITIONAL_OR_KEYWORD func)).
  do 2 f_equiv. apply Permutation_app_swap_app.
Qed.

(** Without positional-only parameters, the annotations come in the order
    of the [def]. *)
Lemma annotation_order_grammatical func :
  grammatical func -> of_kind POSITIONAL_ONLY func = [] ->
  annotation_order func = parameters func.
Proof.
  unfold grammatical, annotation_order. intros Hg Hpo.
  rewrite Hpo in Hg |- *. simpl in Hg. by rewrite app_nil_l.
Qed.

Lemma co_varnames_elem func n :
  n ∈ co_varnames func
  <-> n ∈ (annotation_order func).*1 \/ n ∈ local_variables func.
Proof.
  unfold co_varnames. by rewrite elem_of_app, (annotation_code_Permutation func).
Qed.

Lemma annotation_order_NoDup func :
  NoDup (co_varnames func) -> NoDup (annotation_order func).*1.
Proof.
  unfold co_varnames. intros [Hnd _]%NoDup_app.
  by rewrite (annotation_code_Permutation func).
Qed.

Lemma get_type_hints_return func :
  "return" ∉ co_varnames func ->
  dict_get (get_type_hints func) "return" = return_annotation func
  /\ dict_pop (get_type_hints func) "return"
     = annotated (annotation_order func).
Proof.
  intros Hr. unfold get_type_hints. fold (annotated (annotation_order func)).
  assert (Hk : "return" ∉ dict_keys (annotated (annotation_order func))).
  { intros Hin. apply Hr, co_varnames_elem. left. by apply annotated_keys. }
  split.
  - rewrite dict_get_app. apply dict_get_None_keys in Hk. rewrite Hk.
    destruct (return_annotation func); [|done]. reflexivity.
  - destruct (return_annotation func).
    + by apply dict_pop_app_last.
    + rewrite app_nil_r. by apply dict_pop_notin.
Qed.

Lemma collect_depends_Ok func hints depends hint_map depends' hint_map' :
  collect_depends func hints depends hint_map = Ok (depends', hint_map') ->
  depends' = depends ++ hints.*2
  /\ Forall (fun t => issubclass_State t || issubclass_Plan t = true) hints.*2.
Proof.
  revert depends hint_map.
  induction hints as [|[n t] hints IH]; simpl; intros depends hint_map Hc.
  - simplify_eq. by rewrite app_nil_r.
  - destruct (negb (issubclass_State t) && negb (issubclass_Plan t)) eqn:Hb;
      [done|].
    apply IH in Hc as [-> Hall]. rewrite <- app_assoc. split; [done|].
    constructor; [|done].
    destruct (issubclass_State t), (issubclass_Plan t); done.
Qed.

Lemma collect_depends_Raise func hints depends hint_map e :
  collect_depends func hints depends hint_map = Raise e ->
  exists n t, (n, t) ∈ hints
              /\ issubclass_State t = false /\ issubclass_Plan t = false
              /\ e = InvalidOperationSignatureError (__name__ func)
                       (InvalidArguementType n t).
Proof.
  revert depends hint_map.
  induction hints as [|[n t] hints IH]; simpl; intros depends hint_map Hc;
    [done|].
  destruct (negb (issubclass_State t) && negb (issubclass_Plan t)) eqn:Hb.
  - simplify_eq. exists n, t. split; [apply list_elem_of_here|].
    apply andb_true_iff in Hb as [?%negb_true_iff ?%negb_true_iff]. done.
  - apply IH in Hc as (n' & t' & Hin & ?). exists n', t'.
    split; [by apply list_elem_of_further|done].
Qed.

Lemma collect_depends_total func hints depends hint_map :
  Forall (fun t => issubclass_State t || issubclass_Plan t = true) hints.*2 ->
  exists hint_map',
    collect_depends func hints depends hint_map
    = Ok (depends ++ hints.*2, hint_map').
Proof.
  revert depends hint_map.
  induction hints as [|[n t] hints IH]; simpl; intros depends hint_map Hall.
  - exists hint_map. by rewrite app_nil_r.
  - apply Forall_cons in Hall as [Ht Hall].
    replace (negb (issubclass_State t) && negb (issubclass_Plan t)) with false
      by (destruct (issubclass_State t), (issubclass_Plan t); done).
    destruct (IH (depends ++ [t]) (dict_set hint_map t n) Hall) as [hm ->].
    exists hm. by rewrite <- app_assoc.
Qed.

(** What a successful validation says about the function. *)
Lemma make_operation_Ok func plan op :
  well_formed func ->
  make_operation func = Ok (plan, op) ->
  exists provides' first rest,
    return_annotation func = Some provides'
    /\ local_variables func = []
    /\ annotation_order func
       = (fun e => (e.1, Some e.2)) <$> annotated (annotation_order func)
    /\ (annotated (annotation_order func)).*2 = first :: rest
    /\ dependencies (fields op) = first :: rest
    /\ plan_of_first_arg first = Ok plan
    /\ provides (fields op) = provides'
    /\ function (fields op) = func.
Proof.
  intros [Hnd Hret] Hm. unfold make_operation in Hm.
  destruct (get_type_hints_return func Hret) as [Hg Hp].
  rewrite Hg, Hp in Hm.
  destruct (return_annotation func) as [r|] eqn:Hr; simpl in Hm; [|done].
  destruct (negb (issubclass_State r) && negb (is_NoneType r)); simpl in Hm;
    [done|].
  case_bool_decide; [done|].
  destruct (forallb _ (co_varnames func)) eqn:Hall; simpl in Hm; [|done].
  assert (Hin : forall n, n ∈ co_varnames func ->
                          n ∈ dict_keys (annotated (annotation_order func))).
  { intros n Hn. apply dict_contains_keys.
    rewrite forallb_forall in Hall. apply Hall. by apply list_elem_of_In. }
  pose proof (annotation_order_NoDup func Hnd) as Hndp.
  assert (Hloc : local_variables func = []).
  { destruct (local_variables func) as [|l ls] eqn:Hl; [done|]. exfalso.
    assert (Hl1 : l ∈ (annotation_order func).*1).
    { apply annotated_keys, Hin, co_varnames_elem. right. rewrite Hl. left. }
    unfold co_varnames in Hnd. apply NoDup_app in Hnd as (_ & Hdisj & _).
    apply (Hdisj l); [by rewrite <- (annotation_code_Permutation func)|].
    rewrite Hl. left. }
  destruct (collect_depends func (annotated (annotation_order func)) [] [])
    as [[depends hm]|e] eqn:Hc; simpl in Hm; [|done].
  apply collect_depends_Ok in Hc as [-> _]. simpl in Hm.
  destruct ((annotated (annotation_order func)).*2) as [|first rest] eqn:Hd;
    simpl in Hm; [done|].
  destruct (plan_of_first_arg first) as [p|] eqn:Hplan; simpl in Hm; [|done].
  exists r, first, rest. simplify_eq.
  split; [done|]. split; [done|].
  split.
  { apply all_annotated; [done|]. intros n Hn. apply Hin, co_varnames_elem.
    by left. }
  split; [done|].
  by destruct (iscoroutinefunction func).
Qed.

(** C3.  When validation has derived the descriptor and its key is already
    in the registry of the owning Plan, registration raises
    TooManyProvidersError and no registry is changed; the message names the
    operation registered under that key, and says "same State" when the
    declared output type is the key and "same function name" otherwise. *)
Theorem operation_duplicate_provider func plans plan op :
  make_operation func = Ok (plan, op) ->
  dict_contains (onward_operations plans plan) (op_id op) = true ->
  exists other_op,
    dict_get (onward_operations plans plan) (op_id op) = Some other_op
    /\ operation func plans
       = Raise (TooManyProvidersError (__name__ func)
                  (if dict_contains (onward_operations plans plan)
                        (ByType (provides (fields op)))
                   then SameState (op_name other_op)
                   else SameFunctionName (op_name other_op))).
Proof.
  intros Hm Hin. unfold operation. rewrite Hm. simpl.
  unfold insert_operation.
  unfold dict_contains in Hin.
  destruct (dict_get (onward_operations plans plan) (op_id op))
    as [other_op|] eqn:Hother; [|done].
  exists other_op. split; [done|].
  assert (Hcond : dict_contains (onward_operations plans plan)
                    (ByType (provides (fields op)))
                  || dict_contains (onward_operations plans plan)
                       (ByName (op_name op)) = true).
  { unfold op_id, id in Hother. apply orb_true_iff.
    destruct (negb (is_NoneType (provides (fields op)))).
    - left. unfold dict_contains. by rewrite Hother.
    - right. unfold dict_contains, op_name. by rewrite Hother. }
  rewrite Hcond. unfold dict_getitem. rewrite Hother. simpl.
  by destruct (dict_contains _ (ByType _)).
Qed.

(** X20.  When registration succeeds, the first entry of the function's
    type hints is an annotated parameter, and the registry that receives
    the descriptor is the one of the Plan class read off that annotation
    alone: the annotation's own class when it is a Plan class, its
    [__onward_plan__] when it is a state type.  No other registry changes.
    For a function without positional-only parameters that entry is the
    first declared parameter. *)
Theorem operation_owning_plan func plans plans' :
  well_formed func ->
  operation func plans = Ok plans' ->
  exists arg first_arg rest plan op,
    annotation_order func = (arg, Some first_arg) :: rest
    /\ (grammatical func -> of_kind POSITIONAL_ONLY func = [] ->
        parameters func = (arg, Some first_arg) :: rest)
    /\ plan_of_first_arg first_arg = Ok plan
    /\ (first_arg = PlanType plan
        \/ exists cls_name, first_arg = StateType cls_name (Some plan))
    /\ make_operation func = Ok (plan, op)
    /\ plans' = <[plan := dict_set (onward_operations plans plan) (op_id op) op]>
                  plans.
Proof.
  intros Hwf Hop. unfold operation in Hop.
  destruct (make_operation func) as [[plan op]|e] eqn:Hm; simpl in Hop; [|done].
  destruct (make_operation_Ok _ _ _ Hwf Hm)
    as (r & first & rest & _ & _ & Hparams & Hann & _ & Hplan & _ & _).
  destruct (annotated (annotation_order func)) as [|[arg t] hints] eqn:Ha;
    [done|]. simpl in Hann. simplify_eq.
  exists arg, first, ((fun e => (e.1, Some e.2)) <$> hints), plan, op.
  split; [by rewrite Hparams|].
  split.
  { intros Hg Hpo. by rewrite <- (annotation_order_grammatical func Hg Hpo). }
  split; [done|].
  split.
  { unfold plan_of_first_arg in Hplan.
    destruct first as [|p|s [p|]|c]; simpl in Hplan; simplify_eq;
      [by left | right; by eexists]. }
  split; [done|].
  unfold insert_operation in Hop.
  destruct (dict_contains _ _ || dict_contains _ _).
  - destruct (dict_getitem _ _); simpl in Hop; [|done].
    by destruct (dict_contains _ _).
  - by simplify_eq.
Qed.

End RegistrationProperties.

Section SignatureProperties.
Context {W : Type}.
Implicit Types (func : @pyfunc W).

Lemma annotated_elem params n t :
  (n, t) ∈ annotated params <-> (n, Some t) ∈ params.
Proof.
  unfold annotated. rewrite list_elem_of_omap. split.
  - intros [[m [a|]] [Hin Hs]]; simpl in Hs; by simplify_eq.
  - intros Hin. by exists (n, Some t).
Qed.

Lemma forallb_false_elem {A} (f : A -> bool) (l : list A) :
  forallb f l = false -> exists x, x ∈ l /\ f x = false.
Proof.
  induction l as [|x l IH]; simpl; [done|].
  destruct (f x) eqn:Hx; simpl.
  - intros (y & Hy & Hf)%IH. exists y. split; [by apply list_elem_of_further|done].
  - intros _. exists x. split; [apply list_elem_of_here|done].
Qed.

(** For a function without local variables other than its parameters, and
    annotated with classes, registration raises
    InvalidOperationSignatureError exactly under the five conditions of the
    specification. *)
Lemma make_operation_invalid_signature func :
  well_formed func ->
  local_variables func = [] ->
  (exists why, make_operation func
               = Raise (InvalidOperationSignatureError (__name__ func) why))
  <-> invalid_signature func.
Proof.
  intros [Hnd Hret] Hloc.
  destruct (get_type_hints_return func Hret) as [Hg Hp].
  pose proof (annotation_order_NoDup func Hnd) as Hndp.
  assert (Hco : forall n, n ∈ co_varnames func
                          <-> n ∈ (annotation_order func).*1).
  { intros n. rewrite co_varnames_elem, Hloc, elem_of_nil. tauto. }
  assert (Hnil : parameters func = [] <-> co_varnames func = []).
  { split.
    - intros Hps. apply elem_of_nil_inv. intros n Hn. apply Hco in Hn.
      apply list_elem_of_fmap in Hn as [q [_ Hq]].
      apply annotation_order_elem in Hq. rewrite Hps in Hq.
      by apply elem_of_nil in Hq.
    - intros Hcv. apply elem_of_nil_inv. intros q Hq.
      assert (Hn : q.1 ∈ co_varnames func).
      { apply Hco, list_elem_of_fmap. exists q.
        split; [done|]. by apply annotation_order_elem. }
      rewrite Hcv in Hn. by apply elem_of_nil in Hn. }
  unfold make_operation, invalid_signature. rewrite Hg, Hp.
  destruct (return_annotation func) as [r|] eqn:Hr; simpl;
    [|split; [by left | by eexists]].
  destruct (negb (issubclass_State r) && negb (is_NoneType r)) eqn:Hbad; simpl.
  { apply andb_true_iff in Hbad as [HrS%negb_true_iff HrN%negb_true_iff].
    split; [intros _; right; left; by exists r | by eexists]. }
  case_bool_decide as Hlen.
  { split; [intros _ | by eexists]. do 2 right. left.
    apply Hnil. by apply length_zero_iff_nil. }
  destruct (forallb _ (co_varnames func)) eqn:Hall; simpl.
  2: { split; [intros _ | by eexists]. do 3 right. left.
       apply forallb_false_elem in Hall as [n [Hin Hc]].
       apply Hco, list_elem_of_fmap in Hin as [[m a] [-> Hin]].
       exists m. destruct a as [t|]; [|by apply annotation_order_elem].
       exfalso. apply not_true_iff_false in Hc. apply Hc.
       apply dict_contains_keys, list_elem_of_fmap.
       exists (m, t). split; [done|]. by apply annotated_elem. }
  assert (Hfull : annotation_order func
                  = (fun e => (e.1, Some e.2))
                      <$> annotated (annotation_order func)).
  { apply all_annotated; [done|]. intros n Hn.
    apply dict_contains_keys. rewrite forallb_forall in Hall.
    by apply Hall, list_elem_of_In, Hco. }
  destruct (collect_depends func (annotated (annotation_order func)) [] [])
    as [[depends hm]|e] eqn:Hc; simpl.
  2: { apply collect_depends_Raise in Hc as (n & t & Hin & HS & HP & ->).
       split; [intros _ | by eexists]. do 4 right. exists n, t.
       split; [|done]. by apply annotation_order_elem, annotated_elem. }
  apply collect_depends_Ok in Hc as [-> Hvalid]. simpl.
  split.
  - intros [why Hraise].
    destruct ((annotated (annotation_order func)).*2) as [|first rest];
      simpl in Hraise; [done|].
    destruct (plan_of_first_arg first) as [pl|e] eqn:Hpl; simpl in Hraise;
      [done|].
    unfold plan_of_first_arg in Hpl.
    destruct first as [| |? [|]|]; simpl in Hpl; by simplify_eq.
  - intros [Hc1|[(t & Hc2 & HtS & HtN)|[Hc3|[(n & Hc4)|(n & t & Hc5 & HtS & HtP)]]]].
    + done.
    + simplify_eq. by rewrite HtS, HtN in Hbad.
    + apply Hnil in Hc3. by rewrite Hc3 in Hlen.
    + exfalso. apply annotation_order_elem in Hc4. rewrite Hfull in Hc4.
      apply list_elem_of_fmap in Hc4 as [? [? _]]. done.
    + exfalso. apply annotation_order_elem, annotated_elem in Hc5.
      rewrite Forall_forall in Hvalid.
      assert (Ht : t ∈ (annotated (annotation_order func)).*2)
        by (apply list_elem_of_fmap; by exists (n, t)).
      apply Hvalid in Ht. by rewrite HtS, HtP in Ht.
Qed.

End SignatureProperties.

(** C2 fails on the code: [read_file_with_local] violates none of the five
    conditions, and [read_file], which differs from it only by the local
    variable, registers; yet the variable is reported as an untyped
    argument and registration raises InvalidOperationSignatureError. *)
Theorem operation_rejects_local_variable :
  ~ invalid_signature read_file_with_local
  /\ operation read_file_with_local ∅
     = Raise (InvalidOperationSignatureError "read_file"
                (UntypedArguements ["parsed"]))
  /\ is_Ok (operation read_file ∅) = true.
Proof.
  split; [|split; reflexivity].
  unfold invalid_signature. simpl.
  intros [H|[(t & H & HS & HN)|[H|[(n & H)|(n & t & H & HS & HP)]]]];
    try discriminate.
  - by simplify_eq.
  - apply list_elem_of_singleton in H. discriminate.
  - apply list_elem_of_singleton in H. by simplify_eq.
Qed.

Lemma operation_duplicate_provider_witness :
  operation read_file plans_of_main
  = Raise (TooManyProvidersError "read_file" (SameState "read_file"))
  /\ operation log_file plans_of_main
     = Raise (TooManyProvidersError "log_file" (SameFunctionName "log_file")).
Proof.
  split.
  - destruct (operation_duplicate_provider read_file plans_of_main "AddUsers"
                (SyncOperation (descriptor read_file)) eq_refl eq_refl)
      as [other_op [Hother Hop]].
    vm_compute in Hother. injection Hother as <-. exact Hop.
  - destruct (operation_duplicate_provider log_file plans_of_main "AddUsers"
                (SyncOperation (descriptor log_file)) eq_refl eq_refl)
      as [other_op [Hother Hop]].
    vm_compute in Hother. injection Hother as <-. exact Hop.
Defined.

Lemma operation_owning_plan_witness :
  exists arg first_arg rest plan op,
    annotation_order save_details = (arg, Some first_arg) :: rest
    /\ (grammatical save_details -> of_kind POSITIONAL_ONLY save_details = [] ->
        parameters save_details = (arg, Some first_arg) :: rest)
    /\ plan_of_first_arg first_arg = Ok plan
    /\ (first_arg = PlanType plan
        \/ exists cls_name, first_arg = StateType cls_name (Some plan))
    /\ make_operation save_details = Ok (plan, op)
    /\ <["AddUsers" := [(ByName "save_details",
                         SyncOperation (descriptor save_details))]]>
         (∅ : gmap string Registry)
       = <[plan := dict_set (onward_operations ∅ plan) (op_id op) op]> ∅.
Proof.
  apply (operation_owning_plan save_details ∅).
  - split; apply (bool_decide_unpack _); vm_compute; exact I.
  - reflexivity.
Defined.

(** C10 fails on the code: [audit] is a well-formed function whose first
    declared parameter is a state of [Billing], yet [operation] finds
    [AddUsers], the annotation of its second parameter, at the head of the
    type hints and registers [audit] with [AddUsers]; declared without the
    [/], the same function is registered with [Billing]. *)
Theorem operation_owning_plan_positional_only :
  well_formed audit /\ grammatical audit
  /\ parameters audit = [("entry", Some Invoice); ("plan", Some AddUsers)]
  /\ plan_of_first_arg Invoice = Ok "Billing"
  /\ get_type_hints audit
     = [("plan", AddUsers); ("entry", Invoice); ("return", NoneType)]
  /\ dependencies (descriptor audit) = [AddUsers; Invoice]
  /\ operation audit ∅
     = Ok (<["AddUsers" := [(ByName "audit", SyncOperation (descriptor audit))]]>
             ∅)
  /\ operation audit_plain ∅
     = Ok (<["Billing" := [(ByName "audit",
                            SyncOperation (descriptor audit_plain))]]> ∅).
Proof.
  split.
  { split; apply (bool_decide_unpack _); vm_compute; exact I. }
  repeat split; reflexivity.
Qed.

(** ** The orchestrator loop, one step at a time *)

Section LoopEquations.
Context {W X : Type} `{!@Executor W X}.
Implicit Types (r : @Run W X) (self : pyvalue).

Local Arguments TopologicalSorter_done : simpl never.
Local Arguments TopologicalSorter_get_ready : simpl never.
Local Arguments TopologicalSorter_is_active : simpl never.
Local Arguments build_partials : simpl never.
Local Arguments dict_getitem : simpl never.

Lemma run_eta r : set_graph (graph_of r) r = r.
Proof. by destruct r as [[] ?]. Qed.

Lemma on_graph_eq {A} (m : M TopologicalSorter A) r :
  on_plan (on_graph m) r = ((m (graph_of r)).1, set_graph (m (graph_of r)).2 r).
Proof. reflexivity. Qed.

Lemma on_executor_eq {A} (m : M X A) r :
  on_plan (on_executor m) r
  = ((m (__onward_executor__ (plan r))).1,
     set_executor (m (__onward_executor__ (plan r))).2 r).
Proof. reflexivity. Qed.

Lemma is_active_state (g : TopologicalSorter) : (TopologicalSorter_is_active g).2 = g.
Proof. unfold TopologicalSorter_is_active. by destruct (_ready_nodes g). Qed.

Lemma start_or_resume_eq fuel self r :
  start_or_resume (S fuel) self r
  = match (TopologicalSorter_is_active (graph_of r)).1 with
    | Raise e => (Raise e, r)
    | Ok false => (Ok Completed, r)
    | Ok true =>
        match loop_body self r with
        | (Ok _, r') => start_or_resume fuel self r'
        | (Raise e, r') => (Raise e, r')
        end
    end.
Proof.
  simpl. unfold mbind, M_bind, plan_active. rewrite on_graph_eq. simpl.
  rewrite is_active_state, run_eta.
  by destruct (TopologicalSorter_is_active (graph_of r)).1 as [[]|].
Qed.

Lemma loop_body_eq self r :
  loop_body self r
  = match (TopologicalSorter_get_ready (graph_of r)).1 with
    | Raise e => (Raise e, set_graph (TopologicalSorter_get_ready (graph_of r)).2 r)
    | Ok nodes =>
        let r1 := add_events [Ready nodes]
                    (set_graph (TopologicalSorter_get_ready (graph_of r)).2 r) in
        if bool_decide (nodes = []) then join_and_record r1
        else dispatch self nodes r1
    end.
Proof.
  unfold loop_body, mbind, M_bind, next_operation_group.
  rewrite on_graph_eq. simpl.
  destruct (TopologicalSorter_get_ready (graph_of r)).1 as [nodes|]; [|done].
  by case_bool_decide.
Qed.

Lemma join_and_record_eq r :
  join_and_record r
  = let x := join_next None (__onward_executor__ (plan r)) in
    let r1 := set_executor x.2 r in
    match x.1 with
    | Raise e => (Raise e, r1)
    | Ok (next_result, next_state) =>
        let finish r2 :=
          match (TopologicalSorter_done next_state (graph_of r2)).1 with
          | Raise e =>
              (Raise e,
               set_graph (TopologicalSorter_done next_state (graph_of r2)).2 r2)
          | Ok _ =>
              (Ok tt,
               add_events [Done next_state]
                 (set_graph (TopologicalSorter_done next_state (graph_of r2)).2 r2))
          end in
        if is_str next_state then finish r1
        else if is_None next_result then
          match dict_getitem (__onward_operations__ (plan r1)) next_state with
          | Ok operation => (Raise (InvalidOperationReturnError (op_name operation)), r1)
          | Raise e => (Raise e, r1)
          end
        else
          finish (add_events [Recorded next_state next_result]
                    (set_states (<[next_state := next_result]>
                                   (__onward_states__ (plan r1))) r1))
    end.
Proof.
  unfold join_and_record, mbind, M_bind. rewrite on_executor_eq.
  destruct (join_next None (__onward_executor__ (plan r)))
    as [[[next_result next_state]|e] x]; [|done].
  simpl. destruct (is_str next_state); simpl.
  - unfold graph_of. simpl.
    by destruct (TopologicalSorter_done next_state _) as [[|] ?].
  - destruct (is_None next_result); simpl.
    + unfold lift. simpl. by destruct (dict_getitem _ _).
    + unfold graph_of. simpl.
      by destruct (TopologicalSorter_done next_state _) as [[|] ?].
Qed.

Lemma dispatch_eq self nodes r :
  dispatch self nodes r
  = match build_partials (plan r) self nodes [] [] with
    | Raise e => (Raise e, r)
    | Ok (sync_partials, async_partials) =>
        let r1 := add_events
                    ((fun p => Dispatch (SyncOperation (func p.1))) <$> sync_partials)
                    r in
        let x := add_operations sync_partials (__onward_executor__ (plan r1)) in
        match x.1 with
        | Raise e => (Raise e, set_executor x.2 r1)
        | Ok _ =>
            if bool_decide (async_partials ≠ []) then
              let r2 := add_events
                          ((fun c => Dispatch (AsyncOperation (cr_self c.1)))
                             <$> async_partials)
                          (set_executor x.2 r1) in
              let y := add_async_operations async_partials
                         (__onward_executor__ (plan r2)) in
              (y.1, set_executor y.2 r2)
            else (Ok tt, set_executor x.2 r1)
        end
    end.
Proof.
  unfold dispatch, mbind, M_bind, get, lift.
  destruct (build_partials (plan r) self nodes [] [])
    as [[sync_partials async_partials]|e]; [|done].
  simpl.
  destruct (add_operations sync_partials _) as [[|] ?]; [|done].
  simpl. case_bool_decide; [|done]. simpl.
  by rewrite on_executor_eq.
Qed.

(** An invariant of the loop body is an invariant of the run. *)
Lemma start_or_resume_invariant (I : @Run W X -> Prop) self :
  (forall r, I r -> I (loop_body self r).2) ->
  forall fuel r, I r -> I (start_or_resume fuel self r).2.
Proof.
  intros Hbody. induction fuel as [|fuel IH]; intros r Hr; [done|].
  rewrite start_or_resume_eq.
  destruct (TopologicalSorter_is_active (graph_of r)).1 as [[]|]; try done.
  specialize (Hbody r Hr).
  destruct (loop_body self r) as [[]?]; simpl in *; [by apply IH|done].
Qed.

End LoopEquations.

(** ** Recorded results *)

Section RecordedProperties.
Context {W X : Type} `{!@Executor W X}.
Implicit Types (r : @Run W X) (self : pyvalue) (tr : list (@event W)).

Local Arguments TopologicalSorter_done : simpl never.
Local Arguments TopologicalSorter_get_ready : simpl never.
Local Arguments build_partials : simpl never.
Local Arguments dict_getitem : simpl never.

Lemma last_recorded_app tr es k :
  last_recorded (tr ++ es) k
  = match last_recorded es k with
    | Some v => Some v
    | None => last_recorded tr k
    end.
Proof.
  induction tr as [|e tr IH]; simpl.
  - by destruct (last_recorded es k).
  - rewrite IH. by destruct (last_recorded es k).
Qed.

Lemma last_recorded_dispatches {A} (f : A -> @OperationType W) (l : list A) k :
  last_recorded ((fun a => Dispatch (f a)) <$> l) k = None.
Proof.
  induction l as [|a l IH]; [done|].
  rewrite fmap_cons. cbn [last_recorded]. by rewrite IH.
Qed.

Lemma loop_body_states before self r :
  states_follow_trace before r ->
  states_follow_trace before (loop_body self r).2.
Proof.
  intros Hr. rewrite loop_body_eq.
  destruct (TopologicalSorter_get_ready (graph_of r)) as [[nodes|e] g1]; simpl;
    [|done].
  set (r1 := add_events [Ready nodes] (set_graph g1 r)).
  assert (H1 : states_follow_trace before r1).
  { intros k. specialize (Hr k). subst r1. simpl.
    rewrite last_recorded_app. simpl. done. }
  clearbody r1. clear Hr.
  case_bool_decide.
  - rewrite join_and_record_eq.
    destruct (join_next None (__onward_executor__ (plan r1)))
      as [[[next_result next_state]|e] x]; simpl; [|done].
    assert (Hfinish : forall r2, states_follow_trace before r2 ->
      states_follow_trace before
        (match (TopologicalSorter_done next_state (graph_of r2)).1 with
         | Ok _ =>
             (Ok (),
              add_events [Done next_state]
                (set_graph (TopologicalSorter_done next_state (graph_of r2)).2 r2))
         | Raise e =>
             (Raise e,
              set_graph (TopologicalSorter_done next_state (graph_of r2)).2 r2)
         end).2).
    { intros r2 H2.
      destruct (TopologicalSorter_done next_state (graph_of r2)) as [[|] g2];
        simpl; [|done].
      intros k. specialize (H2 k). simpl. rewrite last_recorded_app. done. }
    destruct (is_str next_state); [by apply Hfinish|].
    destruct (is_None next_result).
    + by destruct (dict_getitem _ _).
    + apply Hfinish. intros k. specialize (H1 k). simpl.
      rewrite last_recorded_app. simpl.
      destruct (decide (next_state = k)) as [->|Hne].
      * by rewrite lookup_insert_eq.
      * by rewrite lookup_insert_ne.
  - rewrite dispatch_eq.
    destruct (build_partials (plan r1) self nodes [] [])
      as [[sync_partials async_partials]|e]; [|done].
    simpl.
    destruct (add_operations sync_partials _) as [[|] x]; simpl.
    + case_bool_decide; simpl.
      * intros k. specialize (H1 k). simpl.
        rewrite !last_recorded_app, !last_recorded_dispatches. done.
      * intros k. specialize (H1 k). simpl.
        rewrite !last_recorded_app, !last_recorded_dispatches. done.
    + intros k. specialize (H1 k). simpl.
      rewrite !last_recorded_app, !last_recorded_dispatches. done.
Qed.

(** C9.  After any number of turns of [start_or_resume], on any executor,
    [get_state_value] of a state type is the value the loop recorded last
    under that type; when the loop recorded none, it is what the result
    mapping held before the run, which is "no value" for the empty mapping
    every Plan class starts with.  No case raises. *)
Theorem get_state_value_recorded fuel self (cls : @PlanClass W X) state_type :
  get_state_value
    (plan (start_or_resume fuel self {| plan := cls; events := [] |}).2)
    state_type
  = match last_recorded
            (events (start_or_resume fuel self {| plan := cls; events := [] |}).2)
            (ByType state_type)
    with
    | Some v => Some v
    | None => get_state_value cls state_type
    end.
Proof.
  unfold get_state_value.
  apply (start_or_resume_invariant (states_follow_trace (__onward_states__ cls))).
  - intros r. apply loop_body_states.
  - intros k. reflexivity.
Qed.

End RecordedProperties.

(** ** The sorter's bookkeeping *)

Section DictUpdates.
Context {K V : Type} `{EqDecision K}.
Implicit Types (d : list (K * V)) (k : K) (v : V).

Lemma dict_get_elem d k v :
  NoDup (dict_keys d) -> (k, v) ∈ d <-> dict_get d k = Some v.
Proof.
  intros Hnd. split; [|apply dict_get_Some_elem].
  unfold dict_keys in Hnd. induction d as [|[k' v'] d IH]; simpl in *.
  - by intros ?%elem_of_nil.
  - apply NoDup_cons in Hnd as [Hk Hnd].
    intros [Heq|Hin]%elem_of_cons.
    + simplify_eq. by case_decide.
    + case_decide; [|by apply IH]. subst. exfalso. apply Hk.
      apply list_elem_of_fmap. by exists (k, v).
Qed.

Lemma dict_keys_set d k v k' :
  k' ∈ dict_keys (dict_set d k v) <-> k' = k \/ k' ∈ dict_keys d.
Proof.
  destruct (decide (k ∈ dict_keys d)) as [Hin|Hin].
  - rewrite dict_keys_set_in by done. split; [by right|].
    by intros [->|].
  - rewrite dict_keys_set_notin by done. unfold dict_keys.
    rewrite fmap_app, elem_of_app. simpl. rewrite list_elem_of_singleton. tauto.
Qed.

Lemma dict_keys_set_NoDup d k v :
  NoDup (dict_keys d) -> NoDup (dict_keys (dict_set d k v)).
Proof.
  intros Hnd. destruct (decide (k ∈ dict_keys d)) as [Hin|Hin].
  - by rewrite dict_keys_set_in.
  - rewrite dict_keys_set_notin by done. unfold dict_keys in *.
    rewrite fmap_app. simpl. apply NoDup_app. split; [done|].
    split; [|apply NoDup_singleton].
    intros x Hx Hx'%list_elem_of_singleton. by subst.
Qed.

Lemma dict_get_is_Some_keys d k : is_Some (dict_get d k) <-> k ∈ dict_keys d.
Proof.
  rewrite <- dict_contains_keys. unfold dict_contains.
  destruct (dict_get d k); split; done.
Qed.
End DictUpdates.

Section Weights.
Implicit Types (n2i : list (OutputKey * _NodeInfo)) (i : _NodeInfo).
Implicit Types (k n p s : OutputKey) (f : _NodeInfo -> nat).

Lemma weigh_nil f : weigh f [] = 0.
Proof. reflexivity. Qed.

Lemma weigh_cons f k i n2i : weigh f ((k, i) :: n2i) = f i + weigh f n2i.
Proof. reflexivity. Qed.

Lemma weigh_app f n2i n2i' : weigh f (n2i ++ n2i') = weigh f n2i + weigh f n2i'.
Proof.
  induction n2i as [|[k i] n2i IH]; [done|].
  rewrite <- app_comm_cons, !weigh_cons, IH. lia.
Qed.

Lemma weigh_set_Some f n2i k i i' :
  dict_get n2i k = Some i ->
  weigh f (dict_set n2i k i') + f i = weigh f n2i + f i'.
Proof.
  induction n2i as [|[k0 i0] n2i IH]; cbn [dict_get dict_set]; [done|].
  case_decide; intros Hg; simplify_eq; rewrite !weigh_cons; [lia|].
  specialize (IH Hg). lia.
Qed.

Lemma weigh_set_None f n2i k i' :
  dict_get n2i k = None ->
  weigh f (dict_set n2i k i') = weigh f n2i + f i'.
Proof.
  induction n2i as [|[k0 i0] n2i IH]; cbn [dict_get dict_set].
  - intros _. rewrite weigh_cons, !weigh_nil. lia.
  - case_decide; intros Hg; simplify_eq. rewrite !weigh_cons, (IH Hg). lia.
Qed.

Lemma weigh_le f n2i k i : dict_get n2i k = Some i -> f i <= weigh f n2i.
Proof.
  induction n2i as [|[k0 i0] n2i IH]; cbn [dict_get]; [done|].
  case_decide; intros Hg; simplify_eq; rewrite weigh_cons; [lia|].
  specialize (IH Hg). lia.
Qed.

Lemma weigh_zero f n2i :
  NoDup (dict_keys n2i) ->
  (forall k i, dict_get n2i k = Some i -> f i = 0) ->
  weigh f n2i = 0.
Proof.
  intros Hnd Hz.
  assert (Hall : forall e, e ∈ n2i -> f e.2 = 0).
  { intros [k i] Hin. apply (Hz k). by apply dict_get_elem. }
  clear Hz Hnd.
  induction n2i as [|[k i] n2i IH]; [done|].
  rewrite weigh_cons. pose proof (Hall (k, i) (list_elem_of_here _ _)) as Hk.
  simpl in Hk. rewrite Hk.
  rewrite IH; [done|]. intros e' He'. apply Hall. by apply list_elem_of_further.
Qed.

Lemma weigh_ext f f' n2i :
  (forall i, f i = f' i) -> weigh f n2i = weigh f' n2i.
Proof.
  intros Hf. unfold weigh. f_equal. apply list_fmap_ext. auto.
Qed.

Lemma occurrences_app n l1 l2 :
  occurrences n (l1 ++ l2) = occurrences n l1 + occurrences n l2.
Proof. unfold occurrences. by rewrite filter_app, length_app. Qed.

Lemma occurrences_singleton n s :
  occurrences n [s] = if decide (s = n) then 1 else 0.
Proof.
  unfold occurrences. rewrite filter_cons. simpl.
  by case_decide.
Qed.

Lemma occurrences_zero n l : occurrences n l = 0 <-> n ∉ l.
Proof.
  unfold occurrences. induction l as [|s l IH]; simpl.
  - split; [intros _; apply not_elem_of_nil|done].
  - rewrite filter_cons, not_elem_of_cons. case_decide; simpl.
    + split; [done|]. intros [? _]. congruence.
    + rewrite IH. split; [intros ?; split; [congruence|done]|by intros [_ ?]].
Qed.
End Weights.

Section Building.
Implicit Types (n2i : list (OutputKey * _NodeInfo)) (i : _NodeInfo).
Implicit Types (k n p s target : OutputKey) (f : _NodeInfo -> _NodeInfo).

Lemma update_nodeinfo_eq n f n2i :
  update_nodeinfo n f n2i
  = dict_set n2i n (f (default (fresh_nodeinfo n) (dict_get n2i n))).
Proof. unfold update_nodeinfo. by destruct (dict_get n2i n). Qed.

Lemma update_nodeinfo_get n f n2i k :
  dict_get (update_nodeinfo n f n2i) k
  = if decide (n = k) then Some (f (default (fresh_nodeinfo n) (dict_get n2i n)))
    else dict_get n2i k.
Proof. by rewrite update_nodeinfo_eq, dict_get_set. Qed.

Lemma update_nodeinfo_keys n f n2i k :
  k ∈ dict_keys (update_nodeinfo n f n2i) <-> k = n \/ k ∈ dict_keys n2i.
Proof. rewrite update_nodeinfo_eq. apply dict_keys_set. Qed.

Lemma update_nodeinfo_NoDup n f n2i :
  NoDup (dict_keys n2i) -> NoDup (dict_keys (update_nodeinfo n f n2i)).
Proof. rewrite update_nodeinfo_eq. apply dict_keys_set_NoDup. Qed.

Lemma update_nodeinfo_weigh (g : _NodeInfo -> nat) n f n2i :
  weigh g (update_nodeinfo n f n2i)
  + match dict_get n2i n with Some i => g i | None => 0 end
  = weigh g n2i + g (f (default (fresh_nodeinfo n) (dict_get n2i n))).
Proof.
  rewrite update_nodeinfo_eq. destruct (dict_get n2i n) as [i|] eqn:Hg; simpl.
  - by apply weigh_set_Some.
  - rewrite weigh_set_None by done. lia.
Qed.

Lemma pending_notin target extra n2i k :
  graph_inv_ahead target extra n2i -> k ∉ dict_keys n2i -> pending n2i k = 0.
Proof.
  intros (Hnd & _ & Hclosed & _) Hk. apply weigh_zero; [done|].
  intros p i Hp. unfold contribution. case_bool_decide; [done|].
  apply occurrences_zero. intros Hin. apply Hk. by eapply Hclosed.
Qed.

Lemma building_count target extra n2i k i :
  building target extra n2i ->
  dict_get n2i k = Some i ->
  npredecessors i
  = Z.of_nat (pending n2i k + if decide (k = target) then extra else 0).
Proof.
  intros [(_ & _ & _ & Hcount) Hpos] Hk.
  destruct (Hcount k i Hk) as [?|[_ Hneg]]; [done|].
  specialize (Hpos k i Hk). unfold _NODE_OUT, _NODE_DONE in Hneg. lia.
Qed.

Lemma building_default target extra n2i n :
  building target extra n2i ->
  let i0 := default (fresh_nodeinfo n) (dict_get n2i n) in
  node i0 = n
  /\ (0 <= npredecessors i0)%Z
  /\ (forall s, s ∈ successors i0 -> s ∈ dict_keys n2i)
  /\ npredecessors i0
     = Z.of_nat (pending n2i n
                 + if decide (n = target)
                   then match dict_get n2i n with Some _ => extra | None => 0 end
                   else 0).
Proof.
  intros Hb. pose proof Hb as [(Hnd & Hnode & Hclosed & _) Hpos].
  destruct (dict_get n2i n) as [i|] eqn:Hg; simpl.
  - split; [by eapply Hnode|]. split; [by eapply Hpos|].
    split; [intros s; by eapply Hclosed|].
    by eapply building_count.
  - split; [done|]. split; [done|].
    split; [by intros s ?%elem_of_nil|].
    rewrite (pending_notin target extra) by
      (try apply Hb; by apply dict_get_None_keys).
    by case_decide.
Qed.

Lemma building_zero target target' n2i :
  building target 0 n2i -> building target' 0 n2i.
Proof.
  intros [(Hnd & Hnode & Hclosed & Hcount) Hpos].
  split; [|done]. split; [done|]. split; [done|]. split; [done|].
  intros k i Hk. destruct (Hcount k i Hk) as [Hc|Hc]; [left|by right].
  rewrite Hc. by repeat case_decide.
Qed.

(** First half of [add]: the new edges are counted at [n]. *)
Lemma building_add_count target n extra n2i :
  building target 0 n2i ->
  building n extra
    (update_nodeinfo n
       (fun i => set_npredecessors (npredecessors i + Z.of_nat extra) i) n2i).
Proof.
  intros Hb. apply (building_zero _ n) in Hb.
  pose proof (building_default _ _ _ n Hb) as (Hnode0 & Hpos0 & Hclosed0 & Hcount0).
  simpl in *. pose proof Hb as [(Hnd & Hnode & Hclosed & _) Hpos].
  set (i0 := default (fresh_nodeinfo n) (dict_get n2i n)) in *.
  set (f := fun i => set_npredecessors (npredecessors i + Z.of_nat extra) i).
  assert (Hpend : forall k, pending (update_nodeinfo n f n2i) k = pending n2i k).
  { intros k. pose proof (update_nodeinfo_weigh (contribution k) n f n2i) as Hw.
    fold i0 in Hw. unfold pending.
    assert (contribution k (f i0) = contribution k i0) as Hc.
    { unfold contribution, f. simpl.
      rewrite !bool_decide_eq_false_2; [done| |]; unfold _NODE_DONE; lia. }
    rewrite Hc in Hw. clear Hc. subst i0.
    destruct (dict_get n2i n) as [i|] eqn:Hg; simpl in *; [lia|].
    change (contribution k (fresh_nodeinfo n)) with 0 in Hw. lia. }
  split; [split; [|split; [|split]]|].
  - by apply update_nodeinfo_NoDup.
  - intros k i. rewrite update_nodeinfo_get.
    destruct (decide (n = k)) as [<-|Hne]; [|apply Hnode].
    by intros [= <-].
  - intros k i s. rewrite update_nodeinfo_get, update_nodeinfo_keys.
    destruct (decide (n = k)) as [<-|Hne].
    + intros [= <-] Hs. right. by apply Hclosed0.
    + intros Hk Hs. right. by eapply Hclosed.
  - intros k i Hk. rewrite update_nodeinfo_get in Hk. rewrite Hpend. left.
    destruct (decide (n = k)) as [<-|Hne].
    + injection Hk as <-. unfold f. simpl. fold i0. rewrite Hcount0.
      rewrite !decide_True by done.
      destruct (dict_get n2i n); lia.
    + rewrite decide_False by done.
      rewrite (building_count _ _ _ _ _ Hb Hk). by rewrite decide_False.
  - intros k i. rewrite update_nodeinfo_get.
    destruct (decide (n = k)) as [<-|Hne]; [|apply Hpos].
    intros [= <-]. unfold f. simpl. fold i0. lia.
Qed.

End Building.

Section BuildingEdges.
Implicit Types (n2i : list (OutputKey * _NodeInfo)) (i : _NodeInfo).
Implicit Types (k n p s pred : OutputKey).

Lemma contribution_append k n i :
  (0 <= npredecessors i)%Z ->
  contribution k (append_successor n i)
  = contribution k i + if decide (n = k) then 1 else 0.
Proof.
  intros Hpos. unfold contribution, append_successor. simpl.
  rewrite bool_decide_eq_false_2 by (unfold _NODE_DONE; lia).
  by rewrite occurrences_app, occurrences_singleton.
Qed.

Lemma building_set_edge n extra n2i pred i0 :
  building n (S extra) n2i ->
  n ∈ dict_keys n2i ->
  node i0 = pred ->
  (0 <= npredecessors i0)%Z ->
  (forall s, s ∈ successors i0 -> s ∈ dict_keys n2i) ->
  npredecessors i0
  = Z.of_nat (pending n2i pred + if decide (pred = n) then S extra else 0) ->
  (forall k, pending (dict_set n2i pred (append_successor n i0)) k
             + contribution k i0
             = pending n2i k + contribution k (append_successor n i0)) ->
  building n extra (dict_set n2i pred (append_successor n i0)).
Proof.
  intros Hb Hn Hnode0 Hpos0 Hclosed0 Hcount0 Hw.
  pose proof Hb as [(Hnd & Hnode & Hclosed & _) Hpos].
  assert (Hpend : forall k,
             pending (dict_set n2i pred (append_successor n i0)) k
             = pending n2i k + if decide (n = k) then 1 else 0).
  { intros k. specialize (Hw k). rewrite contribution_append in Hw by done. lia. }
  split; [split; [|split; [|split]]|].
  - by apply dict_keys_set_NoDup.
  - intros k i. rewrite dict_get_set.
    destruct (decide (pred = k)) as [<-|Hne]; [|apply Hnode].
    by intros [= <-].
  - intros k i s. rewrite dict_get_set, dict_keys_set.
    destruct (decide (pred = k)) as [<-|Hne].
    + intros [= <-]. simpl. rewrite elem_of_app, list_elem_of_singleton.
      intros [Hs| ->]; right; [by apply Hclosed0|done].
    + intros Hk Hs. right. by eapply Hclosed.
  - intros k i Hk. rewrite dict_get_set in Hk. rewrite Hpend. left.
    destruct (decide (pred = k)) as [<-|Hne].
    + injection Hk as <-. simpl. rewrite Hcount0.
      destruct (decide (pred = n)) as [->|Hpn].
      * rewrite decide_True by done. lia.
      * rewrite decide_False by done. lia.
    + rewrite (building_count _ _ _ _ _ Hb Hk).
      destruct (decide (k = n)) as [->|Hkn].
      * rewrite decide_True by done. lia.
      * rewrite decide_False by done. lia.
  - intros k i. rewrite dict_get_set.
    destruct (decide (pred = k)) as [<-|Hne]; [|apply Hpos].
    by intros [= <-].
Qed.

(** Second half of [add], one predecessor at a time. *)
Lemma building_add_edge n extra n2i pred :
  building n (S extra) n2i ->
  n ∈ dict_keys n2i ->
  building n extra (update_nodeinfo pred (append_successor n) n2i).
Proof.
  intros Hb Hn. pose proof Hb as [Hinv Hpos].
  unfold update_nodeinfo.
  destruct (dict_get n2i pred) as [i|] eqn:Hg.
  - apply building_set_edge; try done.
    + by destruct Hinv as (_ & Hnode & _); eapply Hnode.
    + by eapply Hpos.
    + intros s. by destruct Hinv as (_ & _ & Hclosed & _); eapply Hclosed.
    + by eapply building_count.
    + intros k. by apply weigh_set_Some.
  - assert (Hpn : pred ≠ n).
    { intros ->. by apply dict_get_None_keys in Hg. }
    apply building_set_edge; try done.
    + by intros s ?%elem_of_nil.
    + rewrite (pending_notin n (S extra)) by
        (try done; by apply dict_get_None_keys).
      by rewrite decide_False.
    + intros k. unfold pending. rewrite weigh_set_None by done.
      change (contribution k (fresh_nodeinfo pred)) with 0.
      change ({| node := pred; npredecessors := 0; successors := [] |})
        with (fresh_nodeinfo pred).
      change (contribution k (fresh_nodeinfo pred)) with 0. lia.
Qed.

Lemma building_add_edges n n2i predecessors :
  building n (length predecessors) n2i ->
  n ∈ dict_keys n2i ->
  building n 0
    (foldl (fun n2i pred => update_nodeinfo pred (append_successor n) n2i)
       n2i predecessors).
Proof.
  revert n2i. induction predecessors as [|pred preds IH]; intros n2i Hb Hn;
    simpl in *; [done|].
  apply IH; [by apply building_add_edge|].
  apply update_nodeinfo_keys. by right.
Qed.

Lemma building_add target n predecessors n2i :
  building target 0 n2i -> building target 0 (add_node2info n predecessors n2i).
Proof.
  intros Hb. apply (building_zero n). unfold add_node2info.
  apply building_add_edges.
  - by eapply building_add_count.
  - apply update_nodeinfo_keys. by left.
Qed.

Lemma building_nil target : building target 0 [].
Proof.
  split; [|done]. split; [apply NoDup_nil_2|]. done.
Qed.

End BuildingEdges.

Section GraphShape.
Context {W : Type}.
Implicit Types (n2i : list (OutputKey * _NodeInfo)) (i : _NodeInfo).
Implicit Types (k n p s pred : OutputKey) (registry : @Registry W).

Lemma has_edge_add_count n extra n2i p s :
  has_edge
    (update_nodeinfo n
       (fun i => set_npredecessors (npredecessors i + Z.of_nat extra) i) n2i) p s
  <-> has_edge n2i p s.
Proof.
  unfold has_edge. setoid_rewrite update_nodeinfo_get.
  destruct (decide (n = p)) as [<-|Hne]; [|done].
  destruct (dict_get n2i n) as [i0|]; simpl.
  - split; [intros (i & [= <-] & Hs); by exists i0
           |intros (i & [= <-] & Hs); by eexists].
  - split; [intros (i & [= <-] & Hs); by apply elem_of_nil in Hs
           |by intros (i & ? & ?)].
Qed.

Lemma has_edge_add_edge n pred n2i p s :
  has_edge (update_nodeinfo pred (append_successor n) n2i) p s
  <-> has_edge n2i p s \/ (p = pred /\ s = n).
Proof.
  unfold has_edge. setoid_rewrite update_nodeinfo_get.
  destruct (decide (pred = p)) as [<-|Hne].
  - destruct (dict_get n2i pred) as [i0|]; simpl.
    + split.
      * intros (i & [= <-] & Hs). simpl in Hs.
        apply elem_of_app in Hs as [Hs|Hs%list_elem_of_singleton];
          [left; by exists i0 | by right].
      * intros [(i & [= <-] & Hs)|[_ ->]]; eexists; (split; [done|]);
          simpl; apply elem_of_app; [by left|right; apply list_elem_of_here].
    + split.
      * intros (i & [= <-] & Hs). simpl in Hs.
        apply list_elem_of_singleton in Hs. by right.
      * intros [(i & ? & ?)|[_ ->]]; [done|].
        eexists. split; [done|]. simpl. apply list_elem_of_here.
  - split; [by left|]. intros [?|[? _]]; [done|congruence].
Qed.

Lemma add_edges_shape n n2i n2i1 before predecessors :
  (forall p s, has_edge n2i1 p s <-> has_edge n2i p s \/ (s = n /\ p ∈ before))
  /\ (forall k, k ∈ dict_keys n2i1
                <-> k ∈ dict_keys n2i \/ k = n \/ k ∈ before) ->
  let n2i2 :=
    foldl (fun n2i pred => update_nodeinfo pred (append_successor n) n2i)
      n2i1 predecessors in
  (forall p s, has_edge n2i2 p s
               <-> has_edge n2i p s \/ (s = n /\ p ∈ before ++ predecessors))
  /\ (forall k, k ∈ dict_keys n2i2
                <-> k ∈ dict_keys n2i \/ k = n \/ k ∈ before ++ predecessors).
Proof.
  revert n2i1 before.
  induction predecessors as [|pred preds IH]; intros n2i1 before; simpl.
  - by rewrite app_nil_r.
  - intros [Hedges Hkeys].
    replace (before ++ pred :: preds) with ((before ++ [pred]) ++ preds)
      by by rewrite <- app_assoc.
    apply IH. split.
    + intros p s. rewrite has_edge_add_edge, Hedges, elem_of_app,
        list_elem_of_singleton. tauto.
    + intros k. rewrite update_nodeinfo_keys, Hkeys, elem_of_app,
        list_elem_of_singleton. tauto.
Qed.

Lemma add_node2info_shape n predecessors n2i :
  (forall p s, has_edge (add_node2info n predecessors n2i) p s
               <-> has_edge n2i p s \/ (s = n /\ p ∈ predecessors))
  /\ (forall k, k ∈ dict_keys (add_node2info n predecessors n2i)
                <-> k ∈ dict_keys n2i \/ k = n \/ k ∈ predecessors).
Proof.
  unfold add_node2info.
  apply (add_edges_shape n n2i _ [] predecessors). split.
  - intros p s. rewrite has_edge_add_count. split; [by left|].
    intros [?|[_ ?%elem_of_nil]]; done.
  - intros k. rewrite update_nodeinfo_keys. split.
    + intros [->|?]; [right; by left|by left].
    + intros [?|[->|?%elem_of_nil]]; [by right|by left|done].
Qed.

Lemma build_graph_shape registry n2i :
  (forall p s, has_edge (build_graph registry n2i) p s
               <-> has_edge n2i p s
                   \/ exists op, (s, op) ∈ registry /\ p ∈ state_dependencies op)
  /\ (forall k, k ∈ dict_keys (build_graph registry n2i)
                <-> k ∈ dict_keys n2i \/ k ∈ dict_keys registry
                    \/ exists s op, (s, op) ∈ registry
                                    /\ k ∈ state_dependencies op).
Proof.
  unfold build_graph. revert n2i.
  induction registry as [|[state op] registry IH]; intros n2i; simpl.
  - split.
    + intros p s. split; [by left|]. intros [?|(? & ?%elem_of_nil & _)]; done.
    + intros k. split; [by left|].
      intros [?|[?%elem_of_nil|(? & ? & ?%elem_of_nil & _)]]; done.
  - destruct (IH (add_node2info state (state_dependencies op) n2i))
      as [Hedges Hkeys].
    destruct (add_node2info_shape state (state_dependencies op) n2i)
      as [Hedges1 Hkeys1].
    split.
    + intros p s. rewrite Hedges, Hedges1. split.
      * intros [[?|[-> ?]]|(op' & ? & ?)]; [by left| |].
        -- right. exists op. split; [apply list_elem_of_here|done].
        -- right. exists op'. split; [by apply list_elem_of_further|done].
      * intros [?|(op' & [[= -> ->]|?]%elem_of_cons & ?)].
        -- left. by left.
        -- left. by right.
        -- right. by exists op'.
    + intros k. rewrite Hkeys, Hkeys1. unfold dict_keys at 3. simpl.
      rewrite elem_of_cons. split.
      * intros [[?|[->|?]]|[?|(s & op' & ? & ?)]].
        -- by left.
        -- right. left. by left.
        -- right. right. exists state, op. split; [apply list_elem_of_here|done].
        -- right. left. by right.
        -- right. right. exists s, op'. split; [by apply list_elem_of_further|done].
      * intros [?|[[->|?]|(s & op' & [[= -> ->]|?]%elem_of_cons & ?)]].
        -- left. by left.
        -- left. right. by left.
        -- right. by left.
        -- left. right. by right.
        -- right. right. by exists s, op'.
Qed.

Lemma building_build_graph target registry n2i :
  building target 0 n2i -> building target 0 (build_graph registry n2i).
Proof.
  unfold build_graph. revert n2i.
  induction registry as [|item registry IH]; intros n2i Hb; simpl; [done|].
  by apply IH, building_add.
Qed.

End GraphShape.

Section Construction.
Context {W X : Type}.
Implicit Types (cls : @PlanClass W X) (g : TopologicalSorter).
Implicit Types (n2i : list (OutputKey * _NodeInfo)).

Lemma with_graph_eta cls : with_graph (__onward_operation_graph__ cls) cls = cls.
Proof. by destruct cls. Qed.

Lemma TopologicalSorter_add_eq n predecessors g :
  _ready_nodes g = None ->
  TopologicalSorter_add n predecessors g
  = (Ok tt, set_node2info (add_node2info n predecessors (_node2info g)) g).
Proof. intros Hr. unfold TopologicalSorter_add. by rewrite Hr. Qed.

Lemma TopologicalSorter_add_prepared n predecessors g :
  _ready_nodes g <> None ->
  TopologicalSorter_add n predecessors g
  = (Raise (ValueError "Nodes cannot be added after a call to prepare()"), g).
Proof. intros Hr. unfold TopologicalSorter_add. by destruct (_ready_nodes g). Qed.

Lemma TopologicalSorter_prepare_eq g :
  _ready_nodes g = None ->
  TopologicalSorter_prepare g
  = (if _find_cycle (prepared g) then Raise CycleError else Ok tt, prepared g).
Proof.
  intros Hr. unfold TopologicalSorter_prepare. rewrite Hr.
  fold (prepared g). by destruct (_find_cycle (prepared g)).
Qed.

Lemma add_loop_eq (registry : @Registry W) cls :
  _ready_nodes (__onward_operation_graph__ cls) = None ->
  for_each registry
    (fun item =>
       on_graph (TopologicalSorter_add item.1 (state_dependencies item.2))) cls
  = (Ok tt,
     with_graph
       (set_node2info
          (build_graph registry (_node2info (__onward_operation_graph__ cls)))
          (__onward_operation_graph__ cls)) cls).
Proof.
  revert cls. induction registry as [|item registry IH]; intros cls Hr.
  - simpl. unfold mret, M_ret. f_equal. by destruct cls as [? ? ? []].
  - cbn [for_each]. unfold mbind, M_bind at 1.
    unfold on_graph at 1. rewrite TopologicalSorter_add_eq by done.
    cbn [fst snd]. fold (with_graph
      (set_node2info (add_node2info item.1 (state_dependencies item.2)
                        (_node2info (__onward_operation_graph__ cls)))
         (__onward_operation_graph__ cls)) cls).
    rewrite IH by done. done.
Qed.

Lemma Plan_init_eq cls :
  _ready_nodes (__onward_operation_graph__ cls) = None ->
  Plan_init cls
  = let g := prepared
               (set_node2info
                  (build_graph (__onward_operations__ cls)
                     (_node2info (__onward_operation_graph__ cls)))
                  (__onward_operation_graph__ cls)) in
    (if _find_cycle g then Raise CycleError else Ok tt, with_graph g cls).
Proof.
  intros Hr. unfold Plan_init, mbind, M_bind. rewrite add_loop_eq by done.
  unfold on_graph. cbn [__onward_operation_graph__ with_graph].
  rewrite TopologicalSorter_prepare_eq by done. cbn [fst snd].
  by destruct (_find_cycle _).
Qed.

Lemma Plan_init_prepared cls :
  _ready_nodes (__onward_operation_graph__ cls) <> None ->
  __onward_operations__ cls <> [] ->
  Plan_init cls
  = (Raise (ValueError "Nodes cannot be added after a call to prepare()"), cls).
Proof.
  intros Hr Hne. unfold Plan_init.
  destruct (__onward_operations__ cls) as [|item registry] eqn:Hreg; [done|].
  cbn [for_each]. unfold mbind, M_bind. unfold on_graph at 1.
  rewrite TopologicalSorter_add_prepared by done. cbn [fst snd].
  f_equal. destruct cls. simpl in *. by rewrite Hreg.
Qed.

Lemma prepared_ready n2i :
  NoDup (dict_keys n2i) ->
  (forall k i, dict_get n2i k = Some i -> node i = k) ->
  NoDup (map node (filter (fun i => npredecessors i = 0%Z) (dict_values n2i)))
  /\ forall n,
       n ∈ map node (filter (fun i => npredecessors i = 0%Z) (dict_values n2i))
       <-> exists i, dict_get n2i n = Some i /\ npredecessors i = 0%Z.
Proof.
  intros Hnd Hnode.
  assert (Hnode' : forall e, e ∈ n2i -> node e.2 = e.1).
  { intros [k i] Hin. apply Hnode. by apply dict_get_elem. }
  assert (Heq : map node (filter (fun i => npredecessors i = 0%Z)
                            (dict_values n2i))
                = dict_keys (filter (fun e => npredecessors e.2 = 0%Z) n2i)).
  { clear Hnd Hnode. unfold dict_values, dict_keys.
    induction n2i as [|[k i] n2i IH]; [done|].
    assert (IH' := IH (fun e He => Hnode' e (list_elem_of_further _ _ _ He))).
    rewrite fmap_cons, !filter_cons. cbn [snd].
    destruct (decide (npredecessors i = 0%Z)) as [Hz|Hz]; [|done].
    rewrite fmap_cons, map_cons.
    f_equal; [apply (Hnode' (k, i)), list_elem_of_here | exact IH']. }
  rewrite Heq. split.
  - clear Heq Hnode Hnode'. unfold dict_keys in *.
    induction n2i as [|[k i] n2i IH]; [apply NoDup_nil_2|].
    simpl in Hnd. apply NoDup_cons in Hnd as [Hk Hnd].
    rewrite filter_cons. case_decide; [|by apply IH].
    simpl. apply NoDup_cons. split; [|by apply IH].
    intros Hin. apply Hk. apply list_elem_of_fmap in Hin as [[k' i'] [-> Hin]].
    apply list_elem_of_filter in Hin as [_ Hin].
    apply list_elem_of_fmap. by exists (k', i').
  - intros n. unfold dict_keys. rewrite list_elem_of_fmap. split.
    + intros [[k i] [-> [Hz Hin]%list_elem_of_filter]]. exists i.
      split; [by apply dict_get_elem|done].
    + intros (i & Hg & Hz). exists (n, i). split; [done|].
      apply list_elem_of_filter. split; [done|]. by apply dict_get_elem.
Qed.

Lemma prepared_sorter_inv target g :
  building target 0 (_node2info g) ->
  _npassedout g = 0 -> _nfinished g = 0 ->
  sorter_inv (prepared g).
Proof.
  intros Hb Hp Hf. apply (building_zero _ (ByName "")) in Hb.
  pose proof Hb as [Hinv Hpos]. pose proof Hinv as (Hnd & Hnode & _).
  split; [done|]. split.
  - eexists. split; [done|]. by apply prepared_ready.
  - simpl. rewrite Hp, Hf. symmetry. apply weigh_zero; [done|].
    intros k i Hk. unfold passed_out.
    rewrite bool_decide_eq_false_2; [done|].
    specialize (Hpos k i Hk). unfold _NODE_OUT. lia.
Qed.

End Construction.

Section ClassGraph.
Context {W X : Type}.
Implicit Types (cls : @PlanClass W X).

(** C8 (amended).  The graph belongs to the Plan class, which is created
    with an empty one.  Constructing the first instance leaves registry,
    results and executor alone, fills the graph from the whole registry,
    every key of the registry and every state-type dependency being a node
    and the edges being exactly those from a state-type dependency of a
    descriptor to the descriptor's key, none from the context, and prepares
    it; it fails only with CycleError.  A further construction on the same
    class meets the prepared graph again, not a fresh one, and with a
    non-empty registry fails because nodes cannot be added any more. *)
Theorem Plan_init_builds_class_graph cls :
  __onward_operation_graph__ cls = TopologicalSorter_new ->
  let first := Plan_init cls in
  let g := __onward_operation_graph__ first.2 in
  (first.1 = Ok tt \/ first.1 = Raise CycleError)
  /\ first.2 = with_graph g cls
  /\ _ready_nodes g <> None
  /\ (forall p s, has_edge (_node2info g) p s
                  <-> exists op, (s, op) ∈ __onward_operations__ cls
                                 /\ p ∈ state_dependencies op)
  /\ (forall k, k ∈ dict_keys (_node2info g)
                <-> k ∈ dict_keys (__onward_operations__ cls)
                    \/ exists s op, (s, op) ∈ __onward_operations__ cls
                                    /\ k ∈ state_dependencies op)
  /\ (forall p s, has_edge (_node2info g) p s ->
                  exists t, p = ByType t /\ issubclass_State t = true)
  /\ (__onward_operations__ cls <> [] ->
      Plan_init first.2
      = (Raise (ValueError "Nodes cannot be added after a call to prepare()"),
         first.2)).
Proof.
  intros Hnew. simpl.
  rewrite Plan_init_eq by (by rewrite Hnew). rewrite Hnew. simpl.
  destruct (build_graph_shape (__onward_operations__ cls) []) as [Hedges Hkeys].
  assert (Hedges' : forall p s,
    has_edge (build_graph (__onward_operations__ cls) []) p s
    <-> exists op, (s, op) ∈ __onward_operations__ cls
                   /\ p ∈ state_dependencies op).
  { intros p s. rewrite Hedges. split; [|by right].
    intros [(i & Hi & _)|?]; done. }
  split; [by destruct (_find_cycle _); [right|left]|].
  split; [done|]. split; [done|]. split; [done|].
  split.
  { intros k. rewrite Hkeys. split; [|by right].
    intros [?%elem_of_nil|?]; done. }
  split.
  { intros p s (op & _ & Hp)%Hedges'. unfold state_dependencies in Hp.
    apply list_elem_of_fmap in Hp as (t & -> & Ht).
    apply list_elem_of_filter in Ht as [Ht _]. by exists t. }
  intros Hne. by apply Plan_init_prepared.
Qed.

End ClassGraph.

Lemma Plan_init_builds_class_graph_witness :
  _ready_nodes (__onward_operation_graph__ (Plan_init AddUsers_class).2) <> None
  /\ Plan_init (Plan_init AddUsers_class).2
     = (Raise (ValueError "Nodes cannot be added after a call to prepare()"),
        (Plan_init AddUsers_class).2).
Proof.
  pose proof (Plan_init_builds_class_graph AddUsers_class eq_refl)
    as (_ & _ & Hready & _ & _ & _ & Hsecond).
  split; [exact Hready|]. apply Hsecond. discriminate.
Defined.

(** C8, as stated, fails: the first [AddUsers()] succeeds, the second one
    raises ValueError from [add], because both work on the one graph of the
    class, which the first has prepared. *)
Lemma Plan_init_second_instance_counterexample :
  (Plan_init AddUsers_class).1 = Ok tt
  /\ (Plan_init (Plan_init AddUsers_class).2).1
     = Raise (ValueError "Nodes cannot be added after a call to prepare()")
  /\ __onward_operation_graph__ (Plan_init (Plan_init AddUsers_class).2).2
     = __onward_operation_graph__ (Plan_init AddUsers_class).2.
Proof. repeat split; vm_compute; reflexivity. Qed.

(** ** [get_ready] and [done] keep the bookkeeping right *)

Section Marking.
Implicit Types (n2i : list (OutputKey * _NodeInfo)) (i : _NodeInfo).
Implicit Types (k n p s : OutputKey) (v : Z) (g : TopologicalSorter).

Lemma graph_inv_with_zero n2i :
  graph_inv n2i <-> graph_inv_with (fun _ => 0) n2i.
Proof.
  unfold graph_inv, graph_inv_ahead, graph_inv_with.
  split; intros (Hnd & Hnode & Hclosed & Hcount); repeat (split; [done|]);
    intros k i Hk; destruct (Hcount k i Hk) as [Hc|Hc].
  - left. rewrite Hc. by case_decide.
  - right. tauto.
  - left. rewrite Hc. by case_decide.
  - right. tauto.
Qed.

Lemma node2info_key n2i k i : dict_get n2i k = Some i -> k ∈ dict_keys n2i.
Proof. intros Hk. apply (proj1 (dict_get_is_Some_keys n2i k)). by eexists. Qed.

Lemma same_edges_refl n2i : same_edges n2i n2i.
Proof. done. Qed.

Lemma same_edges_trans n2i1 n2i2 n2i3 :
  same_edges n2i1 n2i2 -> same_edges n2i2 n2i3 -> same_edges n2i1 n2i3.
Proof.
  intros [Hk1 He1] [Hk2 He2]. split; [congruence|].
  intros k. by rewrite He1.
Qed.

Lemma same_edges_set n2i n i v :
  dict_get n2i n = Some i ->
  same_edges n2i (dict_set n2i n (set_npredecessors v i)).
Proof.
  intros Hn. split.
  - symmetry. apply dict_keys_set_in. by eapply node2info_key.
  - intros k. rewrite dict_get_set.
    destruct (decide (n = k)) as [<-|]; [|done]. by rewrite Hn.
Qed.

Lemma same_edges_has_edge n2i n2i' p s :
  same_edges n2i n2i' -> has_edge n2i p s -> has_edge n2i' p s.
Proof.
  intros [_ He] (i & Hp & Hs). specialize (He p). rewrite Hp in He.
  destruct (dict_get n2i' p) as [i'|] eqn:Hp'; simpl in He; [|done].
  exists i'. split; [done|]. by injection He as <-.
Qed.

Lemma shape_set n2i n i v :
  dict_get n2i n = Some i ->
  NoDup (dict_keys n2i)
  /\ (forall k i, dict_get n2i k = Some i -> node i = k)
  /\ (forall k i s, dict_get n2i k = Some i -> s ∈ successors i ->
                    s ∈ dict_keys n2i) ->
  let n2i' := dict_set n2i n (set_npredecessors v i) in
  NoDup (dict_keys n2i')
  /\ (forall k i, dict_get n2i' k = Some i -> node i = k)
  /\ (forall k i s, dict_get n2i' k = Some i -> s ∈ successors i ->
                    s ∈ dict_keys n2i').
Proof.
  intros Hn (Hnd & Hnode & Hclosed). simpl.
  assert (Hkeys : dict_keys (dict_set n2i n (set_npredecessors v i))
                  = dict_keys n2i).
  { apply dict_keys_set_in. by eapply node2info_key. }
  rewrite Hkeys. split; [done|]. split.
  - intros k i'. rewrite dict_get_set.
    destruct (decide (n = k)) as [<-|]; [|apply Hnode].
    intros [= <-]. simpl. by apply Hnode.
  - intros k i' s. rewrite dict_get_set.
    destruct (decide (n = k)) as [<-|]; [|apply Hclosed].
    intros [= <-]. simpl. intros Hs. by eapply Hclosed.
Qed.

Lemma pending_set_same n2i n i v k :
  dict_get n2i n = Some i ->
  npredecessors i <> _NODE_DONE -> v <> _NODE_DONE ->
  pending (dict_set n2i n (set_npredecessors v i)) k = pending n2i k.
Proof.
  intros Hn Hi Hv. unfold pending.
  pose proof (weigh_set_Some (contribution k) n2i n i
                (set_npredecessors v i) Hn) as Hw.
  assert (contribution k (set_npredecessors v i) = contribution k i) as Hc.
  { unfold contribution. simpl. by rewrite !bool_decide_eq_false_2. }
  lia.
Qed.

Lemma pending_set_done n2i n i k :
  dict_get n2i n = Some i ->
  npredecessors i <> _NODE_DONE ->
  pending (dict_set n2i n (set_npredecessors _NODE_DONE i)) k
  + occurrences k (successors i)
  = pending n2i k.
Proof.
  intros Hn Hi. unfold pending.
  pose proof (weigh_set_Some (contribution k) n2i n i
                (set_npredecessors _NODE_DONE i) Hn) as Hw.
  assert (contribution k (set_npredecessors _NODE_DONE i) = 0) as Hc.
  { reflexivity. }
  assert (contribution k i = occurrences k (successors i)) as Hc'.
  { unfold contribution. by rewrite bool_decide_eq_false_2. }
  lia.
Qed.

Lemma passed_out_set n2i n i v :
  dict_get n2i n = Some i ->
  weigh passed_out (dict_set n2i n (set_npredecessors v i)) + passed_out i
  = weigh passed_out n2i + if bool_decide (v = _NODE_OUT) then 1 else 0.
Proof. intros Hn. by apply (weigh_set_Some passed_out). Qed.

(** One node of the ready list is marked as passed out. *)
Lemma graph_inv_mark_out n2i n i :
  graph_inv n2i ->
  dict_get n2i n = Some i -> npredecessors i = 0%Z ->
  graph_inv (dict_set n2i n (set_npredecessors _NODE_OUT i)).
Proof.
  intros Hinv Hn Hz. pose proof Hinv as (Hnd & Hnode & Hclosed & Hcount).
  assert (Hpend : forall k,
    pending (dict_set n2i n (set_npredecessors _NODE_OUT i)) k = pending n2i k).
  { intros k. apply pending_set_same; [done| |done]. rewrite Hz. done. }
  destruct (shape_set n2i n i _NODE_OUT Hn) as (? & ? & ?); [done|].
  split; [done|]. split; [done|]. split; [done|].
  intros k i'. rewrite dict_get_set, Hpend.
  destruct (decide (n = k)) as [<-|]; [|apply Hcount].
  intros [= <-]. right. simpl. split; [|by left].
  destruct (Hcount n i Hn) as [Hc|[_ [Hc|Hc]]]; [|by rewrite Hz in Hc..].
  rewrite Hz in Hc. case_decide; lia.
Qed.

End Marking.

Section GetReady.
Implicit Types (n2i : list (OutputKey * _NodeInfo)) (i : _NodeInfo).
Implicit Types (k n p s : OutputKey) (v : Z) (g : TopologicalSorter).

Lemma assign_npredecessors_eq v n g i :
  dict_get (_node2info g) n = Some i ->
  assign_npredecessors v n g
  = (Ok tt, set_node2info
              (dict_set (_node2info g) n (set_npredecessors v i)) g).
Proof. intros Hn. unfold assign_npredecessors. by rewrite Hn. Qed.

(** The loop of [get_ready]. *)
Lemma mark_ready_loop l g :
  graph_inv (_node2info g) -> NoDup l ->
  (forall n, n ∈ l ->
             exists i, dict_get (_node2info g) n = Some i
                       /\ npredecessors i = 0%Z) ->
  exists n2i',
    for_each l (assign_npredecessors _NODE_OUT) g = (Ok tt, set_node2info n2i' g)
    /\ graph_inv n2i'
    /\ same_edges (_node2info g) n2i'
    /\ (forall k, dict_get n2i' k
                  = if decide (k ∈ l)
                    then set_npredecessors _NODE_OUT <$> dict_get (_node2info g) k
                    else dict_get (_node2info g) k)
    /\ weigh passed_out n2i' = weigh passed_out (_node2info g) + length l.
Proof.
  revert g. induction l as [|n l IH]; intros g Hinv Hnd Hl.
  - exists (_node2info g). split; [by destruct g|]. split; [done|].
    split; [done|]. split; [|simpl; lia].
    intros k. rewrite decide_False; [done|apply not_elem_of_nil].
  - apply NoDup_cons in Hnd as [Hn Hnd].
    destruct (Hl n (list_elem_of_here _ _)) as (i & Hi & Hz).
    set (g1 := set_node2info
                 (dict_set (_node2info g) n (set_npredecessors _NODE_OUT i)) g).
    destruct (IH g1) as (n2i' & Hloop & Hinv' & Hedges & Hget & Hout).
    { by apply graph_inv_mark_out. }
    { done. }
    { intros m Hm. destruct (Hl m (list_elem_of_further _ _ _ Hm))
        as (im & Him & Hzm).
      exists im. split; [|done]. simpl. rewrite dict_get_set.
      rewrite decide_False; [done|]. intros ->. done. }
    exists n2i'. split; [|split; [done|split; [|split]]].
    + cbn [for_each]. unfold mbind, M_bind.
      rewrite (assign_npredecessors_eq _ _ _ i) by done. fold g1.
      by rewrite Hloop.
    + eapply same_edges_trans; [|exact Hedges]. by apply same_edges_set.
    + intros k. rewrite Hget. simpl. rewrite dict_get_set.
      destruct (decide (n = k)) as [<-|Hne].
      * rewrite (decide_False (P := n ∈ l)) by done.
        rewrite decide_True by apply list_elem_of_here. by rewrite Hi.
      * destruct (decide (k ∈ l)) as [Hkl|Hkl].
        -- by rewrite decide_True by by apply list_elem_of_further.
        -- rewrite decide_False; [done|].
           intros [?|?]%elem_of_cons; [congruence|done].
    + rewrite Hout. simpl.
      pose proof (passed_out_set (_node2info g) n i _NODE_OUT Hi) as Hp.
      unfold passed_out in Hp at 2. rewrite Hz in Hp. simpl in Hp. lia.
Qed.

Lemma TopologicalSorter_get_ready_spec g :
  sorter_inv g ->
  exists ready n2i',
    _ready_nodes g = Some ready
    /\ NoDup ready
    /\ (forall n, n ∈ ready
                  <-> exists i, dict_get (_node2info g) n = Some i
                                /\ npredecessors i = 0%Z)
    /\ TopologicalSorter_get_ready g
       = (Ok ready,
          {| _node2info := n2i'; _ready_nodes := Some [];
             _npassedout := _npassedout g + length ready;
             _nfinished := _nfinished g |})
    /\ sorter_inv {| _node2info := n2i'; _ready_nodes := Some [];
                     _npassedout := _npassedout g + length ready;
                     _nfinished := _nfinished g |}
    /\ same_edges (_node2info g) n2i'
    /\ (forall k, dict_get n2i' k
                  = if decide (k ∈ ready)
                    then set_npredecessors _NODE_OUT <$> dict_get (_node2info g) k
                    else dict_get (_node2info g) k).
Proof.
  intros (Hinv & (ready & Hready & Hnd & Hmem) & Hcount).
  destruct (mark_ready_loop ready g Hinv Hnd) as (n2i' & Hloop & Hinv' & Hedges & Hget & Hout).
  { intros n. apply Hmem. }
  exists ready, n2i'. split; [done|]. split; [done|]. split; [done|].
  split; [|split; [|done]].
  - unfold TopologicalSorter_get_ready. by rewrite Hready, Hloop.
  - split; [done|]. split.
    + exists []. split; [done|]. split; [apply NoDup_nil_2|].
      intros n. simpl. split; [by intros ?%elem_of_nil|].
      intros (i' & Hi' & Hz). rewrite Hget in Hi'.
      destruct (decide (n ∈ ready)) as [Hn|Hn].
      * destruct (dict_get (_node2info g) n); simpl in Hi'; [|done].
        injection Hi' as <-. done.
      * exfalso. apply Hn, Hmem. by exists i'.
    + simpl. rewrite Hout. lia.
Qed.

End GetReady.

Section Done.
Implicit Types (n2i : list (OutputKey * _NodeInfo)) (i : _NodeInfo).
Implicit Types (k n p s : OutputKey) (v : Z) (g : TopologicalSorter).

Lemma occurrences_cons k s rest :
  occurrences k (s :: rest)
  = (if decide (s = k) then 1 else 0) + occurrences k rest.
Proof.
  unfold occurrences. rewrite filter_cons. by case_decide.
Qed.

Lemma status_set n2i n i v k :
  dict_get n2i n = Some i ->
  status (dict_set n2i n (set_npredecessors v i)) k
  = if decide (n = k) then Some (Z.min 0 v) else status n2i k.
Proof.
  intros Hn. unfold status. rewrite dict_get_set. by case_decide.
Qed.

(** One turn of the loop of [done]. *)
Lemma release_step s rest g :
  graph_inv_with (fun k => occurrences k (s :: rest)) (_node2info g) ->
  ready_inv g ->
  s ∈ dict_keys (_node2info g) ->
  exists g',
    release s g = (Ok tt, g')
    /\ graph_inv_with (fun k => occurrences k rest) (_node2info g')
    /\ ready_inv g'
    /\ same_edges (_node2info g) (_node2info g')
    /\ (forall k, status (_node2info g') k = status (_node2info g) k)
    /\ weigh passed_out (_node2info g') = weigh passed_out (_node2info g)
    /\ _npassedout g' = _npassedout g
    /\ _nfinished g' = _nfinished g.
Proof.
  intros Hinv (ready & Hready & Hnd & Hmem) Hs.
  pose proof Hinv as (Hndk & Hnode & Hclosed & Hcount).
  apply dict_get_is_Some_keys in Hs as [si Hsi].
  assert (Hn : npredecessors si
               = Z.of_nat (pending (_node2info g) s + S (occurrences s rest))).
  { destruct (Hcount s si Hsi) as [Hc|(_ & Hc & _)].
    - rewrite Hc, occurrences_cons, decide_True by done; try (f_equal; lia).
    - rewrite occurrences_cons, decide_True in Hc by done. lia. }
  set (n' := (npredecessors si - 1)%Z).
  set (n2i' := dict_set (_node2info g) s (set_npredecessors n' si)).
  assert (Hpend : forall k, pending n2i' k = pending (_node2info g) k).
  { intros k. apply pending_set_same; [done|..]; unfold _NODE_DONE; lia. }
  eexists. split; [unfold release; rewrite Hsi; reflexivity|].
  fold n' n2i'. cbn [_node2info _ready_nodes _npassedout _nfinished].
  destruct (shape_set (_node2info g) s si n' Hsi) as (? & ? & ?); [done|].
  split; [|split; [|split; [|split; [|split]]]].
  - split; [done|]. split; [done|]. split; [done|].
    intros k i. unfold n2i'. rewrite dict_get_set. fold n2i'. rewrite Hpend.
    destruct (decide (s = k)) as [<-|Hne].
    + intros [= <-]. left. simpl. unfold n'. lia.
    + intros Hk. specialize (Hcount k i Hk).
      rewrite occurrences_cons, decide_False in Hcount by done. done.
  - exists (if bool_decide (n' = 0%Z) then ready ++ [s] else ready).
    split; [by rewrite Hready; case_bool_decide|].
    assert (Hsr : s ∉ ready).
    { intros (i & Hi & Hz)%Hmem. simplify_eq. lia. }
    split.
    + case_bool_decide; [|done]. apply NoDup_app. split; [done|].
      split; [|apply NoDup_singleton].
      intros x Hx ->%list_elem_of_singleton. done.
    + intros k. cbn [_node2info]. unfold n2i'. rewrite dict_get_set.
      destruct (decide (s = k)) as [<-|Hne].
      * case_bool_decide as Hz.
        -- split; [|intros _; apply elem_of_app; right; apply list_elem_of_here].
           intros _. eexists. split; [done|]. done.
        -- split; [done|]. intros (i & [= <-] & Hz'). done.
      * rewrite <- Hmem. case_bool_decide; [|done].
        rewrite elem_of_app, list_elem_of_singleton. split; [|by left].
        intros [?|?]; [done|congruence].
  - by apply same_edges_set.
  - intros k. unfold n2i'. rewrite status_set by done.
    destruct (decide (s = k)) as [<-|]; [|done].
    unfold status. rewrite Hsi. simpl. f_equal. unfold n'. lia.
  - pose proof (passed_out_set (_node2info g) s si n' Hsi) as Hp.
    fold n2i' in Hp. unfold passed_out in Hp at 2.
    rewrite bool_decide_eq_false_2 in Hp by (unfold _NODE_OUT; lia).
    rewrite bool_decide_eq_false_2 in Hp by (unfold _NODE_OUT, n'; lia).
    lia.
  - done.
Qed.

Lemma release_loop rest g :
  graph_inv_with (fun k => occurrences k rest) (_node2info g) ->
  ready_inv g ->
  (forall s, s ∈ rest -> s ∈ dict_keys (_node2info g)) ->
  exists g',
    for_each rest release g = (Ok tt, g')
    /\ graph_inv_with (fun _ => 0) (_node2info g')
    /\ ready_inv g'
    /\ same_edges (_node2info g) (_node2info g')
    /\ (forall k, status (_node2info g') k = status (_node2info g) k)
    /\ weigh passed_out (_node2info g') = weigh passed_out (_node2info g)
    /\ _npassedout g' = _npassedout g
    /\ _nfinished g' = _nfinished g.
Proof.
  revert g. induction rest as [|s rest IH]; intros g Hinv Hready Hkeys.
  - exists g. split; [done|]. split; [|done].
    destruct Hinv as (? & ? & ? & Hcount). repeat (split; [done|]).
    intros k i Hk. apply (Hcount k i Hk).
  - destruct (release_step s rest g Hinv Hready)
      as (g1 & Hrel & Hinv1 & Hready1 & Hedges1 & Hstat1 & Hout1 & Hp1 & Hf1).
    { apply Hkeys, list_elem_of_here. }
    destruct (IH g1 Hinv1 Hready1)
      as (g' & Hloop & Hinv' & Hready' & Hedges' & Hstat' & Hout' & Hp' & Hf').
    { intros s' Hs'. destruct Hedges1 as [<- _].
      by apply Hkeys, list_elem_of_further. }
    exists g'. split.
    { cbn [for_each]. unfold mbind, M_bind. by rewrite Hrel. }
    split; [done|]. split; [done|].
    split; [by eapply same_edges_trans|].
    split; [intros k; by rewrite Hstat'|].
    split; [congruence|]. split; congruence.
Qed.

End Done.

Section DoneSpec.
Implicit Types (n2i : list (OutputKey * _NodeInfo)) (i : _NodeInfo).
Implicit Types (k n p s : OutputKey) (v : Z) (g : TopologicalSorter).

(** The node passed to [done] is marked; its edges are still counted at
    their targets. *)
Lemma graph_inv_mark_done n2i n i :
  graph_inv n2i ->
  dict_get n2i n = Some i -> npredecessors i = _NODE_OUT ->
  graph_inv_with (fun k => occurrences k (successors i))
    (dict_set n2i n (set_npredecessors _NODE_DONE i)).
Proof.
  intros Hinv Hn Hout. pose proof Hinv as (Hnd & Hnode & Hclosed & Hcount).
  assert (Hpend : forall k,
    pending (dict_set n2i n (set_npredecessors _NODE_DONE i)) k
    + occurrences k (successors i) = pending n2i k).
  { intros k. apply pending_set_done; [done|]. by rewrite Hout. }
  destruct (shape_set n2i n i _NODE_DONE Hn) as (? & ? & ?); [done|].
  split; [done|]. split; [done|]. split; [done|].
  intros k i'. rewrite dict_get_set. specialize (Hpend k).
  destruct (decide (n = k)) as [<-|Hne].
  - intros [= <-]. right. simpl.
    destruct (Hcount n i Hn) as [Hc|[Hc _]].
    + rewrite Hout in Hc. unfold _NODE_OUT in Hc. lia.
    + split; [lia|]. split; [lia|]. by right.
  - intros Hk. destruct (Hcount k i' Hk) as [Hc|[Hc Hs]].
    + left. rewrite Hc. f_equal. case_decide; lia.
    + right. split; [lia|]. split; [lia|done].
Qed.

Lemma TopologicalSorter_done_spec n g :
  sorter_inv g ->
  (exists g',
      TopologicalSorter_done n g = (Ok tt, g')
      /\ status (_node2info g) n = Some _NODE_OUT
      /\ sorter_inv g'
      /\ same_edges (_node2info g) (_node2info g')
      /\ forall k, status (_node2info g') k
                   = if decide (n = k) then Some _NODE_DONE
                     else status (_node2info g) k)
  \/ (status (_node2info g) n <> Some _NODE_OUT
      /\ exists e, TopologicalSorter_done n g = (Raise e, g)).
Proof.
  intros (Hinv & Hready & Hcount).
  pose proof Hready as (ready & Hr & _).
  unfold TopologicalSorter_done. rewrite Hr.
  destruct (dict_get (_node2info g) n) as [nodeinfo|] eqn:Hn.
  2: { right. unfold status. rewrite Hn. split; [done|]. by eexists. }
  case_bool_decide as Hstat.
  { right. split.
    - unfold status. rewrite Hn. simpl. intros [= Hmin].
      unfold _NODE_OUT in *. lia.
    - repeat case_bool_decide; by eexists. }
  left.
  unfold mbind, M_bind.
  rewrite (assign_npredecessors_eq _ _ _ nodeinfo) by done.
  set (g1 := set_node2info
               (dict_set (_node2info g) n
                  (set_npredecessors _NODE_DONE nodeinfo)) g).
  destruct (release_loop (successors nodeinfo) g1)
    as (g2 & Hloop & Hinv2 & Hready2 & Hedges2 & Hstat2 & Hout2 & Hp2 & Hf2).
  { by apply graph_inv_mark_done. }
  { destruct Hready as (r & Hr' & Hnd & Hmem). exists r.
    split; [done|]. split; [done|]. intros m. rewrite Hmem. simpl.
    rewrite dict_get_set. destruct (decide (n = m)) as [<-|]; [|done].
    split.
    - intros (i & Hi & Hz). simplify_eq. rewrite Hstat in Hz. done.
    - intros (i & [= <-] & Hz). done. }
  { intros s Hs. simpl. rewrite dict_keys_set_in by by eapply node2info_key.
    destruct Hinv as (_ & _ & Hclosed & _). by eapply Hclosed. }
  rewrite Hloop. eexists. split; [reflexivity|].
  split; [unfold status; rewrite Hn; simpl; by rewrite Hstat|].
  split; [|split].
  - split; [by apply graph_inv_with_zero|]. split.
    + destruct Hready2 as (r & ? & ? & ?). by exists r.
    + simpl. rewrite Hp2, Hf2, Hout2. simpl.
      pose proof (passed_out_set (_node2info g) n nodeinfo _NODE_DONE Hn) as Hp.
      unfold passed_out in Hp at 2. rewrite Hstat in Hp. simpl in Hp. lia.
  - simpl. eapply same_edges_trans; [|exact Hedges2]. by apply same_edges_set.
  - intros k. simpl. rewrite Hstat2. simpl. by rewrite status_set.
Qed.

End DoneSpec.

(** ** The run *)

Section Traces.
Context {W : Type}.
Implicit Types (tr es : list (@event W)) (operation : @OperationType W).

Lemma surfaced_app tr es : surfaced (tr ++ es) = surfaced tr ++ surfaced es.
Proof.
  induction tr as [|e tr IH]; [done|].
  destruct e; simpl; rewrite IH; by rewrite ?app_assoc.
Qed.

Lemma surfaced_dispatches {A} (f : A -> @OperationType W) (l : list A) :
  surfaced ((fun a => Dispatch (f a)) <$> l) = [].
Proof. induction l as [|a l IH]; [done|]. by rewrite fmap_cons. Qed.

Lemma dependencies_done_mono tr es operation :
  dependencies_done tr operation -> dependencies_done (tr ++ es) operation.
Proof.
  intros Hd d Hin Hs. destruct (Hd d Hin Hs) as [Hdone [v Hv]].
  split; [apply elem_of_app; by left|].
  exists v. apply elem_of_app. by left.
Qed.

Lemma happens_before_nil : happens_before (@nil (@event W)).
Proof. intros before operation after Heq. by destruct before. Qed.

Lemma happens_before_app tr es :
  happens_before tr ->
  (forall operation, Dispatch operation ∈ es -> dependencies_done tr operation) ->
  happens_before (tr ++ es).
Proof.
  intros Htr Hes before operation after Heq.
  apply app_eq_app in Heq as [l [[-> Heq]|[-> Heq]]].
  - destruct l as [|e l].
    + rewrite app_nil_r in Hes. simpl in Heq. apply Hes. rewrite <- Heq.
      apply list_elem_of_here.
    + injection Heq as <- ->. by eapply Htr.
  - apply dependencies_done_mono. apply Hes. rewrite Heq.
    apply elem_of_app. right. apply list_elem_of_here.
Qed.

Lemma happens_before_quiet tr es :
  happens_before tr ->
  (forall operation, Dispatch operation ∉ es) ->
  happens_before (tr ++ es).
Proof.
  intros Htr Hes. apply happens_before_app; [done|].
  intros operation Hin. by apply Hes in Hin.
Qed.

End Traces.

Section RunSteps.
Context {W X : Type} `{!@Executor W X}.
Implicit Types (r : @Run W X) (self : pyvalue) (g : TopologicalSorter).
Implicit Types (registry : @Registry W) (n2i : list (OutputKey * _NodeInfo)).
Implicit Types (k n state : OutputKey).

Lemma TopologicalSorter_get_ready_status g :
  sorter_inv g ->
  exists ready g',
    TopologicalSorter_get_ready g = (Ok ready, g')
    /\ sorter_inv g'
    /\ same_edges (_node2info g) (_node2info g')
    /\ NoDup ready
    /\ (forall k, k ∈ ready -> status (_node2info g) k = Some 0%Z)
    /\ (forall k, status (_node2info g') k
                  = if decide (k ∈ ready) then Some _NODE_OUT
                    else status (_node2info g) k).
Proof.
  intros Hinv.
  destruct (TopologicalSorter_get_ready_spec g Hinv)
    as (ready & n2i' & _ & Hnd & Hmem & Heq & Hinv' & Hedges & Hget).
  eexists ready, _. split; [exact Heq|]. split; [done|]. split; [done|].
  split; [done|]. split.
  - intros k (i & Hi & Hz)%Hmem. unfold status. rewrite Hi. simpl.
    by rewrite Hz.
  - intros k. unfold status. simpl. rewrite Hget.
    destruct (decide (k ∈ ready)) as [Hk|Hk]; [|done].
    apply Hmem in Hk as (i & Hi & Hz). rewrite Hi. reflexivity.
Qed.

Lemma pending_zero_done n2i p s i :
  pending n2i s = 0 -> dict_get n2i p = Some i -> s ∈ successors i ->
  npredecessors i = _NODE_DONE.
Proof.
  intros Hz Hp Hs.
  pose proof (weigh_le (contribution s) n2i p i Hp) as Hle.
  fold (pending n2i s) in Hle. unfold contribution in Hle.
  case_bool_decide; [done|].
  assert (occurrences s (successors i) <> 0) by by intros ?%occurrences_zero.
  lia.
Qed.

Lemma out_dependencies_done registry n2i0 r state operation :
  run_inv registry n2i0 r ->
  edges_of registry n2i0 ->
  status (_node2info (graph_of r)) state = Some _NODE_OUT ->
  dict_get registry state = Some operation ->
  dependencies_done (events r) operation.
Proof.
  intros (Hsorter & Hedges & _ & Hdone & Hrec & _) Hstatic Hout Hop d Hd Hs.
  destruct Hsorter as ((_ & _ & _ & Hcount) & _).
  unfold status in Hout.
  destruct (dict_get (_node2info (graph_of r)) state) as [i|] eqn:Hi; [|done].
  simpl in Hout. injection Hout as Hout.
  assert (Hpend : pending (_node2info (graph_of r)) state = 0).
  { destruct (Hcount state i Hi) as [Hc|[Hc _]]; [|done].
    unfold _NODE_OUT in Hout. lia. }
  pose proof (Hstatic state operation d Hop Hd Hs) as Hedge.
  apply (same_edges_has_edge _ _ _ _ Hedges) in Hedge as (id & Hid & Hin).
  pose proof (pending_zero_done _ _ _ _ Hpend Hid Hin) as Hdd.
  assert (Hst : status (_node2info (graph_of r)) (ByType d) = Some _NODE_DONE).
  { unfold status. rewrite Hid. simpl. by rewrite Hdd. }
  split; [by apply Hdone|]. apply Hrec; [by apply Hdone|done].
Qed.

Lemma build_partials_spec (cls : @PlanClass W X) self nodes
    sync_partials async_partials sync_partials' async_partials' :
  build_partials cls self nodes sync_partials async_partials
  = Ok (sync_partials', async_partials') ->
  (forall p, p ∈ sync_partials' ->
             p ∈ sync_partials
             \/ exists state, state ∈ nodes
                  /\ dict_get (__onward_operations__ cls) state
                     = Some (SyncOperation (func p.1)))
  /\ (forall c, c ∈ async_partials' ->
                c ∈ async_partials
                \/ exists state, state ∈ nodes
                     /\ dict_get (__onward_operations__ cls) state
                        = Some (AsyncOperation (cr_self c.1))).
Proof.
  revert sync_partials async_partials.
  induction nodes as [|state nodes IH]; intros sync_partials async_partials Hb.
  - simpl in Hb. injection Hb as <- <-. split; intros; by left.
  - cbn [build_partials] in Hb. unfold dict_getitem in Hb.
    destruct (dict_get (__onward_operations__ cls) state) as [operation|] eqn:Hop;
      [|done].
    simpl in Hb.
    destruct (resolve_args _ self _) as [args|]; simpl in Hb; [|done].
    destruct operation as [o|o].
    + unfold SyncOperation_call in Hb.
      destruct (bind_by_type (hint_map o) args []) as [kwargs|]; simpl in Hb;
        [|done].
      apply IH in Hb as [Hsync Hasync]. split.
      * intros p [[Hp|Hp%list_elem_of_singleton]%elem_of_app|(st & Hst & Hg)]%Hsync.
        -- by left.
        -- right. exists state. subst p. split; [apply list_elem_of_here|done].
        -- right. exists st. split; [by apply list_elem_of_further|done].
      * intros c [Hc|(st & Hst & Hg)]%Hasync; [by left|].
        right. exists st. split; [by apply list_elem_of_further|done].
    + unfold AsyncOperation_call in Hb.
      destruct (bind_by_type (hint_map o) args []) as [kwargs|]; simpl in Hb;
        [|done].
      apply IH in Hb as [Hsync Hasync]. split.
      * intros p [Hp|(st & Hst & Hg)]%Hsync; [by left|].
        right. exists st. split; [by apply list_elem_of_further|done].
      * intros c [[Hc|Hc%list_elem_of_singleton]%elem_of_app|(st & Hst & Hg)]%Hasync.
        -- by left.
        -- right. exists state. subst c. split; [apply list_elem_of_here|done].
        -- right. exists st. split; [by apply list_elem_of_further|done].
Qed.

End RunSteps.

Section RunInvariant.
Context {W X : Type} `{!@Executor W X}.
Implicit Types (r : @Run W X) (self : pyvalue) (g : TopologicalSorter).
Implicit Types (registry : @Registry W) (n2i : list (OutputKey * _NodeInfo)).
Implicit Types (k n state : OutputKey) (es : list (@event W)).

Local Arguments TopologicalSorter_done : simpl never.
Local Arguments TopologicalSorter_get_ready : simpl never.
Local Arguments build_partials : simpl never.
Local Arguments dict_getitem : simpl never.

Lemma run_inv_frame registry n2i0 r r' :
  graph_of r' = graph_of r -> events r' = events r ->
  __onward_operations__ (plan r') = __onward_operations__ (plan r) ->
  run_inv registry n2i0 r -> run_inv registry n2i0 r'.
Proof. unfold run_inv. by intros -> -> ->. Qed.

Lemma run_inv_events registry n2i0 r es :
  run_inv registry n2i0 r ->
  surfaced es = [] ->
  (forall operation, Dispatch operation ∈ es ->
                     dependencies_done (events r) operation) ->
  (forall k, Done k ∈ es -> is_str k = false ->
             exists v, Recorded k v ∈ events r ++ es) ->
  run_inv registry n2i0 (add_events es r).
Proof.
  intros (Hsorter & Hedges & Hreg & Hdone & Hrec & Hsurf & Hnd & Hhb)
    Hquiet Hdisp Hes.
  split; [done|]. split; [done|]. split; [done|]. simpl.
  split; [|split; [|split; [|split]]].
  - intros k Hk. apply elem_of_app. left. by apply Hdone.
  - intros k [Hk|Hk]%elem_of_app Hs; [|by apply Hes].
    destruct (Hrec k Hk Hs) as [v Hv]. exists v. apply elem_of_app. by left.
  - intros k. rewrite surfaced_app, Hquiet, app_nil_r. apply Hsurf.
  - by rewrite surfaced_app, Hquiet, app_nil_r.
  - by apply happens_before_app.
Qed.

Lemma run_inv_get_ready registry n2i0 r :
  run_inv registry n2i0 r ->
  exists ready g1,
    TopologicalSorter_get_ready (graph_of r) = (Ok ready, g1)
    /\ run_inv registry n2i0 (add_events [Ready ready] (set_graph g1 r))
    /\ forall k, k ∈ ready -> status (_node2info g1) k = Some _NODE_OUT.
Proof.
  intros (Hsorter & Hedges & Hreg & Hdone & Hrec & Hsurf & Hnd & Hhb).
  destruct (TopologicalSorter_get_ready_status _ Hsorter)
    as (ready & g1 & Heq & Hsorter1 & Hedges1 & Hndr & Hzero & Hstat).
  exists ready, g1. split; [done|]. split.
  - split; [done|]. split; [by eapply same_edges_trans|]. split; [done|].
    simpl. split; [|split; [|split; [|split]]].
    + intros k Hk. apply elem_of_app. left. apply Hdone.
      rewrite Hstat in Hk. by destruct (decide (k ∈ ready)).
    + intros k [Hk|Hk%list_elem_of_singleton]%elem_of_app Hs; [|done].
      destruct (Hrec k Hk Hs) as [v Hv]. exists v. apply elem_of_app. by left.
    + intros k. rewrite surfaced_app. simpl. rewrite app_nil_r, elem_of_app.
      rewrite Hstat, Hsurf. destruct (decide (k ∈ ready)) as [Hk|Hk].
      * split; [|by right]. intros _. by exists _NODE_OUT.
      * split; [|by left]. by intros [?|?].
    + rewrite surfaced_app. simpl. rewrite app_nil_r. apply NoDup_app.
      split; [done|]. split; [|done].
      intros k (z & Hz & Hneg)%Hsurf Hk%Hzero. rewrite Hz in Hk.
      injection Hk as ->. lia.
    + apply happens_before_quiet; [done|].
      intros operation Hin%list_elem_of_singleton. done.
  - intros k Hk. rewrite Hstat. by rewrite decide_True.
Qed.

Lemma run_inv_done registry n2i0 r key :
  run_inv registry n2i0 r ->
  (is_str key = false -> exists v, Recorded key v ∈ events r) ->
  run_inv registry n2i0
    (match (TopologicalSorter_done key (graph_of r)).1 with
     | Ok _ =>
         (Ok (),
          add_events [Done key]
            (set_graph (TopologicalSorter_done key (graph_of r)).2 r))
     | Raise e =>
         (Raise e, set_graph (TopologicalSorter_done key (graph_of r)).2 r)
     end).2.
Proof.
  intros Hinv Hkey.
  pose proof Hinv as (Hsorter & Hedges & Hreg & Hdone & Hrec & Hsurf & Hnd & Hhb).
  destruct (TopologicalSorter_done_spec key _ Hsorter)
    as [(g' & Heq & Hout & Hsorter' & Hedges' & Hstat)|(_ & e & Heq)];
    rewrite Heq; simpl.
  2: { by rewrite run_eta. }
  split; [done|]. split; [by eapply same_edges_trans|]. split; [done|].
  simpl. split; [|split; [|split; [|split]]].
  - intros k. rewrite Hstat, elem_of_app, list_elem_of_singleton.
    destruct (decide (key = k)) as [<-|]; [by right|]. left. by apply Hdone.
  - intros k [Hk|Hk%list_elem_of_singleton]%elem_of_app Hs.
    + destruct (Hrec k Hk Hs) as [v Hv]. exists v. apply elem_of_app. by left.
    + injection Hk as ->. destruct (Hkey Hs) as [v Hv]. exists v.
      apply elem_of_app. by left.
  - intros k. rewrite surfaced_app. simpl. rewrite app_nil_r, Hstat, Hsurf.
    destruct (decide (key = k)) as [<-|]; [|done].
    rewrite Hout. split; intros _; eexists; (split; [done|]); done.
  - by rewrite surfaced_app, app_nil_r.
  - apply happens_before_quiet; [done|].
    intros operation Hin%list_elem_of_singleton. done.
Qed.

End RunInvariant.

Section LoopInvariant.
Context {W X : Type} `{!@Executor W X}.
Implicit Types (r : @Run W X) (self : pyvalue) (g : TopologicalSorter).
Implicit Types (registry : @Registry W) (n2i : list (OutputKey * _NodeInfo)).
Implicit Types (k n state : OutputKey) (es : list (@event W)).

Local Arguments TopologicalSorter_done : simpl never.
Local Arguments TopologicalSorter_get_ready : simpl never.
Local Arguments build_partials : simpl never.
Local Arguments dict_getitem : simpl never.

Lemma run_inv_set_executor registry n2i0 r x :
  run_inv registry n2i0 r -> run_inv registry n2i0 (set_executor x r).
Proof. by apply run_inv_frame. Qed.

Lemma run_inv_dispatches registry n2i0 r {A} (f : A -> @OperationType W)
    (l : list A) (nodes : list OutputKey) :
  edges_of registry n2i0 ->
  run_inv registry n2i0 r ->
  (forall k, k ∈ nodes -> status (_node2info (graph_of r)) k = Some _NODE_OUT) ->
  (forall a, a ∈ l -> exists state, state ∈ nodes
                        /\ dict_get registry state = Some (f a)) ->
  run_inv registry n2i0 (add_events ((fun a => Dispatch (f a)) <$> l) r).
Proof.
  intros Hstatic Hinv Hout Hl. apply run_inv_events; [done|..].
  - apply surfaced_dispatches.
  - intros operation (a & [= ->] & Ha)%list_elem_of_fmap.
    destruct (Hl a Ha) as (state & Hstate & Hop).
    eapply out_dependencies_done; eauto.
  - by intros k (a & ? & _)%list_elem_of_fmap.
Qed.

Lemma join_and_record_inv registry n2i0 r :
  run_inv registry n2i0 r -> run_inv registry n2i0 (join_and_record r).2.
Proof.
  intros Hinv. rewrite join_and_record_eq.
  destruct (join_next None (__onward_executor__ (plan r)))
    as [[[next_result next_state]|e] x]; cbn [fst snd];
    [|by apply run_inv_set_executor].
  pose proof (run_inv_set_executor _ _ _ x Hinv) as Hinv1.
  destruct (is_str next_state) eqn:Hs.
  - apply run_inv_done; [done|]. intros; congruence.
  - destruct (is_None next_result).
    + by destruct (dict_getitem _ _).
    + apply run_inv_done.
      * apply run_inv_events; [|done|..].
        -- revert Hinv1. by apply run_inv_frame.
        -- by intros operation ?%list_elem_of_singleton.
        -- by intros k ?%list_elem_of_singleton.
      * intros _. exists next_result. simpl. apply elem_of_app. right.
        apply list_elem_of_here.
Qed.

Lemma dispatch_inv registry n2i0 self nodes r :
  edges_of registry n2i0 ->
  run_inv registry n2i0 r ->
  (forall k, k ∈ nodes -> status (_node2info (graph_of r)) k = Some _NODE_OUT) ->
  run_inv registry n2i0 (dispatch self nodes r).2.
Proof.
  intros Hstatic Hinv Hout. rewrite dispatch_eq.
  destruct (build_partials (plan r) self nodes [] [])
    as [[sync_partials async_partials]|e] eqn:Hb; [|done].
  apply build_partials_spec in Hb as [Hsync Hasync].
  assert (Hreg : __onward_operations__ (plan r) = registry) by apply Hinv.
  rewrite Hreg in Hsync, Hasync.
  cbv zeta.
  set (r1 := add_events _ r).
  assert (Hinv1 : run_inv registry n2i0 r1).
  { apply (run_inv_dispatches _ _ _ (fun p => SyncOperation (func p.1)) _ nodes);
      [done|done|exact Hout|].
    intros p [?%elem_of_nil|?]%Hsync; done. }
  destruct (add_operations sync_partials (__onward_executor__ (plan r1)))
    as [[|e] x]; cbn [fst snd]; [|by apply run_inv_set_executor].
  case_bool_decide; [|by apply run_inv_set_executor].
  apply run_inv_set_executor.
  apply (run_inv_dispatches _ _ _ (fun c => AsyncOperation (cr_self c.1)) _ nodes).
  - done.
  - by apply run_inv_set_executor.
  - exact Hout.
  - intros c [?%elem_of_nil|?]%Hasync; done.
Qed.

(** One turn of the loop keeps the invariant. *)
Lemma loop_body_inv registry n2i0 self r :
  edges_of registry n2i0 ->
  run_inv registry n2i0 r ->
  run_inv registry n2i0 (loop_body self r).2.
Proof.
  intros Hstatic Hinv. rewrite loop_body_eq.
  destruct (run_inv_get_ready _ _ _ Hinv) as (ready & g1 & Heq & Hinv1 & Hout).
  rewrite Heq. cbn [fst snd]. cbv zeta.
  case_bool_decide.
  - by apply join_and_record_inv.
  - by apply dispatch_inv.
Qed.

End LoopInvariant.

(** ** The run comes to every node *)

Section Elimination.
Implicit Types (n2i : list (OutputKey * _NodeInfo)) (g : TopologicalSorter).

(** A property that passes from the predecessors of a node to the node
    holds of everything [eliminate] removes. *)
Lemma eliminate_closed (P : OutputKey -> Prop) n2i :
  (forall removed n,
      n ∈ dict_keys n2i -> (forall k, k ∈ removed -> P k) ->
      predecessors_in n2i removed n = true -> P n) ->
  forall fuel removed,
    (forall k, k ∈ removed -> P k) ->
    forall k, k ∈ eliminate fuel n2i removed -> P k.
Proof.
  intros Hstep. induction fuel as [|fuel IH]; intros removed Hrem k; simpl;
    [by apply Hrem|].
  apply IH. intros k' [?|Hin]%elem_of_app; [by apply Hrem|].
  apply list_elem_of_filter in Hin as [[_ Hp] Hk].
  by apply (Hstep removed).
Qed.

Lemma find_cycle_false g k :
  _find_cycle g = false -> k ∈ dict_keys (_node2info g) ->
  k ∈ eliminate (length (_node2info g)) (_node2info g) [].
Proof.
  unfold _find_cycle. intros Hf%negb_false_iff Hk.
  rewrite forallb_forall in Hf.
  eapply bool_decide_eq_true_1, Hf, list_elem_of_In, Hk.
Qed.

Lemma is_active_false g :
  (TopologicalSorter_is_active g).1 = Ok false ->
  _ready_nodes g = Some [] /\ _npassedout g <= _nfinished g.
Proof.
  unfold TopologicalSorter_is_active.
  destruct (_ready_nodes g) as [ready|]; [|done]. simpl.
  intros [= [Hlt Hready]%orb_false_iff].
  apply bool_decide_eq_false_1 in Hlt. apply bool_decide_eq_false_1 in Hready.
  split; [|lia]. f_equal. by destruct ready; [|exfalso; apply Hready].
Qed.

(** When nothing is ready and nothing is out, a graph without a cycle has
    every node done. *)
Lemma inactive_all_done n2i0 g k :
  sorter_inv g -> same_edges n2i0 (_node2info g) ->
  (TopologicalSorter_is_active g).1 = Ok false ->
  (forall k, k ∈ dict_keys n2i0 -> k ∈ eliminate (length n2i0) n2i0 []) ->
  k ∈ dict_keys n2i0 -> status (_node2info g) k = Some _NODE_DONE.
Proof.
  intros ((Hnd & Hnode & Hclosed & Hcount) & (ready & Hready & _ & Hmem) & Hout)
    [Hkeys Hsucc] [Hnone Hfin]%is_active_false Hacyclic Hk.
  rewrite Hready in Hnone. injection Hnone as ->.
  revert k Hk.
  cut (forall removed n,
         n ∈ dict_keys n2i0 ->
         (forall k, k ∈ removed -> status (_node2info g) k = Some _NODE_DONE) ->
         predecessors_in n2i0 removed n = true ->
         status (_node2info g) n = Some _NODE_DONE).
  { intros Hstep k Hk.
    apply (eliminate_closed
             (fun k => status (_node2info g) k = Some _NODE_DONE) n2i0 Hstep
             (length n2i0) []); [by intros ? ?%elem_of_nil|by apply Hacyclic]. }
  intros removed n Hn Hrem Hpred.
  rewrite Hkeys in Hn. apply dict_get_is_Some_keys in Hn as [i Hi].
  assert (Hpend : pending (_node2info g) n = 0).
  { apply weigh_zero; [done|]. intros k' i' Hi'. unfold contribution.
    case_bool_decide as Hd; [done|]. apply occurrences_zero. intros Hin.
    pose proof (Hsucc k') as Hs. rewrite Hi' in Hs.
    destruct (dict_get n2i0 k') as [i0|] eqn:Hi0; [|done].
    simpl in Hs. injection Hs as Hs.
    apply dict_get_Some_elem in Hi0.
    unfold predecessors_in in Hpred. rewrite forallb_forall in Hpred.
    apply list_elem_of_In, Hpred in Hi0. simpl in Hi0.
    apply orb_true_iff in Hi0 as [Hi0|Hi0].
    - apply bool_decide_eq_true_1 in Hi0. apply Hi0. by rewrite Hs.
    - apply bool_decide_eq_true_1, Hrem in Hi0. unfold status in Hi0.
      rewrite Hi' in Hi0. simpl in Hi0. injection Hi0 as Hi0.
      apply Hd. unfold _NODE_DONE in *. lia. }
  unfold status. rewrite Hi. simpl. f_equal.
  destruct (Hcount n i Hi) as [Hc|(_ & [Hc|Hc])].
  - rewrite Hpend in Hc. assert (Hz : npredecessors i = 0%Z).
    { destruct (decide (n = ByName "")); simpl in Hc; lia. }
    assert (Hin : n ∈ @nil OutputKey) by (apply Hmem; eauto).
    by apply elem_of_nil in Hin.
  - pose proof (weigh_le passed_out _ _ _ Hi) as Hle.
    unfold passed_out at 1 in Hle. rewrite bool_decide_eq_true_2 in Hle by done.
    lia.
  - by rewrite Hc.
Qed.

End Elimination.

Section Acyclic.
Implicit Types (n2i : list (OutputKey * _NodeInfo)) (removed : list OutputKey).

Lemma list_min_elem {A} (f : A -> nat) (l : list A) :
  l <> [] -> exists x, x ∈ l /\ forall y, y ∈ l -> f x <= f y.
Proof.
  induction l as [|a l IH]; [done|]. intros _. destruct l as [|b l].
  - exists a. split; [left|]. by intros y ->%list_elem_of_singleton.
  - destruct IH as (x & Hx & Hmin); [done|].
    destruct (decide (f a <= f x)).
    + exists a. split; [left|]. intros y [->|Hy]%elem_of_cons; [done|].
      specialize (Hmin y Hy). lia.
    + exists x. split; [by right|].
      intros y [->|Hy]%elem_of_cons; [lia|by apply Hmin].
Qed.

Lemma eliminate_grows n2i fuel removed k :
  k ∈ removed -> k ∈ eliminate fuel n2i removed.
Proof.
  revert removed. induction fuel as [|fuel IH]; intros removed Hk; [done|].
  simpl. apply IH, elem_of_app. by left.
Qed.

(** As long as a node is left, a round of [eliminate] removes one: a node
    of least rank among those left. *)
Lemma eliminate_progress n2i (rank : OutputKey -> nat) removed :
  NoDup (dict_keys n2i) ->
  (forall p s, has_edge n2i p s -> rank p < rank s) ->
  (forall k, k ∈ dict_keys n2i -> k ∈ removed)
  \/ filter (fun n => (n ∉ removed) ∧ (predecessors_in n2i removed n = true))
       (dict_keys n2i) <> [].
Proof.
  intros Hnd Hrank.
  destruct (filter (fun k => k ∉ removed) (dict_keys n2i)) as [|k0 rest] eqn:Hrest.
  - left. intros k Hk. destruct (decide (k ∈ removed)) as [|Hn]; [done|].
    assert (Hin : k ∈ filter (fun k => k ∉ removed) (dict_keys n2i))
      by (by apply list_elem_of_filter).
    rewrite Hrest in Hin. by apply elem_of_nil in Hin.
  - right. destruct (list_min_elem rank (k0 :: rest)) as (n & Hn & Hmin); [done|].
    rewrite <- Hrest in Hn, Hmin. apply list_elem_of_filter in Hn as [HnR Hnk].
    intros Heq.
    assert (Hin : n ∈ filter (fun n => (n ∉ removed)
                                ∧ (predecessors_in n2i removed n = true))
                        (dict_keys n2i)); [|rewrite Heq in Hin; by apply elem_of_nil in Hin].
    apply list_elem_of_filter. split; [|done]. split; [done|].
    unfold predecessors_in. apply forallb_forall.
    intros [p i] Hpi%list_elem_of_In. simpl. apply orb_true_iff.
    destruct (decide (n ∈ successors i)) as [Hs|Hs];
      [|left; by apply bool_decide_eq_true_2].
    right. apply bool_decide_eq_true_2.
    destruct (decide (p ∈ removed)) as [|HpR]; [done|]. exfalso.
    assert (rank p < rank n).
    { apply Hrank. exists i. split; [by apply dict_get_elem|done]. }
    assert (rank n <= rank p).
    { apply Hmin, list_elem_of_filter. split; [done|].
      apply list_elem_of_fmap. by exists (p, i). }
    lia.
Qed.

Lemma eliminate_complete_from n2i (rank : OutputKey -> nat) :
  NoDup (dict_keys n2i) ->
  (forall p s, has_edge n2i p s -> rank p < rank s) ->
  forall fuel removed,
    NoDup removed -> (forall k, k ∈ removed -> k ∈ dict_keys n2i) ->
    length (dict_keys n2i) <= length removed + fuel ->
    forall k, k ∈ dict_keys n2i -> k ∈ eliminate fuel n2i removed.
Proof.
  intros Hnd Hrank. induction fuel as [|fuel IH]; intros removed HndR Hsub Hlen k Hk.
  - simpl. assert (Hp : removed ≡ₚ dict_keys n2i).
    { apply submseteq_length_Permutation; [by apply NoDup_submseteq|lia]. }
    by rewrite Hp.
  - simpl. destruct (eliminate_progress n2i rank removed Hnd Hrank) as [Hall|Hnew].
    + apply eliminate_grows, elem_of_app. left. by apply Hall.
    + apply IH; [| | |done].
      * apply NoDup_app. split; [done|]. split; [|by apply NoDup_filter].
        by intros x Hx [[Hn _] _]%list_elem_of_filter.
      * intros x [Hx|[_ Hx]%list_elem_of_filter]%elem_of_app; [by apply Hsub|done].
      * rewrite length_app.
        destruct (filter _ (dict_keys n2i)); [done|]. simpl. lia.
Qed.

Lemma find_cycle_acyclic (g : TopologicalSorter) (rank : OutputKey -> nat) :
  NoDup (dict_keys (_node2info g)) ->
  (forall p s, has_edge (_node2info g) p s -> rank p < rank s) ->
  _find_cycle g = false.
Proof.
  intros Hnd Hrank. unfold _find_cycle. apply negb_false_iff, forallb_forall.
  intros k Hk%list_elem_of_In. apply bool_decide_eq_true_2.
  apply (eliminate_complete_from _ rank); try done.
  - apply NoDup_nil_2.
  - by intros ? ?%elem_of_nil.
  - unfold dict_keys. rewrite length_fmap. simpl. lia.
Qed.

End Acyclic.

(** ** From the first instance to the end of the run *)

Section WholeRun.
Context {W X : Type} `{!@Executor W X}.
Implicit Types (r : @Run W X) (cls : @PlanClass W X) (tr : list (@event W)).

Local Arguments TopologicalSorter_is_active : simpl never.

Lemma start_or_resume_completed fuel self r :
  (start_or_resume fuel self r).1 = Ok Completed ->
  (TopologicalSorter_is_active (graph_of (start_or_resume fuel self r).2)).1
  = Ok false.
Proof.
  revert r. induction fuel as [|fuel IH]; intros r; [done|].
  rewrite start_or_resume_eq.
  destruct (TopologicalSorter_is_active (graph_of r)).1 as [[]|] eqn:Ha;
    [|done|done].
  destruct (loop_body self r) as [[]?]; [apply IH|done].
Qed.

Lemma last_recorded_elem tr k v :
  Recorded k v ∈ tr -> is_Some (last_recorded tr k).
Proof.
  induction tr as [|e tr IH]; [by intros ?%elem_of_nil|].
  intros [<-|Hin]%elem_of_cons; cbn [last_recorded].
  - destruct (last_recorded tr k); [done|]. by rewrite decide_True.
  - destruct (IH Hin) as [v' ->]. done.
Qed.

Lemma occurrences_NoDup k (l : list OutputKey) :
  NoDup l -> occurrences k l <= 1 /\ (k ∈ l -> occurrences k l = 1).
Proof.
  unfold occurrences. induction 1 as [|x l Hx Hnd [IH1 IH2]]; simpl.
  - split; [lia|by intros ?%elem_of_nil].
  - rewrite filter_cons. destruct (decide (x = k)) as [->|Hne]; simpl.
    + assert (Hz : length (filter (fun s => s = k) l) = 0)
        by (by apply occurrences_zero).
      rewrite Hz. split; [lia|done].
    + split; [done|]. intros [?|?]%elem_of_cons; [by subst|by apply IH2].
Qed.

(** The graph [Plan.__init__] builds from a fresh class has the edges the
    registry asks for, and the run starts in a state where the loop's
    invariant holds. *)
Lemma run_inv_initial cls :
  let registry := __onward_operations__ cls in
  let n2i0 := build_graph registry [] in
  let g := prepared (set_node2info n2i0 TopologicalSorter_new) in
  edges_of registry n2i0
  /\ run_inv registry n2i0 {| plan := with_graph g cls; events := [] |}.
Proof.
  intros registry n2i0 g.
  pose proof (building_build_graph (ByName "") registry [] (building_nil _))
    as Hb. fold n2i0 in Hb.
  split.
  - intros k op d Hop Hd Hs.
    apply (proj1 (build_graph_shape registry [])). right. exists op.
    split; [by apply dict_get_Some_elem|].
    unfold state_dependencies. apply list_elem_of_fmap. exists d.
    split; [done|]. by apply list_elem_of_filter.
  - assert (Hpos : forall k z, status n2i0 k = Some z -> z = 0%Z).
    { intros k z. unfold status.
      destruct (dict_get n2i0 k) as [i|] eqn:Hi; [|done]. simpl.
      intros [= <-]. pose proof (proj2 Hb k i Hi). lia. }
    split; [by apply (prepared_sorter_inv (ByName ""))|].
    split; [apply same_edges_refl|]. split; [done|].
    split; [by intros k ?%Hpos|]. split; [by intros k ?%elem_of_nil|].
    split; [|split; [apply NoDup_nil_2|apply happens_before_nil]].
    intros k. simpl. split; [by intros ?%elem_of_nil|].
    intros (z & ->%Hpos & ?). lia.
Qed.

End WholeRun.

Section HappensBefore.
Context {W X : Type} `{!@Executor W X}.

(** C1.  Take a Plan class with a fresh graph whose registry has an acyclic
    dependency graph, construct its first instance and let
    [start_or_resume] make any number of turns, on any executor.  Then the
    construction succeeds, and in the trace of the run: whenever an
    operation is dispatched, every state-type dependency of its descriptor
    was marked done in the graph before, and had a value recorded before,
    which the result mapping still has an entry for at the end; no node
    key is returned by the ready computation more than once; and when the
    run completes, every key of the registry and every node of the graph
    was returned exactly once. *)
Theorem start_or_resume_happens_before fuel self (cls : @PlanClass W X) :
  __onward_operation_graph__ cls = TopologicalSorter_new ->
  acyclic (__onward_operations__ cls) ->
  let first := Plan_init cls in
  let run := start_or_resume fuel self {| plan := first.2; events := [] |} in
  first.1 = Ok tt
  /\ (forall before operation after d,
        events run.2 = before ++ Dispatch operation :: after ->
        d ∈ dependencies (fields operation) ->
        issubclass_State d = true ->
        Done (ByType d) ∈ before
        /\ (exists v, Recorded (ByType d) v ∈ before)
        /\ is_Some (get_state_value (plan run.2) d))
  /\ (forall k, occurrences k (surfaced (events run.2)) <= 1)
  /\ (run.1 = Ok Completed ->
      forall k,
        k ∈ dict_keys (__onward_operations__ cls)
        \/ k ∈ dict_keys (_node2info (__onward_operation_graph__ first.2)) ->
        occurrences k (surfaced (events run.2)) = 1).
Proof.
  intros Hnew [rank Hrank].
  rewrite Plan_init_eq by (by rewrite Hnew). rewrite Hnew.
  cbn [_node2info TopologicalSorter_new]. cbv zeta.
  destruct (run_inv_initial cls) as [Hstatic Hinv0]. cbv zeta in Hstatic, Hinv0.
  set (registry := __onward_operations__ cls) in *.
  set (n2i0 := build_graph registry []) in *.
  set (g := prepared (set_node2info n2i0 TopologicalSorter_new)) in *.
  destruct (build_graph_shape registry []) as [Hedges Hkeys]. fold n2i0 in Hedges, Hkeys.
  assert (Hcycle : _find_cycle g = false).
  { apply (find_cycle_acyclic g rank); [apply Hinv0|].
    intros p s [(i & Hi & _)|(op & Hop & Hp)]%Hedges; [done|].
    by apply (Hrank s op). }
  rewrite Hcycle. cbn [fst snd].
  set (r0 := {| plan := with_graph g cls; events := [] |}) in *.
  pose proof (start_or_resume_invariant (run_inv registry n2i0) self
                (fun r => loop_body_inv registry n2i0 self r Hstatic)
                fuel r0 Hinv0) as Hinv.
  assert (Hstates : states_follow_trace (__onward_states__ cls)
                      (start_or_resume fuel self r0).2).
  { apply start_or_resume_invariant; [intros r; apply loop_body_states|].
    by intros k. }
  destruct Hinv as (Hsorter & Hsame & _ & _ & _ & Hsurf & Hnd & Hhb).
  split; [done|]. split; [|split].
  - intros before operation after d Heq Hd Hs.
    destruct (Hhb before operation after Heq d Hd Hs) as [Hdone [v Hv]].
    split; [done|]. split; [by exists v|].
    unfold get_state_value. rewrite Hstates.
    assert (Hin : Recorded (ByType d) v ∈ events (start_or_resume fuel self r0).2).
    { rewrite Heq. apply elem_of_app. by left. }
    by destruct (last_recorded_elem _ _ _ Hin) as [v' ->].
  - intros k. by apply occurrences_NoDup.
  - intros Hend k Hk. apply occurrences_NoDup; [done|].
    assert (Hnode : k ∈ dict_keys n2i0).
    { destruct Hk as [Hk|Hk]; [|done]. apply Hkeys. by right; left. }
    apply Hsurf. exists _NODE_DONE. split; [|done].
    apply (inactive_all_done n2i0); try done.
    + by apply start_or_resume_completed.
    + intros k' Hk'. by apply (find_cycle_false g).
Qed.

End HappensBefore.

Lemma AddUsers_registry :
  __onward_operations__ AddUsers_class
  = [(ByType ParseFile, SyncOperation (descriptor read_file));
     (ByName "log_file", SyncOperation (descriptor log_file))].
Proof. vm_compute. reflexivity. Qed.

Lemma AddUsers_acyclic : acyclic (__onward_operations__ AddUsers_class).
Proof.
  exists (fun k => if is_str k then 1 else 0). intros s op p.
  rewrite AddUsers_registry.
  intros [[= -> ->]|[[= -> ->]|?%elem_of_nil]%elem_of_cons]%elem_of_cons Hp;
    [|vm_compute in Hp|done].
  - vm_compute in Hp. by apply elem_of_nil in Hp.
  - apply elem_of_cons in Hp as [->|?%elem_of_nil]; [|done]. simpl. lia.
Qed.

Lemma start_or_resume_happens_before_witness :
  AddUsers_run.1 = Ok Completed
  /\ (forall before operation after d,
        events AddUsers_run.2 = before ++ Dispatch operation :: after ->
        d ∈ dependencies (fields operation) ->
        issubclass_State d = true ->
        Done (ByType d) ∈ before
        /\ (exists v, Recorded (ByType d) v ∈ before)
        /\ is_Some (get_state_value (plan AddUsers_run.2) d))
  /\ occurrences (ByType ParseFile) (surfaced (events AddUsers_run.2)) = 1
  /\ occurrences (ByName "log_file") (surfaced (events AddUsers_run.2)) = 1.
Proof.
  pose proof (start_or_resume_happens_before 10 AddUsers_instance
                AddUsers_class eq_refl AddUsers_acyclic)
    as (_ & Hbefore & _ & Hall).
  assert (Hend : AddUsers_run.1 = Ok Completed) by (vm_compute; reflexivity).
  split; [exact Hend|]. split; [exact Hbefore|].
  split; apply (Hall Hend); left; rewrite AddUsers_registry.
  - left.
  - right. left.
Defined.

(** ** More on registration *)

Section RegistrationGrowth.
Context {W : Type}.
Implicit Types (func : @pyfunc W) (plans : gmap string (@Registry W)).

Lemma dict_set_fresh {K V} `{EqDecision K} (d : list (K * V)) k v :
  dict_get d k = None -> dict_set d k v = d ++ [(k, v)].
Proof.
  induction d as [|[k' v'] d IH]; simpl; [done|].
  case_decide; [done|]. intros Hd. by rewrite IH.
Qed.

Lemma dict_contains_false {K V} `{EqDecision K} (d : list (K * V)) k :
  dict_contains d k = false <-> dict_get d k = None.
Proof. unfold dict_contains. by destruct (dict_get d k). Qed.

Lemma insert_operation_Ok func plan op plans plans' :
  insert_operation func plan op plans = Ok plans' ->
  dict_get (onward_operations plans plan) (op_id op) = None
  /\ plans' = <[plan := onward_operations plans plan ++ [(op_id op, op)]]> plans.
Proof.
  unfold insert_operation.
  destruct (dict_contains _ (ByType _)) eqn:Ht; simpl.
  { by destruct (dict_getitem _ _). }
  destruct (dict_contains _ (ByName _)) eqn:Hn; simpl.
  { by destruct (dict_getitem _ _). }
  intros [= <-].
  assert (Hfresh : dict_get (onward_operations plans plan) (op_id op) = None).
  { unfold op_id. rewrite id_cases.
    destruct (is_NoneType _); by apply dict_contains_false. }
  split; [done|]. by rewrite dict_set_fresh.
Qed.

(** X1.  A successful registration appends exactly one entry, the new
    descriptor under its own key, to the registry of the one Plan class
    that owns the function, where that key was absent; every other entry
    of that registry, and every other registry, is left as it was. *)
Theorem operation_appends func plans plans' :
  operation func plans = Ok plans' ->
  exists plan op,
    make_operation func = Ok (plan, op)
    /\ dict_get (onward_operations plans plan) (op_id op) = None
    /\ onward_operations plans' plan
       = onward_operations plans plan ++ [(op_id op, op)]
    /\ dict_get (onward_operations plans' plan) (op_id op) = Some op
    /\ (forall k, k <> op_id op ->
          dict_get (onward_operations plans' plan) k
          = dict_get (onward_operations plans plan) k)
    /\ (forall other, other <> plan ->
          onward_operations plans' other = onward_operations plans other).
Proof.
  unfold operation. destruct (make_operation func) as [[plan op]|e] eqn:Hm; [|done].
  simpl. intros [Hfresh ->]%insert_operation_Ok.
  exists plan, op. split; [done|]. split; [done|].
  assert (Hnew : onward_operations
                   (<[plan := onward_operations plans plan ++ [(op_id op, op)]]> plans)
                   plan
                 = onward_operations plans plan ++ [(op_id op, op)]).
  { unfold onward_operations at 1. by rewrite lookup_insert_eq. }
  rewrite Hnew. split; [done|]. split; [|split].
  - rewrite dict_get_app, Hfresh. simpl. by rewrite decide_True.
  - intros k Hk. rewrite dict_get_app.
    destruct (dict_get (onward_operations plans plan) k); [done|].
    simpl. by rewrite decide_False.
  - intros other Hne. unfold onward_operations. by rewrite lookup_insert_ne.
Qed.

(** X2.  The conflict test looks for the declared output type and for the
    function's name, but then fetches the other operation under the new
    operation's key.  So a function that declares an output state nobody
    provides yet, and bears the name of a registered operation without
    output, is neither registered nor reported as a second provider: the
    lookup of its output type in the registry fails with KeyError. *)
Theorem operation_name_clash_KeyError func plans plan op :
  make_operation func = Ok (plan, op) ->
  is_NoneType (provides (fields op)) = false ->
  dict_contains (onward_operations plans plan) (ByType (provides (fields op)))
  = false ->
  dict_contains (onward_operations plans plan) (ByName (op_name op)) = true ->
  operation func plans = Raise KeyError.
Proof.
  intros Hm Hnone Ht Hn. unfold operation. rewrite Hm.
  change (insert_operation func plan op plans = Raise KeyError).
  unfold insert_operation. cbv zeta. rewrite Ht, Hn. cbn [orb].
  unfold op_id. rewrite id_cases, Hnone. unfold dict_getitem.
  apply dict_contains_false in Ht. by rewrite Ht.
Qed.

End RegistrationGrowth.

Lemma operation_appends_witness :
  exists plans',
    operation save_details plans_of_main = Ok plans'
    /\ dict_keys (onward_operations plans' "AddUsers")
       = [ByType ParseFile; ByName "log_file"; ByName "save_details"].
Proof.
  destruct (operation save_details plans_of_main) as [plans'|e] eqn:Hop;
    [|by vm_compute in Hop].
  exists plans'. split; [done|].
  destruct (operation_appends save_details plans_of_main plans' Hop)
    as (plan & op & Hm & _ & Happ & _).
  vm_compute in Hm. injection Hm as <- <-. rewrite Happ. reflexivity.
Defined.

Lemma operation_name_clash_KeyError_witness :
  operation log_file_uploading plans_of_main = Raise KeyError.
Proof.
  by eapply (operation_name_clash_KeyError log_file_uploading plans_of_main);
    vm_compute.
Defined.

(** ** From the descriptor to the call *)

Section CallBinding.
Context {W : Type}.
Implicit Types (func : @pyfunc W) (hints : list (string * pytype))
  (hint_map : list (pytype * string)) (kwargs : list (string * pyvalue)).

Lemma make_operation_collect func plan op :
  well_formed func ->
  make_operation func = Ok (plan, op) ->
  collect_depends func (annotated (annotation_order func)) [] []
  = Ok (dependencies (fields op), hint_map (fields op)).
Proof.
  intros [Hnd Hret] Hm. unfold make_operation in Hm.
  destruct (get_type_hints_return func Hret) as [Hg Hp].
  rewrite Hg, Hp in Hm.
  destruct (return_annotation func) as [r|] eqn:Hr; simpl in Hm; [|done].
  destruct (negb (issubclass_State r) && negb (is_NoneType r)); simpl in Hm;
    [done|].
  case_bool_decide; [done|].
  destruct (forallb _ (co_varnames func)) eqn:Hall; simpl in Hm; [|done].
  destruct (collect_depends func (annotated (annotation_order func)) [] [])
    as [[depends hm]|e] eqn:Hc; simpl in Hm; [|done].
  destruct depends as [|first rest]; simpl in Hm; [done|].
  destruct (plan_of_first_arg first) as [p|]; simpl in Hm; [|done].
  injection Hm as <- <-. by destruct (iscoroutinefunction func).
Qed.

Lemma collect_depends_hint_map func hints depends hint_map depends' hint_map' :
  collect_depends func hints depends hint_map = Ok (depends', hint_map') ->
  hint_map' = foldl (fun m e => dict_set m e.2 e.1) hint_map hints.
Proof.
  revert depends hint_map.
  induction hints as [|[n t] hints IH]; simpl; intros depends hint_map Hc.
  - by simplify_eq.
  - destruct (negb (issubclass_State t) && negb (issubclass_Plan t)); [done|].
    by apply IH in Hc.
Qed.

Lemma hint_map_keys hints hint_map t :
  t ∈ dict_keys (foldl (fun m e => dict_set m e.2 e.1) hint_map hints)
  <-> t ∈ dict_keys hint_map \/ t ∈ hints.*2.
Proof.
  revert hint_map. induction hints as [|[n t'] hints IH]; intros hint_map; simpl.
  - split; [by left|]. by intros [?|?%elem_of_nil].
  - rewrite IH, dict_keys_set, elem_of_cons. simpl. tauto.
Qed.

Lemma hint_map_distinct hints hint_map :
  NoDup (dict_keys hint_map ++ hints.*2) ->
  foldl (fun m e => dict_set m e.2 e.1) hint_map hints
  = hint_map ++ ((fun e => (e.2, e.1)) <$> hints).
Proof.
  revert hint_map. induction hints as [|[n t] hints IH]; intros hint_map Hnd; simpl.
  - by rewrite app_nil_r.
  - assert (Hfresh : dict_get hint_map t = None).
    { apply dict_get_None_keys. intros Hin.
      apply NoDup_app in Hnd as (_ & Hdisj & _). apply (Hdisj t Hin). left. }
    rewrite dict_set_fresh by done. rewrite IH.
    + by rewrite <- app_assoc.
    + unfold dict_keys. rewrite fmap_app. simpl. rewrite <- app_assoc. done.
Qed.

Lemma bind_by_type_zip hint_map hints args kwargs :
  (forall n t, (n, t) ∈ hints -> dict_get hint_map t = Some n) ->
  type_of <$> args = hints.*2 ->
  NoDup (dict_keys kwargs ++ hints.*1) ->
  bind_by_type hint_map args kwargs = Ok (kwargs ++ zip hints.*1 args).
Proof.
  revert args kwargs.
  induction hints as [|[n t] hints IH]; intros args kwargs Hmap Hty Hnd.
  - destruct args; [|done]. simpl. by rewrite app_nil_r.
  - destruct args as [|arg args]; [done|]. simpl in Hty.
    injection Hty as Ht Hty. simpl.
    unfold dict_getitem. rewrite Ht, (Hmap n t) by left. simpl.
    assert (Hfresh : dict_get kwargs n = None).
    { apply dict_get_None_keys. intros Hin.
      apply NoDup_app in Hnd as (_ & Hdisj & _). apply (Hdisj n Hin). left. }
    rewrite dict_set_fresh by done. rewrite IH.
    + by rewrite <- app_assoc.
    + intros n' t' Hin. apply Hmap. by right.
    + done.
    + unfold dict_keys. rewrite fmap_app. simpl. by rewrite <- app_assoc.
Qed.

Lemma bind_by_type_KeyError hint_map args kwargs arg :
  arg ∈ args -> dict_get hint_map (type_of arg) = None ->
  bind_by_type hint_map args kwargs = Raise KeyError.
Proof.
  intros Hin Hnone. revert kwargs.
  induction args as [|a args IH]; intros kwargs; [by apply elem_of_nil in Hin|].
  simpl. unfold dict_getitem.
  destruct (dict_get hint_map (type_of a)) as [slot|] eqn:Ha; simpl; [|done].
  apply elem_of_cons in Hin as [->|Hin]; [congruence|by apply IH].
Qed.

(** X3.  Calling the descriptor of a registered function whose parameters
    all have different types, with arguments of exactly the declared types
    in the order of the type hints, binds each argument to the parameter of
    its type: the keyword arguments of the deferred call (and of the
    coroutine, for the async flavour) are the parameter names paired with
    the arguments, in that order, which is the declared order when the
    function has no positional-only parameter. *)
Theorem SyncOperation_call_binds func plan op args :
  well_formed func ->
  make_operation func = Ok (plan, op) ->
  NoDup (dependencies (fields op)) ->
  type_of <$> args = dependencies (fields op) ->
  SyncOperation_call (fields op) args
  = Ok {| func := fields op; keywords := zip (annotation_order func).*1 args |}
  /\ AsyncOperation_call (fields op) args
     = Ok {| cr_self := fields op;
             cr_kwargs := zip (annotation_order func).*1 args |}
  /\ (grammatical func -> of_kind POSITIONAL_ONLY func = [] ->
      annotation_order func = parameters func).
Proof.
  intros Hwf Hm Hnd Hty.
  pose proof (make_operation_collect _ _ _ Hwf Hm) as Hc.
  destruct (make_operation_Ok _ _ _ Hwf Hm)
    as (_ & first & rest & _ & Hloc & Hpar & Hann & Hdep & _).
  pose proof (collect_depends_hint_map _ _ _ _ _ _ Hc) as Hhm.
  rewrite Hdep, <- Hann in Hnd, Hty.
  rewrite hint_map_distinct in Hhm by done. simpl in Hhm.
  assert (Hnames : (annotation_order func).*1
                   = (annotated (annotation_order func)).*1).
  { rewrite Hpar at 1. by rewrite <- list_fmap_compose. }
  assert (Hndn : NoDup (annotated (annotation_order func)).*1).
  { rewrite <- Hnames. destruct Hwf as [Hwf _].
    by apply annotation_order_NoDup. }
  assert (Hb : bind_by_type (hint_map (fields op)) args []
               = Ok (zip (annotation_order func).*1 args)).
  { rewrite Hnames.
    apply (bind_by_type_zip _ (annotated (annotation_order func)) args []);
      try done.
    intros n t Hin. rewrite Hhm. apply dict_get_elem.
    - unfold dict_keys. by rewrite <- list_fmap_compose.
    - apply list_elem_of_fmap. by exists (n, t). }
  unfold SyncOperation_call, AsyncOperation_call. rewrite Hb.
  split; [done|]. split; [done|]. apply annotation_order_grammatical.
Qed.

(** X4.  The parameter to bind an argument to is looked up under the
    argument's own class.  When an argument's class is not one of the
    declared parameter types (an instance of a subclass of a declared type
    included), calling the descriptor fails with KeyError. *)
Theorem SyncOperation_call_KeyError func plan op args arg :
  well_formed func ->
  make_operation func = Ok (plan, op) ->
  arg ∈ args ->
  type_of arg ∉ dependencies (fields op) ->
  SyncOperation_call (fields op) args = Raise KeyError
  /\ AsyncOperation_call (fields op) args = Raise KeyError.
Proof.
  intros Hwf Hm Hin Hty.
  pose proof (make_operation_collect _ _ _ Hwf Hm) as Hc.
  pose proof (collect_depends_hint_map _ _ _ _ _ _ Hc) as Hhm.
  apply collect_depends_Ok in Hc as [Hdep _]. simpl in Hdep.
  assert (Hnone : dict_get (hint_map (fields op)) (type_of arg) = None).
  { apply dict_get_None_keys. rewrite Hhm. intros [?%elem_of_nil|?]%hint_map_keys;
      [done|]. apply Hty. by rewrite Hdep. }
  unfold SyncOperation_call, AsyncOperation_call.
  by rewrite (bind_by_type_KeyError _ _ _ _ Hin Hnone).
Qed.

End CallBinding.

Lemma SyncOperation_call_binds_witness :
  SyncOperation_call (descriptor save_details)
    [new ParseFile "percentage=.213"; new UploadResults "uploaded";
     AddUsers_instance]
  = Ok {| func := descriptor save_details;
          keywords := [("results", new ParseFile "percentage=.213");
                       ("uploaded", new UploadResults "uploaded");
                       ("plan", AddUsers_instance)] |}
  /\ SyncOperation_call (descriptor audit)
       [AddUsers_instance; PyObj Invoice [] "n=1"]
     = Ok {| func := descriptor audit;
             keywords := [("plan", AddUsers_instance);
                          ("entry", PyObj Invoice [] "n=1")] |}.
Proof.
  split.
  - apply (SyncOperation_call_binds save_details "AddUsers"
             (SyncOperation (descriptor save_details))).
    + split; apply (bool_decide_unpack _); vm_compute; exact I.
    + reflexivity.
    + apply (bool_decide_unpack _); vm_compute; exact I.
    + reflexivity.
  - apply (SyncOperation_call_binds audit "AddUsers"
             (SyncOperation (descriptor audit))).
    + split; apply (bool_decide_unpack _); vm_compute; exact I.
    + reflexivity.
    + apply (bool_decide_unpack _); vm_compute; exact I.
    + reflexivity.
Defined.

Lemma SyncOperation_call_KeyError_witness :
  isinstance BetaUsers_instance AddUsers = true
  /\ SyncOperation_call (descriptor save_details)
       [new ParseFile "percentage=.213"; new UploadResults "uploaded";
        BetaUsers_instance]
     = Raise KeyError.
Proof.
  split; [reflexivity|].
  apply (SyncOperation_call_KeyError save_details "AddUsers"
           (SyncOperation (descriptor save_details)) _ BetaUsers_instance).
  - split; apply (bool_decide_unpack _); vm_compute; exact I.
  - reflexivity.
  - apply (bool_decide_unpack _); vm_compute; exact I.
  - apply (bool_decide_unpack _); vm_compute; exact I.
Defined.

Section RegistrationFailures.
Context {W : Type}.
Implicit Types (func : @pyfunc W) (plans : gmap string (@Registry W)).

Lemma plan_of_first_arg_Raise first_arg e :
  plan_of_first_arg first_arg = Raise e -> e = AttributeError.
Proof.
  unfold plan_of_first_arg.
  destruct first_arg as [|p|s [o|]|c]; simpl; congruence.
Qed.

(** In the embedding, validation raises two kinds of exception. *)
Lemma make_operation_Raise func e :
  make_operation func = Raise e ->
  (exists why, e = InvalidOperationSignatureError (__name__ func) why)
  \/ e = AttributeError.
Proof.
  unfold make_operation. intros Hm.
  destruct (dict_get (get_type_hints func) "return") as [r|]; simpl in Hm;
    [|left; simplify_eq; eauto].
  destruct (negb (issubclass_State r) && negb (is_NoneType r)); simpl in Hm;
    [left; simplify_eq; eauto|].
  case_bool_decide as Hlen; [left; simplify_eq; eauto|].
  destruct (forallb _ (co_varnames func)) eqn:Hall; simpl in Hm;
    [|left; simplify_eq; eauto].
  destruct (collect_depends func _ [] []) as [[depends hm]|e'] eqn:Hc;
    simpl in Hm.
  - apply collect_depends_Ok in Hc as [-> _]. simpl in Hm.
    destruct (dict_pop (get_type_hints func) "return") as [|[n t] hints'];
      simpl in Hm.
    + exfalso. destruct (co_varnames func) as [|v vs]; [done|].
      simpl in Hall. done.
    + destruct (plan_of_first_arg t) as [p|e''] eqn:Hp; simpl in Hm; [done|].
      right. apply plan_of_first_arg_Raise in Hp. congruence.
  - left. apply collect_depends_Raise in Hc as (n & t & _ & _ & _ & ->).
    simplify_eq. eauto.
Qed.

Lemma insert_operation_Raise func plan op plans e :
  insert_operation func plan op plans = Raise e ->
  (exists why, e = TooManyProvidersError (__name__ func) why) \/ e = KeyError.
Proof.
  unfold insert_operation.
  destruct (dict_contains _ (ByType _) || dict_contains _ (ByName _)); [|done].
  unfold dict_getitem. destruct (dict_get _ (op_id op)); simpl.
  - destruct (dict_contains _ _); intros [= <-]; left; eauto.
  - intros [= <-]. by right.
Qed.

(** X5.  Taking the first of the collected dependencies, [depends[0]],
    never fails: whatever the function and the registries, registration
    does not raise the IndexError of that line.  Once the function has a
    variable and every variable has a type hint, there is a hint to
    collect. *)
Theorem operation_never_IndexError func plans :
  operation func plans <> Raise IndexError.
Proof.
  unfold operation.
  destruct (make_operation func) as [[plan op]|e'] eqn:Hm; simpl.
  - by intros [[? ?]|?]%insert_operation_Raise.
  - intros [= ->]. by apply make_operation_Raise in Hm as [[? ?]|?].
Qed.

End RegistrationFailures.

(** ** More on the executors *)

Section ThreadedJoin.
Context {W : Type}.
Implicit Types (x : @ThreadedExecutor W * nat).

Lemma ThreadedExecutor_join_next_None x i f :
  first_completed done_at (futures x.1) = Some (i, f) ->
  x.2 < done_at f ->
  ThreadedExecutor_join_next None x
  = (future_result f,
     ({| pool := pool x.1; futures := delete i (futures x.1) |},
      x.2 `max` done_at f)).
Proof.
  intros Hf Hlt. unfold ThreadedExecutor_join_next, ThreadedExecutor_running.
  destruct (futures x.1) as [|f0 fs] eqn:Hfs; [done|].
  rewrite bool_decide_eq_true_2 by (simpl; lia). cbn [negb].
  unfold next_as_completed.
  rewrite next_completed_first by by apply (first_completed_pending _ _ i f).
  by rewrite Hf.
Qed.

(** [join_next] without timeout takes one future out and hands out its
    result; when no future is finished at the call, it is one that
    finishes first. *)
Lemma ThreadedExecutor_join_next_any x :
  futures x.1 <> [] ->
  exists i f,
    futures x.1 !! i = Some f
    /\ (Forall (fun g => x.2 < done_at g) (futures x.1) ->
        Forall (fun g => done_at f <= done_at g) (futures x.1))
    /\ ThreadedExecutor_join_next None x
       = (future_result f,
          ({| pool := pool x.1; futures := delete i (futures x.1) |},
           x.2 `max` done_at f)).
Proof.
  intros Hne. unfold ThreadedExecutor_join_next, ThreadedExecutor_running.
  rewrite bool_decide_eq_true_2
    by (destruct (futures x.1); [done | simpl; lia]).
  cbn [negb]. unfold next_as_completed.
  destruct (next_completed_cases done_at
              (finished_order (pool x.1) x.2 (futures x.1)) x.2 (futures x.1))
    as [->|(i & f & -> & Hl & Hle)].
  - destruct (first_completed done_at (futures x.1)) as [[i f]|] eqn:Hf;
      [|by apply first_completed_None in Hf].
    apply first_completed_Some in Hf as [Hl Hall]. by exists i, f.
  - exists i, f. split; [done|]. split; [|done].
    intros Hall. rewrite Forall_forall in Hall.
    apply list_elem_of_lookup_2 in Hl. specialize (Hall f Hl). simpl in Hall. lia.
Qed.

(** X6.  As many calls of [join_next] as there are futures in flight, none
    with a timeout, hand out the result of every future exactly once, a
    worker's exception included, and leave the executor with nothing in
    flight; the clock does not go back.  The order is that of completion
    only as far as the futures are still running when they are waited for:
    when none is finished at the first call, the first result handed out
    is that of a future that finishes first. *)
Theorem ThreadedExecutor_join_all_Permutation x :
  exists fs now,
    fs ≡ₚ futures x.1
    /\ x.2 <= now
    /\ ThreadedExecutor_join_all (length (futures x.1)) x
       = (future_result <$> fs, ({| pool := pool x.1; futures := [] |}, now))
    /\ (Forall (fun g => x.2 < done_at g) (futures x.1) ->
        forall f, head fs = Some f ->
                  Forall (fun g => done_at f <= done_at g) (futures x.1)).
Proof.
  remember (length (futures x.1)) as n eqn:Hn. revert x Hn.
  induction n as [|n IH]; intros [[p fs] now] Hn; simpl in *.
  - destruct fs; [|done]. exists [], now. by repeat split.
  - destruct (ThreadedExecutor_join_next_any ({| pool := p; futures := fs |}, now))
      as (i & f & Hi & Hfirst & ->); [by destruct fs|]. simpl in *.
    destruct (IH ({| pool := p; futures := delete i fs |}, now `max` done_at f))
      as (fs' & now' & Hperm & Hle & Heq & _).
    { simpl. rewrite length_delete by done. lia. }
    simpl in *. rewrite Heq. simpl. exists (f :: fs'), now'.
    pose proof (delete_Permutation fs i f Hi) as Hp.
    split; [by rewrite Hp, Hperm|]. split; [lia|]. split; [done|].
    intros Hall g [= <-]. by apply Hfirst.
Qed.

End ThreadedJoin.

Lemma ThreadedExecutor_join_all_Permutation_witness :
  exists fs now,
    fs ≡ₚ futures threaded_busy.1
    /\ 0 <= now
    /\ ThreadedExecutor_join_all 1 threaded_busy
       = (future_result <$> fs, ({| pool := slow_pool; futures := [] |}, now))
    /\ (forall f, head fs = Some f ->
                  Forall (fun g => done_at f <= done_at g)
                         (futures threaded_busy.1)).
Proof.
  destruct (ThreadedExecutor_join_all_Permutation threaded_busy)
    as (fs & now & Hperm & Hle & Heq & Hfirst).
  exists fs, now. split; [done|]. split; [done|]. split; [exact Heq|].
  apply Hfirst. repeat constructor.
Defined.

Section DictDeletion.
Context {K V : Type} `{EqDecision K}.
Implicit Types (d : list (K * V)) (k : K).

Lemma dict_pop_sublist d k : dict_pop d k `sublist_of` d.
Proof.
  induction d as [|[k' v] d IH]; simpl; [done|]. case_decide.
  - by apply sublist_cons.
  - by apply sublist_skip.
Qed.

Lemma dict_get_pop_ne d k k' : k <> k' -> dict_get (dict_pop d k') k = dict_get d k.
Proof.
  intros Hne. induction d as [|[k0 v] d IH]; simpl; [done|].
  destruct (decide (k0 = k')) as [->|Hk0].
  - by rewrite decide_False by done.
  - simpl. by rewrite IH.
Qed.

Lemma dict_pop_NoDup d k : NoDup (dict_keys d) -> NoDup (dict_keys (dict_pop d k)).
Proof.
  intros Hnd. eapply sublist_NoDup; [exact Hnd|].
  unfold dict_keys. apply fmap_sublist, dict_pop_sublist.
Qed.

End DictDeletion.

Section AsyncioJoin.
Context {W : Type}.
Implicit Types (x : @AsyncioExecutor W * nat).

(** A [join_next] that raises leaves the tasks as they were. *)
Lemma AsyncioExecutor_join_next_Raise timeout x e :
  (AsyncioExecutor_join_next timeout x).1 = Raise e ->
  (AsyncioExecutor_join_next timeout x).2.1 = x.1.
Proof.
  unfold AsyncioExecutor_join_next.
  destruct (negb (AsyncioExecutor_running x.1)); [done|].
  destruct (next_completed _ _ _ _) as [[i t]|]; [|done].
  destruct (is_closed (loop x.1)); [done|].
  destruct (task_result t) as [v|e']; [|done].
  by destruct (dict_del (tasks x.1) v.2).
Qed.

(** One that returns has awaited a task of the executor that ended well,
    and has deleted the entry under the key the task returned. *)
Lemma AsyncioExecutor_join_next_Ok timeout x v :
  (AsyncioExecutor_join_next timeout x).1 = Ok v ->
  exists k t, (k, t) ∈ tasks x.1 /\ task_result t = Ok v
              /\ tasks (AsyncioExecutor_join_next timeout x).2.1
                 = dict_pop (tasks x.1) v.2.
Proof.
  unfold AsyncioExecutor_join_next.
  destruct (negb (AsyncioExecutor_running x.1)); [done|].
  destruct (next_completed _ _ _ _) as [[i t]|] eqn:Hnext; [|done].
  destruct (is_closed (loop x.1)); [done|].
  destruct (task_result t) as [v'|e'] eqn:Hres; [|done].
  unfold dict_del. destruct (dict_get (tasks x.1) v'.2); [|done].
  simpl. intros [= ->].
  apply next_completed_Some in Hnext. unfold dict_values in Hnext.
  apply list_elem_of_lookup_2, list_elem_of_fmap in Hnext as [[k t'] [-> Hin]].
  by exists k, t'.
Qed.

Lemma AsyncioExecutor_join_next_keeps timeout x k t e :
  NoDup (dict_keys (tasks x.1)) -> tasks_keyed (tasks x.1) ->
  dict_get (tasks x.1) k = Some t -> task_result t = Raise e ->
  NoDup (dict_keys (tasks (AsyncioExecutor_join_next timeout x).2.1))
  /\ tasks_keyed (tasks (AsyncioExecutor_join_next timeout x).2.1)
  /\ dict_get (tasks (AsyncioExecutor_join_next timeout x).2.1) k = Some t.
Proof.
  intros Hnd Hkeyed Hget Hres.
  destruct ((AsyncioExecutor_join_next timeout x).1) as [v|e'] eqn:Hr.
  - apply AsyncioExecutor_join_next_Ok in Hr as (k' & t' & Hin & Hres' & ->).
    assert (Hk : k <> v.2).
    { rewrite (Hkeyed k' t' v Hin Hres'). intros <-.
      apply (dict_get_elem _ _ _ Hnd) in Hin. congruence. }
    split; [by apply dict_pop_NoDup|]. split.
    + intros k0 t0 v0 Hin0. apply (Hkeyed k0 t0 v0).
      eapply elem_of_sublist; [done|apply dict_pop_sublist].
    + by rewrite dict_get_pop_ne.
  - apply AsyncioExecutor_join_next_Raise in Hr. by rewrite Hr.
Qed.

(** X7.  A task that ends in an exception is never taken out of [tasks]:
    the call of [join_next] that raises its exception leaves [tasks] as it
    was, and the calls that return delete the entry of the task they
    awaited.  So, the successful tasks returning their own keys as the
    wrappers do, after any number of calls, in whatever order the tasks
    come, the failed task is still filed under its key and the executor
    still counts as running. *)
Theorem AsyncioExecutor_failed_task_stays x k t e n timeout :
  NoDup (dict_keys (tasks x.1)) -> tasks_keyed (tasks x.1) ->
  dict_get (tasks x.1) k = Some t -> task_result t = Raise e ->
  dict_get (tasks (AsyncioExecutor_after n timeout x).1) k = Some t
  /\ AsyncioExecutor_running (AsyncioExecutor_after n timeout x).1 = true
  /\ (forall e',
        (AsyncioExecutor_join_next timeout (AsyncioExecutor_after n timeout x)).1
        = Raise e' ->
        (AsyncioExecutor_join_next timeout (AsyncioExecutor_after n timeout x)).2.1
        = (AsyncioExecutor_after n timeout x).1).
Proof.
  intros Hnd Hkeyed Hget Hres.
  assert (Hinv : NoDup (dict_keys (tasks (AsyncioExecutor_after n timeout x).1))
                 /\ tasks_keyed (tasks (AsyncioExecutor_after n timeout x).1)
                 /\ dict_get (tasks (AsyncioExecutor_after n timeout x).1) k
                    = Some t).
  { revert x Hnd Hkeyed Hget. induction n as [|n IH]; intros x Hnd Hkeyed Hget;
      simpl; [done|].
    destruct (AsyncioExecutor_join_next_keeps timeout x k t e Hnd Hkeyed Hget Hres)
      as (? & ? & ?). by apply IH. }
  destruct Hinv as (_ & _ & Hget'). split; [done|]. split.
  - unfold AsyncioExecutor_running.
    destruct (tasks (AsyncioExecutor_after n timeout x).1); [done|].
    by rewrite bool_decide_eq_true_2 by (simpl; lia).
  - intros e'. apply AsyncioExecutor_join_next_Raise.
Qed.

End AsyncioJoin.

Lemma AsyncioExecutor_failed_task_stays_witness :
  tasks (AsyncioExecutor_after 3 None asyncio_crashed_reordered).1
  = [(ByType ParseFile,
      {| task_done_at := 10; task_result := Raise (UserException "boom") |})]
  /\ dict_get (tasks (AsyncioExecutor_after 3 None asyncio_crashed_reordered).1)
       (ByType ParseFile)
     = Some {| task_done_at := 10; task_result := Raise (UserException "boom") |}
  /\ AsyncioExecutor_running
       (AsyncioExecutor_after 3 None asyncio_crashed_reordered).1 = true.
Proof.
  split; [reflexivity|].
  destruct (AsyncioExecutor_failed_task_stays asyncio_crashed_reordered
              (ByType ParseFile)
              {| task_done_at := 10; task_result := Raise (UserException "boom") |}
              (UserException "boom") 3 None) as (Hget & Hrun & _).
  - apply (bool_decide_unpack _); vm_compute; exact I.
  - intros k t v Hin Hres.
    change (tasks asyncio_crashed_reordered.1)
      with [(ByType ParseFile,
             {| task_done_at := 10;
                task_result := Raise (UserException "boom") |});
            (ByName "log_file",
             {| task_done_at := 10;
                task_result := Ok (PyNone, ByName "log_file") |})] in Hin.
    apply elem_of_cons in Hin as [[= -> ->]|Hin]; [done|].
    apply list_elem_of_singleton in Hin as [= -> ->].
    simpl in Hres. by injection Hres as <-.
  - reflexivity.
  - reflexivity.
  - by split.
Defined.

(** ** What the result mapping can hold *)

Section StatesInvariant.
Context {W X : Type} `{!@Executor W X}.
Implicit Types (r : @Run W X) (self : pyvalue) (cls : @PlanClass W X).

Local Arguments TopologicalSorter_done : simpl never.
Local Arguments TopologicalSorter_get_ready : simpl never.
Local Arguments build_partials : simpl never.
Local Arguments dict_getitem : simpl never.

(** A turn of the loop leaves the result mapping alone, or stores under a
    type key the value, not None, that [join_next] has just returned. *)
Lemma loop_body_states_step self r :
  __onward_states__ (plan (loop_body self r).2) = __onward_states__ (plan r)
  \/ exists next_result next_state,
       (join_next None (__onward_executor__ (plan r))).1
       = Ok (next_result, next_state)
       /\ is_str next_state = false /\ is_None next_result = false
       /\ __onward_states__ (plan (loop_body self r).2)
          = <[next_state := next_result]> (__onward_states__ (plan r)).
Proof.
  rewrite loop_body_eq.
  destruct (TopologicalSorter_get_ready (graph_of r)) as [[nodes|e] g1]; simpl;
    [|by left].
  case_bool_decide.
  - rewrite join_and_record_eq. simpl.
    destruct (join_next None (__onward_executor__ (plan r)))
      as [[[next_result next_state]|e] x]; simpl; [|by left].
    destruct (is_str next_state) eqn:Hstr.
    { left. by destruct (TopologicalSorter_done next_state _) as [[|] ?]. }
    destruct (is_None next_result) eqn:Hnone.
    { left. by destruct (dict_getitem _ _). }
    right. exists next_result, next_state. split; [done|]. split; [done|].
    split; [done|].
    by destruct (TopologicalSorter_done next_state _) as [[|] ?].
  - left. rewrite dispatch_eq.
    destruct (build_partials _ self nodes [] []) as [[sp ap]|e]; [|done].
    simpl. destruct (add_operations sp _) as [[|e] x]; [|done]. simpl.
    by case_bool_decide.
Qed.

Lemma start_or_resume_states (P : OutputKey -> pyvalue -> Prop) fuel self cls :
  (forall (x : X) v k,
      (join_next None x).1 = Ok (v, k) ->
      is_str k = false -> is_None v = false -> P k v) ->
  (forall k v, __onward_states__ cls !! k = Some v -> P k v) ->
  forall k v,
    __onward_states__
      (plan (start_or_resume fuel self {| plan := cls; events := [] |}).2) !! k
    = Some v ->
    P k v.
Proof.
  intros Hjoin Hcls.
  apply (start_or_resume_invariant
           (fun r => forall k v, __onward_states__ (plan r) !! k = Some v -> P k v));
    [|done].
  intros r Hr k v.
  destruct (loop_body_states_step self r)
    as [->|(v' & k' & Hx & Hstr & Hnone & ->)]; [apply Hr|].
  destruct (decide (k' = k)) as [->|Hne].
  - rewrite lookup_insert_eq. intros [= <-]. by apply (Hjoin _ _ _ Hx).
  - rewrite lookup_insert_ne by done. apply Hr.
Qed.

(** X8.  Whatever the executor hands back, the loop stores a result only
    under a type key and only when it is not None: a result mapping that
    has no name key and holds no None before the run has none after any
    number of turns. *)
Theorem start_or_resume_states_not_None fuel self cls :
  (forall k v, __onward_states__ cls !! k = Some v ->
               is_str k = false /\ is_None v = false) ->
  forall k v,
    __onward_states__
      (plan (start_or_resume fuel self {| plan := cls; events := [] |}).2) !! k
    = Some v ->
    is_str k = false /\ is_None v = false.
Proof.
  intros Hcls.
  by apply (start_or_resume_states
              (fun k v => is_str k = false /\ is_None v = false)).
Qed.

End StatesInvariant.

Section SerialStates.
Context {W : Type}.
Implicit Types (cls : @PlanClass W (@SynchronousExecutor W * W)).

Lemma call_partial_typed (p : @partial W) w v t :
  (call_partial p w).1 = Ok (v, ByType t) -> isinstance v t = true.
Proof.
  unfold call_partial, SyncOperation_operation_wrapper, mbind, M_bind.
  destruct (__call__ (function (func p)) (keywords p) w) as [[state_value|e] w'];
    [|done].
  rewrite id_cases.
  destruct (is_NoneType (provides (func p))); simpl; [done|].
  destruct (isinstance state_value (provides (func p))) eqn:Hi; simpl; [|done].
  destruct (is_None state_value); simpl; [done|].
  by intros [= <- <-].
Qed.

Lemma SynchronousExecutor_join_next_typed timeout
    (x : @SynchronousExecutor W * W) v t :
  (SynchronousExecutor_join_next timeout x).1 = Ok (v, ByType t) ->
  isinstance v t = true.
Proof.
  unfold SynchronousExecutor_join_next.
  destruct (negb (SynchronousExecutor_running x.1)); [done|].
  destruct (list_pop (schedule x.1)) as [[p rest]|]; [|done]. simpl.
  apply call_partial_typed.
Qed.

(** X9.  On the serial executor every result goes through the descriptor's
    wrapper before the loop sees it, so the result mapping stays well
    typed: when each value it holds is an instance of the state type it is
    stored under before the run, so is each after any number of turns, and
    [get_state_value] of a type yields nothing or an instance of it. *)
Theorem SynchronousExecutor_states_instances fuel self cls :
  (forall t v, get_state_value cls t = Some v -> isinstance v t = true) ->
  forall t v,
    get_state_value
      (plan (start_or_resume fuel self {| plan := cls; events := [] |}).2) t
    = Some v ->
    isinstance v t = true.
Proof.
  intros Hcls t v Hget.
  apply (start_or_resume_states
           (fun k v => forall t, k = ByType t -> isinstance v t = true)
           fuel self cls) with (k := ByType t); [| |exact Hget|done].
  - intros x v' k Hx _ _ t' ->.
    by apply (SynchronousExecutor_join_next_typed None x).
  - intros k v' Hk t' ->. by apply Hcls.
Qed.

End SerialStates.

Lemma start_or_resume_states_not_None_witness :
  __onward_states__ (plan AddUsers_run.2) !! ByType ParseFile
  = Some (new ParseFile "percentage=.213")
  /\ is_str (ByType ParseFile) = false
  /\ is_None (new ParseFile "percentage=.213") = false.
Proof.
  assert (Hget : __onward_states__ (plan AddUsers_run.2) !! ByType ParseFile
                 = Some (new ParseFile "percentage=.213"))
    by (vm_compute; reflexivity).
  split; [exact Hget|].
  apply (start_or_resume_states_not_None 10 AddUsers_instance
           (Plan_init AddUsers_class).2); [|exact Hget].
  intros k v Hk.
  change (__onward_states__ (Plan_init AddUsers_class).2)
    with (∅ : gmap OutputKey pyvalue) in Hk.
  by rewrite lookup_empty in Hk.
Defined.

Lemma SynchronousExecutor_states_instances_witness :
  get_state_value (plan AddUsers_run.2) ParseFile
  = Some (new ParseFile "percentage=.213")
  /\ isinstance (new ParseFile "percentage=.213") ParseFile = true.
Proof.
  assert (Hget : get_state_value (plan AddUsers_run.2) ParseFile
                 = Some (new ParseFile "percentage=.213"))
    by (vm_compute; reflexivity).
  split; [exact Hget|].
  apply (SynchronousExecutor_states_instances 10 AddUsers_instance
           (Plan_init AddUsers_class).2); [|exact Hget].
  intros t v Hk. unfold get_state_value in Hk.
  change (__onward_states__ (Plan_init AddUsers_class).2)
    with (∅ : gmap OutputKey pyvalue) in Hk.
  by rewrite lookup_empty in Hk.
Defined.

(** ** The loop comes to an end *)

Section Remaining.
Implicit Types (n2i : list (OutputKey * _NodeInfo)) (g : TopologicalSorter).

Lemma sum_list_fmap_le {A} (f f' : A -> nat) (l : list A) :
  (forall a, a ∈ l -> f' a <= f a) ->
  sum_list (f' <$> l) <= sum_list (f <$> l).
Proof.
  induction l as [|a l IH]; intros Hle; [done|].
  rewrite !fmap_cons. cbn [sum_list sum_list_with].
  pose proof (Hle a (list_elem_of_here _ _)).
  assert (sum_list (f' <$> l) <= sum_list (f <$> l));
    [|unfold Datatypes.id in *; lia].
  apply IH. intros b Hb. apply Hle. by right.
Qed.

Lemma sum_list_fmap_lt {A} (f f' : A -> nat) (l : list A) a :
  (forall a, a ∈ l -> f' a <= f a) ->
  a ∈ l -> f' a < f a ->
  sum_list (f' <$> l) < sum_list (f <$> l).
Proof.
  induction l as [|b l IH]; intros Hle Hin Hlt; [by apply elem_of_nil in Hin|].
  rewrite !fmap_cons. cbn [sum_list sum_list_with].
  pose proof (Hle b (list_elem_of_here _ _)).
  assert (Hrest : forall c, c ∈ l -> f' c <= f c)
    by (intros c Hc; apply Hle; by right).
  apply elem_of_cons in Hin as [->|Hin].
  - pose proof (sum_list_fmap_le f f' l Hrest). unfold Datatypes.id in *. lia.
  - specialize (IH Hrest Hin Hlt). unfold Datatypes.id in *. lia.
Qed.

Lemma remaining_bound n2i : remaining n2i <= 2 * length n2i.
Proof.
  unfold remaining, dict_keys. rewrite <- (length_fmap fst n2i).
  induction (n2i.*1) as [|k l IH]; [done|].
  rewrite fmap_cons. cbn [sum_list sum_list_with length].
  assert (cost (status n2i k) <= 2); [|unfold Datatypes.id in *; lia].
  unfold cost. repeat case_decide; lia.
Qed.

Lemma status_key n2i k z : status n2i k = Some z -> k ∈ dict_keys n2i.
Proof.
  unfold status. destruct (dict_get n2i k) as [i|] eqn:Hi; [|done].
  intros _. by apply (node2info_key _ _ i).
Qed.

(** Passing nodes out brings the run nearer its end. *)
Lemma remaining_get_ready g ready g' :
  sorter_inv g ->
  TopologicalSorter_get_ready g = (Ok ready, g') ->
  remaining (_node2info g') <= remaining (_node2info g)
  /\ (ready <> [] -> remaining (_node2info g') < remaining (_node2info g)).
Proof.
  intros Hinv Heq.
  destruct (TopologicalSorter_get_ready_status g Hinv)
    as (ready' & g'' & Heq' & _ & [Hkeys _] & _ & Hzero & Hstat).
  rewrite Heq in Heq'. injection Heq' as <- <-.
  assert (Hle : forall k, k ∈ dict_keys (_node2info g) ->
                  cost (status (_node2info g') k) <= cost (status (_node2info g) k)).
  { intros k _. rewrite Hstat. destruct (decide (k ∈ ready)) as [Hk|]; [|done].
    rewrite (Hzero k Hk). vm_compute. lia. }
  unfold remaining. rewrite <- Hkeys. split; [by apply sum_list_fmap_le|].
  intros Hne. destruct ready as [|k ready]; [done|].
  assert (Hk : k ∈ k :: ready) by left.
  apply (sum_list_fmap_lt _ _ _ k); [done| |].
  - by apply (status_key _ _ 0%Z), Hzero.
  - rewrite Hstat, decide_True, (Hzero k) by done. vm_compute. lia.
Qed.

(** So does marking a node done. *)
Lemma remaining_done g n g' :
  sorter_inv g ->
  TopologicalSorter_done n g = (Ok tt, g') ->
  remaining (_node2info g') < remaining (_node2info g).
Proof.
  intros Hinv Heq.
  destruct (TopologicalSorter_done_spec n g Hinv)
    as [(g'' & Heq' & Hout & _ & [Hkeys _] & Hstat)|(_ & e & Heq')];
    [|by rewrite Heq in Heq'].
  rewrite Heq in Heq'. injection Heq' as <-.
  unfold remaining. rewrite <- Hkeys.
  apply (sum_list_fmap_lt _ _ _ n).
  - intros k _. rewrite Hstat. destruct (decide (n = k)) as [->|]; [|done].
    rewrite Hout. vm_compute. lia.
  - by apply (status_key _ _ _NODE_OUT).
  - rewrite Hstat, decide_True, Hout by done. vm_compute. lia.
Qed.

End Remaining.

Section Termination.
Context {W X : Type} `{!@Executor W X}.
Implicit Types (r : @Run W X) (self : pyvalue) (cls : @PlanClass W X).

Local Arguments TopologicalSorter_done : simpl never.
Local Arguments TopologicalSorter_get_ready : simpl never.
Local Arguments TopologicalSorter_is_active : simpl never.
Local Arguments build_partials : simpl never.
Local Arguments dict_getitem : simpl never.

(** A turn that does not raise has passed nodes out, or else has marked
    one done. *)
Lemma loop_body_graph_Ok self r :
  (loop_body self r).1 = Ok tt ->
  exists nodes g1,
    TopologicalSorter_get_ready (graph_of r) = (Ok nodes, g1)
    /\ ((nodes <> [] /\ graph_of (loop_body self r).2 = g1)
        \/ (nodes = []
            /\ exists k, TopologicalSorter_done k g1
                         = (Ok tt, graph_of (loop_body self r).2))).
Proof.
  rewrite loop_body_eq.
  destruct (TopologicalSorter_get_ready (graph_of r)) as [[nodes|e] g1] eqn:Hg;
    simpl; [|done].
  intros Hok. exists nodes, g1. split; [done|]. revert Hok.
  case_bool_decide.
  - rewrite join_and_record_eq. simpl.
    destruct (join_next None (__onward_executor__ (plan r)))
      as [[[next_result next_state]|e] x]; simpl; [|done].
    intros Hok. right. split; [done|]. exists next_state. revert Hok.
    destruct (is_str next_state).
    { cbv beta iota delta [graph_of set_executor add_events set_graph set_states
                             plan __onward_operation_graph__].
      by destruct (TopologicalSorter_done next_state g1) as [[[]|] g2]. }
    destruct (is_None next_result).
    { by destruct (dict_getitem _ _). }
    cbv beta iota delta [graph_of set_executor add_events set_graph set_states
                           plan __onward_operation_graph__].
    by destruct (TopologicalSorter_done next_state g1) as [[[]|] g2].
  - rewrite dispatch_eq. intros Hok. left. split; [done|]. revert Hok.
    destruct (build_partials _ self nodes [] []) as [[sp ap]|e]; [|done].
    simpl. destruct (add_operations sp _) as [[|e] x]; [|done]. simpl.
    by case_bool_decide.
Qed.

Lemma loop_body_remaining registry n2i0 self r :
  run_inv registry n2i0 r ->
  (loop_body self r).1 = Ok tt ->
  remaining (_node2info (graph_of (loop_body self r).2))
  < remaining (_node2info (graph_of r)).
Proof.
  intros [Hsorter _] Hok.
  destruct (loop_body_graph_Ok self r Hok)
    as (nodes & g1 & Hready & [[Hne ->]|[-> [k Hdone]]]).
  - by apply (remaining_get_ready _ _ _ Hsorter Hready).
  - destruct (TopologicalSorter_get_ready_status _ Hsorter)
      as (ready' & g'' & Heq' & Hinv1 & _).
    rewrite Hready in Heq'. injection Heq' as <- <-.
    pose proof (remaining_done _ _ _ Hinv1 Hdone).
    pose proof (proj1 (remaining_get_ready _ _ _ Hsorter Hready)). lia.
Qed.

Lemma start_or_resume_fuel registry n2i0 self fuel r :
  edges_of registry n2i0 ->
  run_inv registry n2i0 r ->
  remaining (_node2info (graph_of r)) < fuel ->
  (start_or_resume fuel self r).1 <> Ok OutOfFuel.
Proof.
  intros Hstatic. revert r.
  induction fuel as [|fuel IH]; intros r Hinv Hlt; [lia|].
  rewrite start_or_resume_eq.
  destruct (TopologicalSorter_is_active (graph_of r)).1 as [[]|]; [|done|done].
  pose proof (loop_body_inv registry n2i0 self r Hstatic Hinv) as Hinv'.
  pose proof (loop_body_remaining registry n2i0 self r Hinv) as Hrem.
  destruct (loop_body self r) as [[[]|e] r']; [|done].
  simpl in *. apply IH; [done|]. specialize (Hrem eq_refl). lia.
Qed.

(** X10.  The loop of [start_or_resume] comes to an end, whatever the
    executor and the operations do: on the graph that the first instance
    of a class prepares, with N nodes, more than 2 N turns are never
    needed.  Within that bound the run has completed or has raised. *)
Theorem start_or_resume_terminates fuel self cls :
  __onward_operation_graph__ cls = TopologicalSorter_new ->
  2 * length (_node2info (__onward_operation_graph__ (Plan_init cls).2)) < fuel ->
  let run := start_or_resume fuel self
               {| plan := (Plan_init cls).2; events := [] |} in
  run.1 = Ok Completed \/ exists e, run.1 = Raise e.
Proof.
  intros Hnew. rewrite Plan_init_eq by (by rewrite Hnew). rewrite Hnew.
  cbn [_node2info TopologicalSorter_new fst snd]. cbv zeta.
  destruct (run_inv_initial cls) as [Hstatic Hinv0]. cbv zeta in Hstatic, Hinv0.
  intros Hfuel.
  pose proof (start_or_resume_fuel _ _ self fuel _ Hstatic Hinv0) as Hend.
  destruct (start_or_resume fuel self _).1 as [[]|e]; [by left| |by right; exists e].
  exfalso. apply Hend; [|done].
  eapply Nat.le_lt_trans; [apply remaining_bound|]. exact Hfuel.
Qed.

End Termination.

Lemma start_or_resume_terminates_witness :
  length (_node2info (__onward_operation_graph__ (Plan_init AddUsers_class).2)) = 2
  /\ ((start_or_resume 5 AddUsers_instance
         {| plan := (Plan_init AddUsers_class).2; events := [] |}).1
      = Ok Completed
      \/ exists e,
          (start_or_resume 5 AddUsers_instance
             {| plan := (Plan_init AddUsers_class).2; events := [] |}).1
          = Raise e).
Proof.
  split; [reflexivity|].
  apply (start_or_resume_terminates 5 AddUsers_instance AddUsers_class eq_refl).
  vm_compute. lia.
Defined.

(** ** Cycles are found at construction, and only cycles *)

Section EliminationOrder.
Implicit Types (n2i : list (OutputKey * _NodeInfo)) (removed : list OutputKey).

Lemma index_of_lt k l : k ∈ l -> index_of k l < length l.
Proof.
  induction l as [|x l IH]; [by intros ?%elem_of_nil|]. simpl.
  case_decide; [lia|]. intros [->|Hk]%elem_of_cons; [done|].
  specialize (IH Hk). lia.
Qed.

Lemma index_of_app_l k l l' : k ∈ l -> index_of k (l ++ l') = index_of k l.
Proof.
  induction l as [|x l IH]; [by intros ?%elem_of_nil|]. simpl.
  case_decide; [done|]. intros [->|Hk]%elem_of_cons; [done|]. by rewrite IH.
Qed.

Lemma index_of_app_r k l l' : k ∉ l -> length l <= index_of k (l ++ l').
Proof.
  induction l as [|x l IH]; simpl; [lia|].
  intros [Hne Hk]%not_elem_of_cons. rewrite decide_False by done.
  specialize (IH Hk). lia.
Qed.

Lemma predecessors_in_edge n2i removed p s :
  predecessors_in n2i removed s = true -> has_edge n2i p s -> p ∈ removed.
Proof.
  unfold predecessors_in. rewrite forallb_forall.
  intros Hall (i & Hi%dict_get_Some_elem & Hs).
  apply list_elem_of_In, Hall in Hi. simpl in Hi.
  apply orb_true_iff in Hi as [Hi|Hi]; apply bool_decide_eq_true_1 in Hi; done.
Qed.

(** [eliminate] removes a node after all its predecessors. *)
Lemma eliminate_order n2i fuel removed :
  (forall p s, s ∈ removed -> has_edge n2i p s ->
               index_of p removed < index_of s removed) ->
  forall p s, s ∈ eliminate fuel n2i removed -> has_edge n2i p s ->
              index_of p (eliminate fuel n2i removed)
              < index_of s (eliminate fuel n2i removed).
Proof.
  revert removed. induction fuel as [|fuel IH]; intros removed Hq; [done|].
  simpl. apply IH. intros p s Hs Hedge.
  destruct (decide (s ∈ removed)) as [Hin|Hnin].
  - pose proof (Hq p s Hin Hedge) as Hlt.
    pose proof (index_of_lt s removed Hin).
    destruct (decide (p ∈ removed)) as [Hp|Hp].
    + by rewrite !index_of_app_l.
    + pose proof (index_of_app_r p removed [] Hp) as Hge.
      rewrite app_nil_r in Hge. lia.
  - apply elem_of_app in Hs as [?|Hs]; [done|].
    apply list_elem_of_filter in Hs as [[_ Hpred] _].
    pose proof (predecessors_in_edge _ _ _ _ Hpred Hedge) as Hp.
    rewrite (index_of_app_l p) by done.
    pose proof (index_of_lt p removed Hp).
    pose proof (index_of_app_r s removed
                  (filter (fun n => (n ∉ removed)
                                    ∧ (predecessors_in n2i removed n = true))
                     (dict_keys n2i)) Hnin).
    lia.
Qed.

Lemma find_cycle_rank (g : TopologicalSorter) :
  _find_cycle g = false ->
  exists rank : OutputKey -> nat,
    forall p s, s ∈ dict_keys (_node2info g) -> has_edge (_node2info g) p s ->
                rank p < rank s.
Proof.
  intros Hf.
  exists (fun k => index_of k (eliminate (length (_node2info g)) (_node2info g) [])).
  intros p s Hs Hedge. apply eliminate_order; [|by apply find_cycle_false|done].
  by intros ? ? ?%elem_of_nil.
Qed.

End EliminationOrder.

Section ConstructionFailure.
Context {W X : Type}.
Implicit Types (cls : @PlanClass W X).

(** X11.  Constructing the first instance of a class succeeds exactly when
    the dependency graph of its registry is acyclic, and raises CycleError
    exactly when it is not; it does nothing else. *)
Theorem Plan_init_CycleError_iff cls :
  __onward_operation_graph__ cls = TopologicalSorter_new ->
  ((Plan_init cls).1 = Ok tt <-> acyclic (__onward_operations__ cls))
  /\ ((Plan_init cls).1 = Raise CycleError
      <-> ~ acyclic (__onward_operations__ cls)).
Proof.
  intros Hnew. rewrite Plan_init_eq by (by rewrite Hnew). rewrite Hnew.
  cbn [_node2info TopologicalSorter_new fst snd]. cbv zeta.
  set (registry := __onward_operations__ cls).
  set (g := prepared (set_node2info (build_graph registry []) TopologicalSorter_new)).
  destruct (build_graph_shape registry []) as [Hedges Hkeys].
  pose proof (building_build_graph (ByName "") registry [] (building_nil _))
    as [(Hnd & _) _].
  assert (Hiff : _find_cycle g = false <-> acyclic registry).
  { split.
    - intros [rank Hrank]%find_cycle_rank. exists rank. intros s op p Hop Hp.
      apply Hrank.
      + apply Hkeys. right; left. apply list_elem_of_fmap. by exists (s, op).
      + apply Hedges. right. by exists op.
    - intros [rank Hrank]. apply (find_cycle_acyclic g rank); [done|].
      intros p s [(i & Hi & _)|(op & Hop & Hp)]%Hedges; [done|].
      by apply (Hrank s op). }
  destruct (_find_cycle g); simpl.
  - split; split; try done.
    + intros Ha. by apply Hiff in Ha.
    + intros _ Ha%Hiff. done.
  - split; split; try done.
    + intros _. by apply Hiff.
    + intros Hn. exfalso. by apply Hn, Hiff.
Qed.

End ConstructionFailure.

Lemma Plan_init_CycleError_iff_witness :
  length (__onward_operations__ Circular_class) = 2
  /\ (Plan_init Circular_class).1 = Raise CycleError
  /\ ~ acyclic (__onward_operations__ Circular_class).
Proof.
  split; [reflexivity|]. split; [reflexivity|].
  apply (Plan_init_CycleError_iff Circular_class eq_refl). reflexivity.
Defined.

(** ** A dependency that nothing provides *)

Section MissingProvider.
Context {W X : Type} `{!@Executor W X}.
Implicit Types (r : @Run W X) (self : pyvalue) (cls : @PlanClass W X).

Local Arguments TopologicalSorter_done : simpl never.
Local Arguments TopologicalSorter_get_ready : simpl never.
Local Arguments TopologicalSorter_is_active : simpl never.

Lemma resolve_args_Raise states self deps e :
  resolve_args states self deps = Raise e -> e = KeyError.
Proof.
  induction deps as [|d deps IH]; simpl; [done|].
  destruct (issubclass_State d).
  - destruct (states !! ByType d); simpl; [|congruence].
    destruct (resolve_args states self deps); simpl; [done|]. intros [= <-]. auto.
  - simpl. destruct (resolve_args states self deps); simpl; [done|].
    intros [= <-]. auto.
Qed.

Lemma bind_by_type_Raise hint_map args kwargs e :
  bind_by_type hint_map args kwargs = Raise e -> e = KeyError.
Proof.
  revert kwargs. induction args as [|a args IH]; intros kwargs; simpl; [done|].
  unfold dict_getitem. destruct (dict_get hint_map (type_of a)); simpl.
  - apply IH.
  - congruence.
Qed.

Lemma build_partials_Raise cls self nodes sp ap e :
  build_partials cls self nodes sp ap = Raise e -> e = KeyError.
Proof.
  revert sp ap. induction nodes as [|state nodes IH]; intros sp ap; simpl; [done|].
  unfold dict_getitem.
  destruct (dict_get (__onward_operations__ cls) state) as [op|]; simpl;
    [|congruence].
  destruct (resolve_args _ self _) as [args|e'] eqn:Hargs; simpl;
    [|apply resolve_args_Raise in Hargs; congruence].
  destruct op as [o|o]; unfold SyncOperation_call, AsyncOperation_call.
  - destruct (bind_by_type _ args []) as [kw|e'] eqn:Hb; simpl;
      [apply IH|apply bind_by_type_Raise in Hb; congruence].
  - destruct (bind_by_type _ args []) as [kw|e'] eqn:Hb; simpl;
      [apply IH|apply bind_by_type_Raise in Hb; congruence].
Qed.

Lemma build_partials_Ok_keys cls self nodes sp ap out k :
  build_partials cls self nodes sp ap = Ok out ->
  k ∈ nodes -> is_Some (dict_get (__onward_operations__ cls) k).
Proof.
  revert sp ap. induction nodes as [|state nodes IH]; intros sp ap;
    [by intros _ ?%elem_of_nil|].
  simpl. unfold dict_getitem.
  destruct (dict_get (__onward_operations__ cls) state) as [op|] eqn:Hop; simpl;
    [|done].
  destruct (resolve_args _ self _) as [args|]; simpl; [|done].
  intros Hb [->|Hk]%elem_of_cons; [by rewrite Hop|]. revert Hb.
  destruct op as [o|o].
  - destruct (SyncOperation_call o args); simpl; [|done]. intros Hb. by eapply IH.
  - destruct (AsyncOperation_call o args); simpl; [|done]. intros Hb. by eapply IH.
Qed.

(** A state that is asked for and not provided is a node without
    predecessors: it is ready from the start. *)
Lemma unprovided_ready (registry : @Registry W) s op u :
  (s, op) ∈ registry -> u ∈ state_dependencies op ->
  u ∉ dict_keys registry ->
  exists i, dict_get (build_graph registry []) u = Some i
            /\ npredecessors i = 0%Z.
Proof.
  intros Hop Hu Hnone.
  destruct (build_graph_shape registry []) as [Hedges Hkeys].
  pose proof (building_build_graph (ByName "") registry [] (building_nil _))
    as [(Hnd & _ & _ & Hcount) Hpos].
  assert (Hk : u ∈ dict_keys (build_graph registry [])).
  { apply Hkeys. right; right. by exists s, op. }
  apply dict_get_is_Some_keys in Hk as [i Hi]. exists i. split; [done|].
  assert (Hpend : pending (build_graph registry []) u = 0).
  { apply weigh_zero; [done|]. intros k j Hj. unfold contribution.
    case_bool_decide; [done|]. apply occurrences_zero. intros Hin.
    assert (Hedge : has_edge (build_graph registry []) k u) by (by exists j).
    apply Hedges in Hedge as [(? & ? & _)|(op' & Hop' & _)]; [done|].
    apply Hnone, list_elem_of_fmap. by exists (u, op'). }
  specialize (Hpos u i Hi).
  destruct (Hcount u i Hi) as [Hc|(_ & [Hc|Hc])];
    [|unfold _NODE_OUT in Hc; lia|unfold _NODE_DONE in Hc; lia].
  rewrite Hpend in Hc. destruct (decide (u = ByName "")); simpl in Hc; lia.
Qed.

(** X12.  Nothing checks that every state an operation asks for has a
    provider.  When one has none, construction still succeeds (the state
    becomes a node of its own), and the first turn of [start_or_resume]
    finds that node ready, looks it up in the registry and fails with
    KeyError, before anything is handed to the executor. *)
Theorem start_or_resume_missing_provider fuel self cls s op d :
  __onward_operation_graph__ cls = TopologicalSorter_new ->
  (s, op) ∈ __onward_operations__ cls ->
  d ∈ dependencies (fields op) ->
  issubclass_State d = true ->
  ByType d ∉ dict_keys (__onward_operations__ cls) ->
  let run := start_or_resume (S fuel) self
               {| plan := (Plan_init cls).2; events := [] |} in
  exists nodes,
    ByType d ∈ nodes
    /\ run.1 = Raise KeyError
    /\ events run.2 = [Ready nodes]
    /\ __onward_executor__ (plan run.2) = __onward_executor__ cls
    /\ __onward_states__ (plan run.2) = __onward_states__ cls.
Proof.
  intros Hnew Hop Hd Hs Hnone.
  rewrite Plan_init_eq by (by rewrite Hnew). rewrite Hnew.
  cbn [_node2info TopologicalSorter_new fst snd]. cbv zeta.
  destruct (run_inv_initial cls) as [_ [Hsorter _]]. cbv zeta in Hsorter.
  set (registry := __onward_operations__ cls) in *.
  set (g := prepared (set_node2info (build_graph registry []) TopologicalSorter_new))
    in *.
  set (r0 := {| plan := with_graph g cls; events := [] |}) in *.
  change (graph_of r0) with g in Hsorter.
  destruct (TopologicalSorter_get_ready_spec g Hsorter)
    as (ready & n2i' & Hready & _ & Hmem & Hget & _).
  assert (Hu : ByType d ∈ ready).
  { apply Hmem. apply (unprovided_ready registry s op); [done| |done].
    unfold state_dependencies. apply list_elem_of_fmap. exists d.
    split; [done|]. by apply list_elem_of_filter. }
  exists ready. split; [done|].
  rewrite start_or_resume_eq. change (graph_of r0) with g.
  assert (Hactive : (TopologicalSorter_is_active g).1 = Ok true).
  { unfold TopologicalSorter_is_active. rewrite Hready. simpl. f_equal.
    apply bool_decide_eq_true_2. intros ->. by apply elem_of_nil in Hu. }
  rewrite Hactive, loop_body_eq. change (graph_of r0) with g. rewrite Hget.
  cbn [fst snd]. cbv zeta. rewrite bool_decide_eq_false_2
    by (intros ->; by apply elem_of_nil in Hu).
  rewrite dispatch_eq.
  destruct (build_partials _ self ready [] []) as [out|e] eqn:Hb.
  - exfalso. apply (build_partials_Ok_keys _ _ _ _ _ _ (ByType d) Hb) in Hu.
    apply dict_get_is_Some_keys in Hu. by apply Hnone.
  - apply build_partials_Raise in Hb as ->. done.
Qed.

End MissingProvider.

Lemma start_or_resume_missing_provider_witness :
  (Plan_init Unprovided_class).1 = Ok tt
  /\ exists nodes,
       ByType UploadResults ∈ nodes
       /\ (start_or_resume 1 AddUsers_instance
             {| plan := (Plan_init Unprovided_class).2; events := [] |}).1
          = Raise KeyError
       /\ events (start_or_resume 1 AddUsers_instance
                    {| plan := (Plan_init Unprovided_class).2; events := [] |}).2
          = [Ready nodes]
       /\ __onward_executor__
            (plan (start_or_resume 1 AddUsers_instance
                     {| plan := (Plan_init Unprovided_class).2; events := [] |}).2)
          = __onward_executor__ Unprovided_class
       /\ __onward_states__
            (plan (start_or_resume 1 AddUsers_instance
                     {| plan := (Plan_init Unprovided_class).2; events := [] |}).2)
          = __onward_states__ Unprovided_class.
Proof.
  split; [reflexivity|].
  apply (start_or_resume_missing_provider 0 AddUsers_instance Unprovided_class
           (ByName "save_details") (SyncOperation (descriptor save_details))
           UploadResults eq_refl).
  - vm_compute. apply list_elem_of_further, list_elem_of_here.
  - apply (bool_decide_unpack _). vm_compute. exact I.
  - reflexivity.
  - apply (bool_decide_unpack _). vm_compute. exact I.
Defined.

(** ** Calling [start_or_resume] again *)

Section Resume.
Context {W X : Type} `{!@Executor W X}.
Implicit Types (r : @Run W X) (self : pyvalue).

(** X13.  Once a run has completed, calling [start_or_resume] again does
    nothing: it returns at once, and graph, results, executor and trace
    are as the first call left them. *)
Theorem start_or_resume_again fuel fuel' self r :
  (start_or_resume fuel self r).1 = Ok Completed ->
  start_or_resume (S fuel') self (start_or_resume fuel self r).2
  = (Ok Completed, (start_or_resume fuel self r).2).
Proof.
  intros Hend%start_or_resume_completed.
  by rewrite start_or_resume_eq, Hend.
Qed.

End Resume.

Lemma start_or_resume_again_witness :
  start_or_resume 3 AddUsers_instance AddUsers_run.2
  = (Ok Completed, AddUsers_run.2).
Proof.
  apply (start_or_resume_again 10 2 AddUsers_instance
           {| plan := (Plan_init AddUsers_class).2; events := [] |}).
  vm_compute. reflexivity.
Defined.

(** ** Async operations on an executor without support for them *)

Section AsyncNotSupported.
Context {W X : Type} `{!@Executor W X}.
Implicit Types (r : @Run W X) (self : pyvalue).

Local Arguments TopologicalSorter_done : simpl never.
Local Arguments TopologicalSorter_get_ready : simpl never.
Local Arguments TopologicalSorter_is_active : simpl never.
Local Arguments build_partials : simpl never.
Local Arguments dict_getitem : simpl never.

Lemma no_async_dispatch_app tr es :
  no_async_dispatch tr ->
  (forall o : @Operation W, Dispatch (AsyncOperation o) ∉ es) ->
  no_async_dispatch (tr ++ es).
Proof. intros Htr Hes o [?|?]%elem_of_app; [by eapply Htr|by eapply Hes]. Qed.

Lemma loop_body_async self r :
  (forall ops x, add_async_operations ops x = Executor_add_async_operations ops x) ->
  no_async_dispatch (events r) ->
  (loop_body self r).1 = Raise AsyncNotSupported
  \/ no_async_dispatch (events (loop_body self r).2).
Proof.
  intros Hbase Hr. rewrite loop_body_eq.
  destruct (TopologicalSorter_get_ready (graph_of r)) as [[nodes|e] g1]; simpl;
    [|by right].
  assert (H1 : no_async_dispatch (events r ++ [Ready nodes])).
  { apply no_async_dispatch_app; [done|].
    by intros o ?%list_elem_of_singleton. }
  case_bool_decide.
  - right. rewrite join_and_record_eq. simpl.
    destruct (join_next None (__onward_executor__ (plan r)))
      as [[[next_result next_state]|e] x]; simpl; [|done].
    assert (Hfinish : forall r2, no_async_dispatch (events r2) ->
      no_async_dispatch (events
        (match (TopologicalSorter_done next_state (graph_of r2)).1 with
         | Ok _ =>
             (Ok (),
              add_events [Done next_state]
                (set_graph (TopologicalSorter_done next_state (graph_of r2)).2 r2))
         | Raise e =>
             (Raise e,
              set_graph (TopologicalSorter_done next_state (graph_of r2)).2 r2)
         end).2)).
    { intros r2 H2.
      destruct (TopologicalSorter_done next_state (graph_of r2)) as [[|] g2];
        simpl; [|done].
      apply no_async_dispatch_app; [done|].
      by intros o ?%list_elem_of_singleton. }
    destruct (is_str next_state); [by apply Hfinish|].
    destruct (is_None next_result); [by destruct (dict_getitem _ _)|].
    apply Hfinish. simpl. apply no_async_dispatch_app; [done|].
    by intros o ?%list_elem_of_singleton.
  - rewrite dispatch_eq.
    destruct (build_partials _ self nodes [] []) as [[sp ap]|e]; [|by right].
    simpl.
    assert (H2 : no_async_dispatch
                   ((events r ++ [Ready nodes])
                    ++ ((fun p => Dispatch (SyncOperation (func p.1))) <$> sp))).
    { apply no_async_dispatch_app; [done|].
      by intros o (p & ? & _)%list_elem_of_fmap. }
    destruct (add_operations sp _) as [[|e] x]; simpl; [|by right].
    case_bool_decide; [|by right].
    left. simpl. by rewrite Hbase.
Qed.

(** X14.  On an executor that inherits [add_async_operations] from the
    base class, as the serial and the threaded executor do, no run gets
    past an async operation: when the trace of a run shows one handed to
    the executor, the run has ended with AsyncNotSupported. *)
Theorem start_or_resume_async_not_supported fuel self r o :
  (forall ops x, add_async_operations ops x = Executor_add_async_operations ops x) ->
  no_async_dispatch (events r) ->
  Dispatch (AsyncOperation o) ∈ events (start_or_resume fuel self r).2 ->
  (start_or_resume fuel self r).1 = Raise AsyncNotSupported.
Proof.
  intros Hbase. revert r.
  induction fuel as [|fuel IH]; intros r Hr; [by intros ?%Hr|].
  rewrite start_or_resume_eq.
  destruct (TopologicalSorter_is_active (graph_of r)).1 as [[]|];
    [|by intros ?%Hr|by intros ?%Hr].
  destruct (loop_body_async self r Hbase Hr) as [Hraise|Hnone].
  - destruct (loop_body self r) as [[[]|e] r']; simpl in *; [done|].
    intros _. by injection Hraise as ->.
  - destruct (loop_body self r) as [[[]|e] r']; simpl in *; [by apply IH|].
    by intros ?%Hnone.
Qed.

End AsyncNotSupported.

Lemma start_or_resume_async_not_supported_witness :
  Dispatch (AsyncOperation (descriptor fetch))
    ∈ events (start_or_resume 3 AddUsers_instance
                {| plan := (Plan_init Fetching_class).2; events := [] |}).2
  /\ (start_or_resume 3 AddUsers_instance
        {| plan := (Plan_init Fetching_class).2; events := [] |}).1
     = Raise AsyncNotSupported.
Proof.
  assert (Hin : Dispatch (AsyncOperation (descriptor fetch))
                  ∈ events (start_or_resume 3 AddUsers_instance
                              {| plan := (Plan_init Fetching_class).2;
                                 events := [] |}).2).
  { vm_compute. apply list_elem_of_further, list_elem_of_here. }
  split; [exact Hin|].
  apply (start_or_resume_async_not_supported 3 AddUsers_instance _
           (descriptor fetch)); [done| |exact Hin].
  by intros o' ?%elem_of_nil.
Defined.

(** ** Every operation is dispatched, once *)

Section Dispatched.
Context {W X : Type} `{!@Executor W X}.
Implicit Types (r : @Run W X) (self : pyvalue) (cls : @PlanClass W X)
  (tr : list (@event W)).

Local Arguments TopologicalSorter_done : simpl never.
Local Arguments TopologicalSorter_get_ready : simpl never.
Local Arguments TopologicalSorter_is_active : simpl never.
Local Arguments dict_getitem : simpl never.

Lemma dispatched_app tr es : dispatched (tr ++ es) = dispatched tr ++ dispatched es.
Proof.
  induction tr as [|e tr IH]; [done|]. destruct e; simpl; by rewrite IH.
Qed.

Lemma dispatched_dispatches {A} (f : A -> @OperationType W) (l : list A) :
  dispatched ((fun a => Dispatch (f a)) <$> l) = f <$> l.
Proof. induction l as [|a l IH]; [done|]. rewrite !fmap_cons. simpl. by rewrite IH. Qed.

(** The deferred calls of a turn are those of the ready nodes' operations,
    in the order of the nodes: the sync ones in one list, the async ones
    in the other. *)
Lemma build_partials_ops cls self nodes sp ap sp' ap' :
  build_partials cls self nodes sp ap = Ok (sp', ap') ->
  (fun p => SyncOperation (func p.1)) <$> sp'
  = ((fun p => SyncOperation (func p.1)) <$> sp)
    ++ filter (fun op => is_sync op = true)
         (omap (dict_get (__onward_operations__ cls)) nodes)
  /\ (fun c => AsyncOperation (cr_self c.1)) <$> ap'
     = ((fun c => AsyncOperation (cr_self c.1)) <$> ap)
       ++ filter (fun op => ¬ is_sync op = true)
            (omap (dict_get (__onward_operations__ cls)) nodes).
Proof.
  revert sp ap. induction nodes as [|state nodes IH]; intros sp ap; simpl.
  - intros [= <- <-]. by rewrite !app_nil_r.
  - unfold dict_getitem.
    destruct (dict_get (__onward_operations__ cls) state) as [op|]; simpl; [|done].
    destruct (resolve_args _ self _) as [args|]; simpl; [|done].
    destruct op as [o|o].
    + unfold SyncOperation_call.
      destruct (bind_by_type _ args []) as [kw|]; simpl; [|done].
      intros [Hs Ha]%IH. rewrite Hs, Ha, fmap_app, <- app_assoc. simpl.
      rewrite !filter_cons. simpl. done.
    + unfold AsyncOperation_call.
      destruct (bind_by_type _ args []) as [kw|]; simpl; [|done].
      intros [Hs Ha]%IH. rewrite Hs, Ha, fmap_app, <- app_assoc. simpl.
      rewrite !filter_cons. simpl. done.
Qed.

Lemma dispatched_inv_quiet registry r r' es :
  __onward_operations__ (plan r') = __onward_operations__ (plan r) ->
  events r' = events r ++ es ->
  dispatched es = [] -> surfaced es = [] ->
  dispatched_inv registry r -> dispatched_inv registry r'.
Proof.
  intros Hops Hev Hd Hs (Hreg & Hperm & Hsome). unfold dispatched_inv.
  rewrite Hops, Hev, dispatched_app, surfaced_app, Hd, Hs, !app_nil_r. done.
Qed.

Lemma loop_body_dispatched registry self r :
  dispatched_inv registry r ->
  (loop_body self r).1 = Ok tt ->
  dispatched_inv registry (loop_body self r).2.
Proof.
  intros Hinv. rewrite loop_body_eq.
  destruct (TopologicalSorter_get_ready (graph_of r)) as [[nodes|e] g1]; simpl;
    [|done].
  case_bool_decide as Hn.
  - subst nodes. rewrite join_and_record_eq. simpl.
    destruct (join_next None (__onward_executor__ (plan r)))
      as [[[next_result next_state]|e] x]; simpl; [|done].
    destruct (is_str next_state).
    { cbv beta iota delta [graph_of set_executor add_events set_graph set_states
                             plan __onward_operation_graph__].
      destruct (TopologicalSorter_done next_state g1) as [[[]|] g2]; simpl; [|done].
      intros _. revert Hinv.
      apply (dispatched_inv_quiet _ _ _ [Ready []; Done next_state]); try done.
      simpl. by rewrite <- app_assoc. }
    destruct (is_None next_result); [by destruct (dict_getitem _ _)|].
    cbv beta iota delta [graph_of set_executor add_events set_graph set_states
                           plan __onward_operation_graph__ events].
    destruct (TopologicalSorter_done next_state g1) as [[[]|] g2]; simpl; [|done].
    intros _. revert Hinv.
    apply (dispatched_inv_quiet _ _ _
             [Ready []; Recorded next_state next_result; Done next_state]);
      try done.
    simpl. by rewrite <- !app_assoc.
  - rewrite dispatch_eq.
    destruct (build_partials _ self nodes [] []) as [[sp ap]|e] eqn:Hb; [|done].
    destruct Hinv as (Hreg & Hperm & Hsome).
    pose proof (build_partials_ops _ _ _ _ _ _ _ Hb) as [Hsync Hasync].
    simpl in Hsync, Hasync. rewrite Hreg in Hsync, Hasync.
    assert (Hnodes : forall k, k ∈ nodes -> is_Some (dict_get registry k)).
    { intros k Hk. rewrite <- Hreg.
      apply (build_partials_Ok_keys _ _ _ _ _ _ k Hb Hk). }
    assert (Hall : dispatched_inv registry
      {| plan := plan r;
         events := ((events r ++ [Ready nodes])
                    ++ ((fun p => Dispatch (SyncOperation (func p.1))) <$> sp))
                   ++ ((fun c => Dispatch (AsyncOperation (cr_self c.1))) <$> ap) |}).
    { split; [done|]. simpl.
      rewrite !dispatched_app, !surfaced_app, !dispatched_dispatches,
        !surfaced_dispatches, Hsync, Hasync, omap_app, !app_nil_r. simpl.
      rewrite app_nil_r. split.
      - rewrite omap_app, <- app_assoc, filter_app_complement. by rewrite Hperm.
      - intros k [?|?]%elem_of_app; auto. }
    simpl. destruct (add_operations sp _) as [[|e] x]; simpl; [|done].
    case_bool_decide as Hap.
    + destruct (add_async_operations ap _) as [[|e] y]; simpl; [|done].
      intros _. destruct Hall as (? & ? & ?). split; [done|]. by split.
    + intros _. subst ap.
      destruct Hall as (? & Hp & Hs'). simpl in Hp, Hs'. rewrite app_nil_r in Hp, Hs'.
      split; [done|]. by split.
Qed.

Lemma start_or_resume_invariant_Ok (I : @Run W X -> Prop) self :
  (forall r, I r -> (loop_body self r).1 = Ok tt -> I (loop_body self r).2) ->
  forall fuel r, I r ->
    is_Ok (start_or_resume fuel self r).1 = true ->
    I (start_or_resume fuel self r).2.
Proof.
  intros Hbody. induction fuel as [|fuel IH]; intros r Hr; [done|].
  rewrite start_or_resume_eq.
  destruct (TopologicalSorter_is_active (graph_of r)).1 as [[]|]; try done.
  specialize (Hbody r Hr).
  destruct (loop_body self r) as [[[]|]?]; simpl in *; [|done].
  apply IH. by apply Hbody.
Qed.

Lemma omap_dict_get_keys {K V} `{EqDecision K} (d : list (K * V)) :
  NoDup (dict_keys d) -> omap (dict_get d) (dict_keys d) = dict_values d.
Proof.
  intros Hnd.
  assert (Hgen : forall l, (forall e, e ∈ l -> e ∈ d) ->
                           omap (dict_get d) l.*1 = l.*2).
  { induction l as [|[k v] l IH]; intros Hsub; [done|]. simpl.
    rewrite (proj1 (dict_get_elem d k v Hnd)) by (apply Hsub; left).
    f_equal. apply IH. intros e He. apply Hsub. by right. }
  by apply Hgen.
Qed.

(** X15.  A run that completes has handed every operation of the registry
    to the executor, and each one once: the operations dispatched and the
    operations registered are the same up to order. *)
Theorem start_or_resume_dispatches_all fuel self cls :
  __onward_operation_graph__ cls = TopologicalSorter_new ->
  NoDup (dict_keys (__onward_operations__ cls)) ->
  (Plan_init cls).1 = Ok tt ->
  let run := start_or_resume fuel self
               {| plan := (Plan_init cls).2; events := [] |} in
  run.1 = Ok Completed ->
  dispatched (events run.2) ≡ₚ dict_values (__onward_operations__ cls).
Proof.
  intros Hnew Hndr. rewrite Plan_init_eq by (by rewrite Hnew). rewrite Hnew.
  cbn [_node2info TopologicalSorter_new fst snd]. cbv zeta.
  destruct (run_inv_initial cls) as [Hstatic Hinv0]. cbv zeta in Hstatic, Hinv0.
  set (registry := __onward_operations__ cls) in *.
  set (n2i0 := build_graph registry []) in *.
  set (g := prepared (set_node2info n2i0 TopologicalSorter_new)) in *.
  set (r0 := {| plan := with_graph g cls; events := [] |}) in *.
  destruct (build_graph_shape registry []) as [_ Hkeys]. fold n2i0 in Hkeys.
  destruct (_find_cycle g) eqn:Hcycle; [done|]. intros _ Hend.
  pose proof (start_or_resume_invariant (run_inv registry n2i0) self
                (fun r => loop_body_inv registry n2i0 self r Hstatic)
                fuel r0 Hinv0) as (Hsorter & Hsame & _ & _ & _ & Hsurf & Hnd & _).
  assert (Hdis : dispatched_inv registry (start_or_resume fuel self r0).2).
  { apply start_or_resume_invariant_Ok.
    - intros r. apply loop_body_dispatched.
    - split; [done|]. split; [done|]. by intros k ?%elem_of_nil.
    - by rewrite Hend. }
  destruct Hdis as (_ & Hperm & Hsome).
  assert (Hn2i : NoDup (dict_keys n2i0)) by apply Hinv0.
  assert (Hall : surfaced (events (start_or_resume fuel self r0).2)
                 ≡ₚ dict_keys registry).
  { apply NoDup_Permutation; [done|done|]. intros k. split.
    - intros Hk. apply dict_get_is_Some_keys. by apply Hsome.
    - intros Hk. apply Hsurf. exists _NODE_DONE. split; [|done].
      apply (inactive_all_done n2i0); try done.
      + by apply start_or_resume_completed.
      + intros k' Hk'. by apply (find_cycle_false g).
      + apply Hkeys. by right; left. }
  rewrite Hperm, Hall. by rewrite omap_dict_get_keys.
Qed.

End Dispatched.

Lemma start_or_resume_dispatches_all_witness :
  AddUsers_run.1 = Ok Completed
  /\ dispatched (events AddUsers_run.2)
     ≡ₚ [SyncOperation (descriptor read_file); SyncOperation (descriptor log_file)].
Proof.
  assert (Hend : AddUsers_run.1 = Ok Completed) by (vm_compute; reflexivity).
  split; [exact Hend|].
  assert (Hnd : NoDup (dict_keys (__onward_operations__ AddUsers_class))).
  { rewrite AddUsers_registry. apply (bool_decide_unpack _). vm_compute. exact I. }
  pose proof (start_or_resume_dispatches_all 10 AddUsers_instance AddUsers_class
                eq_refl Hnd eq_refl Hend) as Hp.
  rewrite AddUsers_registry in Hp. exact Hp.
Defined.

(** ** Registries stay in order *)

Section RegistryInvariant.
Context {W : Type}.
Implicit Types (func : @pyfunc W) (plans : gmap string (@Registry W)).

Lemma make_operation_shape func plan op :
  make_operation func = Ok (plan, op) ->
  (is_NoneType (provides (fields op)) = false ->
   issubclass_State (provides (fields op)) = true)
  /\ exists first rest,
       dependencies (fields op) = first :: rest
       /\ plan_of_first_arg first = Ok plan.
Proof.
  unfold make_operation. intros Hm.
  destruct (dict_get (get_type_hints func) "return") as [r|]; simpl in Hm; [|done].
  destruct (negb (issubclass_State r) && negb (is_NoneType r)) eqn:Hr;
    simpl in Hm; [done|].
  case_bool_decide; [done|].
  destruct (forallb _ (co_varnames func)); simpl in Hm; [|done].
  destruct (collect_depends func _ [] []) as [[depends hm]|e]; simpl in Hm; [|done].
  destruct depends as [|first rest]; simpl in Hm; [done|].
  destruct (plan_of_first_arg first) as [p|] eqn:Hp; simpl in Hm; [|done].
  injection Hm as <- <-.
  assert (Hfields : forall b : bool,
    fields (if b then AsyncOperation
                        {| function := func; dependencies := first :: rest;
                           provides := r; hint_map := hm |}
            else SyncOperation
                   {| function := func; dependencies := first :: rest;
                      provides := r; hint_map := hm |})
    = {| function := func; dependencies := first :: rest;
         provides := r; hint_map := hm |}) by (by intros []).
  rewrite Hfields. simpl. split; [|by exists first, rest].
  intros Hnone. rewrite Hnone in Hr. by destruct (issubclass_State r).
Qed.

Lemma operation_keyed func plans plans' :
  (forall plan, registry_keyed plan (onward_operations plans plan)) ->
  operation func plans = Ok plans' ->
  forall plan, registry_keyed plan (onward_operations plans' plan).
Proof.
  intros Hinv. unfold operation.
  destruct (make_operation func) as [[plan0 op]|e] eqn:Hm; [|done]. simpl.
  intros [Hfresh ->]%insert_operation_Ok plan.
  destruct (decide (plan = plan0)) as [->|Hne].
  - unfold onward_operations at 1 2. rewrite lookup_insert_eq. simpl.
    destruct (Hinv plan0) as [Hnd Hall].
    destruct (make_operation_shape _ _ _ Hm) as [Hstate Hfirst]. split.
    + unfold dict_keys. rewrite fmap_app. simpl. apply NoDup_app.
      split; [done|]. split; [|apply NoDup_singleton].
      intros k Hk ->%list_elem_of_singleton.
      by apply dict_get_None_keys in Hfresh.
    + intros k op' [Hin|[= -> ->]%list_elem_of_singleton]%elem_of_app;
        [by apply Hall|].
      split; [done|]. split; [|done].
      unfold op_id. rewrite id_cases.
      destruct (is_NoneType (provides (fields op))) eqn:Hn; [done|].
      intros t [= <-]. by apply Hstate.
  - unfold onward_operations at 1 2. rewrite lookup_insert_ne by done.
    apply Hinv.
Qed.

(** X16.  Registries in order stay in order, whatever functions are
    decorated: in every registry no key occurs twice, every operation is
    stored under its own id, every type key is a state class, and the
    first dependency of every operation leads to the Plan class whose
    registry it is in.  This holds in particular of every registry grown
    from the empty registries that Plan classes start with. *)
Theorem decorate_all_keyed funcs plans plans' :
  (forall plan, registry_keyed plan (onward_operations plans plan)) ->
  decorate_all funcs plans = Ok plans' ->
  forall plan, registry_keyed plan (onward_operations plans' plan).
Proof.
  revert plans. induction funcs as [|func funcs IH]; intros plans Hinv; simpl.
  - by intros [= <-].
  - destruct (operation func plans) as [plans1|e] eqn:Hop; simpl; [|done].
    apply IH. by apply (operation_keyed func plans).
Qed.

End RegistryInvariant.

Lemma decorate_all_keyed_witness :
  decorate_all [read_file; log_file] ∅ = Ok plans_of_main
  /\ registry_keyed "AddUsers" (onward_operations plans_of_main "AddUsers").
Proof.
  assert (Hdec : decorate_all [read_file; log_file] ∅ = Ok plans_of_main)
    by reflexivity.
  split; [exact Hdec|].
  apply (decorate_all_keyed [read_file; log_file] ∅ plans_of_main);
    [|exact Hdec].
  intros plan. unfold onward_operations. rewrite lookup_empty. simpl.
  split; [apply NoDup_nil_2|]. by intros k op ?%elem_of_nil.
Defined.

(** ** Two parameters of one type *)

Section SameType.
Context {W : Type}.
Implicit Types (func : @pyfunc W) (hints : list (string * pytype))
  (hint_map : list (pytype * string)) (kwargs : list (string * pyvalue)).

Lemma dict_set_elem {K V} `{EqDecision K} (d : list (K * V)) k v e :
  e ∈ dict_set d k v -> e = (k, v) \/ e ∈ d.
Proof.
  induction d as [|[k' v'] d IH]; simpl.
  - intros ->%list_elem_of_singleton. by left.
  - case_decide; subst.
    + intros [->|?]%elem_of_cons; [by left|right; by right].
    + intros [->|[->|?]%IH]%elem_of_cons; [right; left|by left|right; by right].
Qed.

Lemma hint_map_elem hints hint_map t n :
  (t, n) ∈ foldl (fun m e => dict_set m e.2 e.1) hint_map hints ->
  (t, n) ∈ hint_map \/ (n, t) ∈ hints.
Proof.
  revert hint_map. induction hints as [|[n' t'] hints IH]; intros hint_map; simpl.
  - by left.
  - intros [[[= -> ->]|?]%dict_set_elem|?]%IH.
    + right. left.
    + by left.
    + right. by right.
Qed.

(** A name that is not among the hints still to come does not get into
    the entry of [t]. *)
Lemma hint_map_later hints hint_map t n :
  n ∉ hints.*1 -> dict_get hint_map t <> Some n ->
  dict_get (foldl (fun m e => dict_set m e.2 e.1) hint_map hints) t <> Some n.
Proof.
  revert hint_map. induction hints as [|[n' t'] hints IH]; intros hint_map;
    simpl; [done|].
  intros [Hne Hn]%not_elem_of_cons Hget. apply IH; [done|].
  rewrite dict_get_set. case_decide; [|done]. congruence.
Qed.

Lemma bind_by_type_keys hint_map args kwargs kwargs' n :
  bind_by_type hint_map args kwargs = Ok kwargs' ->
  n ∈ dict_keys kwargs' ->
  n ∈ dict_keys kwargs \/ exists t, dict_get hint_map t = Some n.
Proof.
  revert kwargs. induction args as [|a args IH]; intros kwargs; simpl.
  - intros [= <-]. by left.
  - unfold dict_getitem.
    destruct (dict_get hint_map (type_of a)) as [slot|] eqn:Ha; simpl; [|done].
    intros Hb Hn. destruct (IH _ Hb Hn) as [[->|?]%dict_keys_set|?]; eauto.
Qed.

(** X17.  The descriptor keeps one parameter name per parameter type,
    the last one in the type hints.  So when two parameters of a registered
    function have the same type, the one whose hint comes first (the one
    declared first, unless it alone is positional-only) never gets an
    argument: whatever the arguments, its name is not among the keyword
    arguments of the deferred call, nor of the coroutine. *)
Theorem SyncOperation_call_same_type func plan op n1 n2 t before between after :
  well_formed func ->
  make_operation func = Ok (plan, op) ->
  annotation_order func = before ++ (n1, Some t) :: between ++ (n2, Some t) :: after ->
  forall args,
    (forall p, SyncOperation_call (fields op) args = Ok p ->
               n1 ∉ dict_keys (keywords p))
    /\ (forall c, AsyncOperation_call (fields op) args = Ok c ->
                  n1 ∉ dict_keys (cr_kwargs c)).
Proof.
  intros Hwf Hm Hpar args.
  pose proof (make_operation_collect _ _ _ Hwf Hm) as Hc.
  pose proof (collect_depends_hint_map _ _ _ _ _ _ Hc) as Hhm.
  assert (Hnd : NoDup (annotation_order func).*1).
  { destruct Hwf as [Hwf _]. by apply annotation_order_NoDup. }
  assert (Hann : annotated (annotation_order func)
                 = (annotated before ++ [(n1, t)])
                   ++ (annotated between ++ [(n2, t)]) ++ annotated after).
  { rewrite Hpar. unfold annotated.
    rewrite omap_app. simpl. rewrite omap_app. simpl.
    by rewrite <- !app_assoc. }
  assert (Hnames : forall n t', (n, t') ∈ annotated (annotation_order func) ->
                                (n, Some t') ∈ annotation_order func).
  { intros n t' Hin. unfold annotated in Hin.
    apply list_elem_of_omap in Hin as ([n' [t''|]] & Hin & Heq); simpl in Heq;
      [|done]. by injection Heq as -> ->. }
  assert (Hslot : forall t', dict_get (hint_map (fields op)) t' <> Some n1).
  { intros t'. destruct (decide (t' = t)) as [->|Hne].
    - rewrite Hhm, Hann, !foldl_app. simpl. apply hint_map_later.
      + intros Hin. apply list_elem_of_fmap in Hin as ([n t'] & -> & Hin).
        simpl in *. assert (Hin' : (n, Some t') ∈ after).
        { unfold annotated in Hin.
          apply list_elem_of_omap in Hin as ([n' [t''|]] & Hin & Heq);
            simpl in Heq; [|done]. by injection Heq as -> ->. }
        rewrite Hpar, fmap_app in Hnd. apply NoDup_app in Hnd as (_ & _ & Hnd).
        rewrite fmap_cons in Hnd. apply NoDup_cons in Hnd as [Hnot _].
        apply Hnot. simpl. rewrite fmap_app. apply elem_of_app. right.
        rewrite fmap_cons. right. apply list_elem_of_fmap. by exists (n, Some t').
      + rewrite dict_get_set, decide_True by done. intros [= ->].
        rewrite Hpar, fmap_app in Hnd. apply NoDup_app in Hnd as (_ & _ & Hnd).
        rewrite fmap_cons in Hnd. apply NoDup_cons in Hnd as [Hnot _].
        apply Hnot. simpl. rewrite fmap_app. apply elem_of_app. right. left.
    - intros Hget%dict_get_Some_elem. rewrite Hhm in Hget.
      apply hint_map_elem in Hget as [?%elem_of_nil|Hin]; [done|].
      apply Hnames in Hin.
      assert (Hin1 : (n1, Some t) ∈ annotation_order func).
      { rewrite Hpar. apply elem_of_app. right. left. }
      assert (Heq : Some t' = Some t); [|congruence].
      clear -Hnd Hin Hin1. revert Hnd Hin Hin1.
      generalize (annotation_order func). intros l. induction l as [|[m a] ps IH]; simpl;
        [by intros _ ?%elem_of_nil|].
      intros [Hm Hnd]%NoDup_cons Hin Hin1.
      apply elem_of_cons in Hin as [Hin|Hin];
        apply elem_of_cons in Hin1 as [Hin1|Hin1].
      * congruence.
      * exfalso. injection Hin as <- _. apply Hm, list_elem_of_fmap.
        exists (n1, Some t). by split.
      * exfalso. injection Hin1 as <- _. apply Hm, list_elem_of_fmap.
        exists (n1, Some t'). by split.
      * by apply IH. }
  unfold SyncOperation_call, AsyncOperation_call.
  destruct (bind_by_type (hint_map (fields op)) args []) as [kw|e] eqn:Hb;
    simpl; [|done].
  assert (Hkw : n1 ∉ dict_keys kw).
  { intros Hin. destruct (bind_by_type_keys _ _ _ _ _ Hb Hin)
      as [?%elem_of_nil|[t' Ht']]; [done|]. by apply (Hslot t'). }
  split; intros ? [= <-]; done.
Qed.

End SameType.

Lemma SyncOperation_call_same_type_witness :
  (SyncOperation_call (descriptor compare)
     [new ParseFile "old"; new ParseFile "new"; AddUsers_instance]
   = Ok {| func := descriptor compare;
           keywords := [("new", new ParseFile "new");
                        ("plan", AddUsers_instance)] |}
   /\ "old" ∉ dict_keys [("new", new ParseFile "new");
                          ("plan", AddUsers_instance)])
  /\ (SyncOperation_call (descriptor compare_positional_only)
        [new ParseFile "old"; new ParseFile "new"; AddUsers_instance]
      = Ok {| func := descriptor compare_positional_only;
              keywords := [("old", new ParseFile "new");
                           ("plan", AddUsers_instance)] |}
      /\ "new" ∉ dict_keys [("old", new ParseFile "new");
                             ("plan", AddUsers_instance)]).
Proof.
  assert (Hcall : SyncOperation_call (descriptor compare)
                    [new ParseFile "old"; new ParseFile "new"; AddUsers_instance]
                  = Ok {| func := descriptor compare;
                          keywords := [("new", new ParseFile "new");
                                       ("plan", AddUsers_instance)] |})
    by reflexivity.
  assert (Hcall' : SyncOperation_call (descriptor compare_positional_only)
                     [new ParseFile "old"; new ParseFile "new"; AddUsers_instance]
                   = Ok {| func := descriptor compare_positional_only;
                           keywords := [("old", new ParseFile "new");
                                        ("plan", AddUsers_instance)] |})
    by reflexivity.
  split; (split; [done|]).
  - refine (proj1 (SyncOperation_call_same_type compare "AddUsers"
                     (SyncOperation (descriptor compare)) "old" "new" ParseFile
                     [] [] [("plan", Some AddUsers)] _ eq_refl eq_refl
                     [new ParseFile "old"; new ParseFile "new"; AddUsers_instance])
              _ Hcall).
    split; apply (bool_decide_unpack _); vm_compute; exact I.
  - refine (proj1 (SyncOperation_call_same_type compare_positional_only "AddUsers"
                     (SyncOperation (descriptor compare_positional_only))
                     "new" "old" ParseFile
                     [] [("plan", Some AddUsers)] [] _ eq_refl eq_refl
                     [new ParseFile "old"; new ParseFile "new"; AddUsers_instance])
              _ Hcall').
    split; apply (bool_decide_unpack _); vm_compute; exact I.
Defined.

Section ThreadedTimeout.
Context {W : Type}.
Implicit Types (x : @ThreadedExecutor W * nat).

(** X18.  The threaded executor passes the timeout on.  When the future
    that completes first does so within the timeout, [join_next] does what
    it does without one.  When it does not, [join_next] raises
    TimeoutError once the timeout has passed and leaves every future in
    flight; a later call without timeout then returns that future's
    result and takes it out. *)
Theorem ThreadedExecutor_join_next_timeout t x i f :
  first_completed done_at (futures x.1) = Some (i, f) ->
  (done_at f <= x.2 + t ->
   ThreadedExecutor_join_next (Some t) x = ThreadedExecutor_join_next None x)
  /\ (x.2 + t < done_at f ->
      ThreadedExecutor_join_next (Some t) x
      = (Raise TimeoutError, (x.1, x.2 + t))
      /\ ThreadedExecutor_join_next None (x.1, x.2 + t)
         = (future_result f,
            ({| pool := pool x.1; futures := delete i (futures x.1) |},
             done_at f))).
Proof.
  intros Hf. split.
  - intros Hle. unfold ThreadedExecutor_join_next, next_as_completed.
    destruct (next_completed_cases done_at
                (finished_order (pool x.1) x.2 (futures x.1)) x.2 (futures x.1))
      as [->|(j & g & -> & _ & Hg)].
    + rewrite Hf. by rewrite bool_decide_eq_false_2 by lia.
    + by rewrite bool_decide_eq_false_2 by lia.
  - intros Hlt. split; [by apply (ThreadedExecutor_join_next_expiry t x i f)|].
    rewrite (ThreadedExecutor_join_next_None (x.1, x.2 + t) i f)
      by (simpl; done || lia).
    simpl. do 2 f_equal. lia.
Qed.

End ThreadedTimeout.

Lemma ThreadedExecutor_join_next_timeout_witness :
  ThreadedExecutor_join_next (Some 1) threaded_busy
  = (Raise TimeoutError, (threaded_busy.1, 1))
  /\ ThreadedExecutor_join_next None (threaded_busy.1, 1)
     = (Ok (new ParseFile "percentage=.213", ByType ParseFile),
        ({| pool := slow_pool; futures := [] |}, 10)).
Proof.
  refine (proj2 (ThreadedExecutor_join_next_timeout 1 threaded_busy 0 _ eq_refl) _).
  vm_compute. lia.
Defined.

(** ** The serial executor is idle when the run completes *)

Section Counters.
Implicit Types (g : TopologicalSorter).

Lemma for_each_counters {A} (body : A -> M TopologicalSorter unit) (l : list A) :
  (forall a g, _npassedout (body a g).2 = _npassedout g
               /\ _nfinished (body a g).2 = _nfinished g) ->
  forall g, _npassedout (for_each l body g).2 = _npassedout g
            /\ _nfinished (for_each l body g).2 = _nfinished g.
Proof.
  intros Hbody. induction l as [|a l IH]; intros g; [done|].
  simpl. unfold mbind, M_bind. pose proof (Hbody a g) as [Hp Hf].
  destruct (body a g) as [[[]|e] g1]; simpl in *; [|done].
  destruct (IH g1) as [Hp' Hf']. by rewrite Hp', Hf'.
Qed.

Lemma assign_npredecessors_counters v n g :
  _npassedout (assign_npredecessors v n g).2 = _npassedout g
  /\ _nfinished (assign_npredecessors v n g).2 = _nfinished g.
Proof. unfold assign_npredecessors. by destruct (dict_get _ n). Qed.

Lemma release_counters s g :
  _npassedout (release s g).2 = _npassedout g
  /\ _nfinished (release s g).2 = _nfinished g.
Proof. unfold release. by destruct (dict_get _ s). Qed.

Lemma TopologicalSorter_get_ready_counters g ready g' :
  TopologicalSorter_get_ready g = (Ok ready, g') ->
  _npassedout g' = _npassedout g + length ready /\ _nfinished g' = _nfinished g.
Proof.
  unfold TopologicalSorter_get_ready.
  destruct (_ready_nodes g) as [l|]; [|done].
  pose proof (for_each_counters (assign_npredecessors _NODE_OUT) l
                (assign_npredecessors_counters _NODE_OUT) g) as [Hp Hf].
  destruct (for_each l _ g) as [[[]|e] g1]; [|done].
  intros [= <- <-]. simpl in *. by rewrite Hp, Hf.
Qed.

Lemma TopologicalSorter_done_counters n g g' :
  TopologicalSorter_done n g = (Ok tt, g') ->
  _npassedout g' = _npassedout g /\ _nfinished g' = _nfinished g + 1.
Proof.
  unfold TopologicalSorter_done.
  destruct (_ready_nodes g); [|done].
  destruct (dict_get (_node2info g) n) as [nodeinfo|]; [|done].
  case_bool_decide.
  { case_bool_decide; [done|]. by case_bool_decide. }
  unfold mbind, M_bind.
  pose proof (assign_npredecessors_counters _NODE_DONE n g) as [Hp1 Hf1].
  destruct (assign_npredecessors _NODE_DONE n g) as [[[]|e] g1]; [|done].
  pose proof (for_each_counters release (successors nodeinfo) release_counters g1)
    as [Hp2 Hf2].
  destruct (for_each (successors nodeinfo) release g1) as [[[]|e] g2]; [|done].
  unfold modify. intros [= <-]. simpl in *. rewrite Hp2, Hf2, Hp1, Hf1. done.
Qed.

End Counters.

Section SerialIdle.
Context {W : Type}.
Implicit Types (r : @Run W (@SynchronousExecutor W * W)) (self : pyvalue)
  (cls : @PlanClass W (@SynchronousExecutor W * W)).

Local Arguments TopologicalSorter_done : simpl never.
Local Arguments TopologicalSorter_get_ready : simpl never.
Local Arguments TopologicalSorter_is_active : simpl never.
Local Arguments build_partials : simpl never.
Local Arguments dict_getitem : simpl never.

Lemma list_pop_length {A} (l : list A) x rest :
  list_pop l = Some (x, rest) -> length l = S (length rest).
Proof.
  revert x rest. induction l as [|y l IH]; intros x rest; simpl; [done|].
  destruct (list_pop l) as [[z r]|] eqn:Hl.
  - intros [= <- <-]. simpl. by rewrite (IH z r).
  - intros [= <- <-]. by destruct l as [|? l']; [|simpl in Hl; destruct (list_pop l') as [[]|]].
Qed.

Lemma omap_length_all {A B} (f : A -> option B) (l : list A) :
  (forall a, a ∈ l -> is_Some (f a)) -> length (omap f l) = length l.
Proof.
  induction l as [|a l IH]; intros Hall; [done|]. simpl.
  destruct (Hall a (list_elem_of_here _ _)) as [b ->]. simpl.
  f_equal. apply IH. intros a' Ha'. apply Hall. by right.
Qed.

Lemma loop_body_schedule self r :
  schedule_inv r ->
  (loop_body self r).1 = Ok tt ->
  schedule_inv (loop_body self r).2.
Proof.
  unfold schedule_inv. intros Hinv. rewrite loop_body_eq.
  destruct (TopologicalSorter_get_ready (graph_of r)) as [[nodes|e] g1] eqn:Hg;
    simpl; [|done].
  apply TopologicalSorter_get_ready_counters in Hg as [Hp1 Hf1].
  case_bool_decide as Hn.
  - subst nodes. simpl in Hp1. rewrite join_and_record_eq.
    cbv beta iota zeta delta [graph_of set_executor add_events set_graph set_states
                                plan __onward_operation_graph__
                                __onward_executor__ __onward_operations__
                                __onward_states__ events] in *.
    change (join_next None) with (@SynchronousExecutor_join_next W None).
    unfold SynchronousExecutor_join_next.
    destruct (negb _); [done|].
    destruct (list_pop _) as [[p rest]|] eqn:Hpop; [|done].
    apply list_pop_length in Hpop.
    destruct (call_partial p _) as [[[next_result next_state]|e] w']; [|done].
    cbn [fst snd].
    assert (Hfinish : forall g2,
      TopologicalSorter_done next_state g1 = (Ok tt, g2) ->
      length rest + _nfinished g2 = _npassedout g2).
    { intros g2 [-> ->]%TopologicalSorter_done_counters. lia. }
    destruct (is_str next_state).
    { destruct (TopologicalSorter_done next_state g1) as [[[]|e] g2] eqn:Hd;
        [|done].
      intros _. simpl. by apply Hfinish. }
    destruct (is_None next_result); [by destruct (dict_getitem _ _)|].
    destruct (TopologicalSorter_done next_state g1) as [[[]|e] g2] eqn:Hd;
      [|done].
    intros _. simpl. by apply Hfinish.
  - rewrite dispatch_eq.
    destruct (build_partials _ self nodes [] []) as [[sp ap]|e] eqn:Hb; [|done].
    pose proof (build_partials_ops _ _ _ _ _ _ _ Hb) as [Hsync Hasync].
    simpl in Hsync, Hasync.
    assert (Hlen : length (omap (dict_get (__onward_operations__ (plan r))) nodes)
                   = length nodes).
    { apply omap_length_all. intros k Hk.
      apply (build_partials_Ok_keys _ _ _ _ _ _ k Hb Hk). }
    pose proof (filter_app_complement (fun op => is_sync op = true)
                  (omap (dict_get (__onward_operations__ (plan r))) nodes)) as Hperm.
    apply Permutation_length in Hperm. rewrite length_app in Hperm.
    apply (f_equal length) in Hsync, Hasync.
    rewrite !length_fmap in Hsync.
    set (ops := omap (dict_get (__onward_operations__ (plan r))) nodes) in *.
    clearbody ops. clear Hb.
    cbv beta iota zeta delta [graph_of set_executor add_events set_graph
                                plan __onward_operation_graph__
                                __onward_executor__ events] in *.
    change (add_operations sp) with (@SynchronousExecutor_add_operations W sp).
    unfold SynchronousExecutor_add_operations, modify. cbn [fst snd].
    case_bool_decide as Hap; [done|].
    intros _. subst ap. simpl. rewrite length_app, length_fmap.
    simpl in Hasync. lia.
Qed.

(** X19.  On the serial executor, between two turns as many deferred
    calls are scheduled as nodes were passed out and are not finished.
    So when a run that started with nothing scheduled completes, nothing
    is scheduled: every operation that was handed to the executor has been
    run, and the executor is not running. *)
Theorem SynchronousExecutor_completed_idle fuel self cls :
  __onward_operation_graph__ cls = TopologicalSorter_new ->
  schedule (__onward_executor__ cls).1 = [] ->
  let run := start_or_resume fuel self
               {| plan := (Plan_init cls).2; events := [] |} in
  run.1 = Ok Completed ->
  schedule (__onward_executor__ (plan run.2)).1 = []
  /\ running (__onward_executor__ (plan run.2)) = false.
Proof.
  intros Hnew Hidle. rewrite Plan_init_eq by (by rewrite Hnew). rewrite Hnew.
  cbn [_node2info TopologicalSorter_new fst snd]. cbv zeta. intros Hend.
  set (r0 := {| plan := with_graph _ cls; events := [] |}) in *.
  assert (Hinv : schedule_inv (start_or_resume fuel self r0).2).
  { apply start_or_resume_invariant_Ok.
    - intros r. apply loop_body_schedule.
    - unfold schedule_inv. simpl. by rewrite Hidle.
    - by rewrite Hend. }
  apply start_or_resume_completed, is_active_false in Hend as [_ Hle].
  unfold schedule_inv in Hinv.
  assert (Hnil : schedule (__onward_executor__ (plan (start_or_resume fuel self r0).2)).1
                 = []).
  { apply length_zero_iff_nil. lia. }
  split; [done|]. simpl. unfold SynchronousExecutor_running. by rewrite Hnil.
Qed.

End SerialIdle.

Lemma SynchronousExecutor_completed_idle_witness :
  AddUsers_run.1 = Ok Completed
  /\ schedule (__onward_executor__ (plan AddUsers_run.2)).1 = []
  /\ running (__onward_executor__ (plan AddUsers_run.2)) = false.
Proof.
  assert (Hend : AddUsers_run.1 = Ok Completed) by (vm_compute; reflexivity).
  split; [exact Hend|].
  exact (SynchronousExecutor_completed_idle 10 AddUsers_instance AddUsers_class
           eq_refl eq_refl Hend).
Defined.
